(** * Icecast relay subsystem (src/slave.c): a shallow embedding

    The relay control plane of the server: relay records and the
    reconciler ([relay_copy], [relay_has_changed], [update_relay_set],
    [update_relays]), the relay worker ([start_relay_stream]), the start
    policy ([check_relay_stream]), the master stream-list fetch
    ([streamlist_header], [streamlist_data], [streamlist_thread]) and the
    slave host table ([slave_host_add], [slave_host_remove],
    [slave_redirect]).

    Conventions.
    - A C [int] is a [Z]; where the code does arithmetic on it the
      two's-complement wrap-around is written out ([wrap_int]).
    - A C string is a [string]: the bytes before the terminating NUL.
      A pointer to a string that may be NULL is an [option string].
    - A singly linked list ([->next]) is a Rocq [list]; unlinking a node
      and pushing it on another list moves the record, with every field
      it carries.
    - Calls into other subsystems (sockets, parser, stats, threads,
      source tree) are recorded as [event]s in a trace, and their results
      are supplied by the environment.  The worker, the start policy and
      the fetch thread keep the trace, log entries included; the slave
      host table and the two libcurl callbacks are pure functions of their
      data, and their debug and info entries are left out. *)

From Stdlib Require Import ZArith List Bool String Ascii Lia Permutation.
Import ListNotations.

Local Open Scope string_scope.
Local Open Scope list_scope.
Local Open Scope Z_scope.

(** ** C library primitives *)

Module C.

Definition INT_MAX : Z := 2147483647.
Definition INT_MIN : Z := -2147483648.
Definition LONG_MAX : Z := 9223372036854775807.
Definition LONG_MIN : Z := -9223372036854775808.

(** Two's-complement reduction of a mathematical integer to [int]. *)
Definition wrap_int (z : Z) : Z := (z + 2 ^ 31) mod 2 ^ 32 - 2 ^ 31.

(** [strcmp]: only the sign of the result is specified. *)
Definition strcmp (a b : string) : Z :=
  match String.compare a b with
  | Eq => 0
  | Lt => -1
  | Gt => 1
  end.

Definition strlen (s : string) : Z := Z.of_nat (String.length s).

(** [strchr s c]: the offset of the first [c] in [s], or NULL. *)
Fixpoint strchr (s : string) (c : ascii) : option nat :=
  match s with
  | EmptyString => None
  | String a s' =>
      if Ascii.eqb a c then Some O
      else match strchr s' c with
           | Some i => Some (S i)
           | None => None
           end
  end.

(** The string that starts [n] bytes into [s] (pointer arithmetic). *)
Fixpoint str_drop (n : nat) (s : string) : string :=
  match n, s with
  | O, _ => s
  | S k, String _ s' => str_drop k s'
  | S _, EmptyString => EmptyString
  end.

(** [s] cut by a NUL written at offset [n]. *)
Fixpoint str_take (n : nat) (s : string) : string :=
  match n, s with
  | O, _ => EmptyString
  | S k, String a s' => String a (str_take k s')
  | S _, EmptyString => EmptyString
  end.

Definition code (c : ascii) : Z := Z.of_N (N_of_ascii c).

Definition isspace (c : ascii) : bool :=
  (code c =? 32) || ((9 <=? code c) && (code c <=? 13)).

Definition isdigit (c : ascii) : bool := (48 <=? code c) && (code c <=? 57).

Fixpoint skip_space (s : string) : string :=
  match s with
  | String c s' => if isspace c then skip_space s' else s
  | EmptyString => s
  end.

(** The decimal digits at the head of [s], accumulated onto [acc], and
    whether there was any. *)
Fixpoint scan_digits (acc : Z) (any : bool) (s : string) : Z * bool * string :=
  match s with
  | String c s' =>
      if isdigit c then scan_digits (10 * acc + (code c - 48)) true s'
      else (acc, any, s)
  | EmptyString => (acc, any, s)
  end.

(** [strtol (s, &end, 10)]: white space, an optional sign, digits; the
    value is clamped to the range of [long].  The result is the value,
    whether a number was read, and the rest of the input. *)
Definition strtol (s : string) : Z * bool * string :=
  let s1 := skip_space s in
  let '(neg, s2) :=
    match s1 with
    | String "-" r => (true, r)
    | String "+" r => (false, r)
    | _ => (false, s1)
    end in
  let '(v, any, rest) := scan_digits 0 false s2 in
  let v := if neg then - v else v in
  (Z.max LONG_MIN (Z.min LONG_MAX v), any, if any then rest else s).

(** [atoi]: [(int) strtol (s, NULL, 10)], as the C library has it; a
    value outside [long] is clamped and the conversion to [int] wraps. *)
Definition atoi (s : string) : Z :=
  let '(v, _, _) := strtol s in wrap_int v.

(** [memchr]: the same search over a block of bytes. *)
Definition memchr (block : string) (c : ascii) : option nat := strchr block c.

(** The C string that starts a block of bytes: what precedes the first NUL. *)
Fixpoint cstring (block : string) : string :=
  match block with
  | String c s' => if Ascii.eqb c "000" then EmptyString else String c (cstring s')
  | EmptyString => EmptyString
  end.

Definition strncmp (a b : string) (n : nat) : Z :=
  strcmp (str_take n a) (str_take n b).

Fixpoint skip_nonspace (s : string) : string :=
  match s with
  | String c s' => if isspace c then s else skip_nonspace s'
  | EmptyString => s
  end.

Fixpoint strip_prefix (prefix s : string) : option string :=
  match prefix, s with
  | EmptyString, _ => Some s
  | String a p', String b s' => if Ascii.eqb a b then strip_prefix p' s' else None
  | String _ _, EmptyString => None
  end.

(** Whether [needle] occurs in [s]. *)
Fixpoint contains (needle s : string) : bool :=
  match strip_prefix needle s with
  | Some _ => true
  | None =>
      match s with
      | String _ s' => contains needle s'
      | EmptyString => false
      end
  end.

Definition EOF : Z := -1.

(** [sscanf (s, "HTTP%*s %d OK", &respcode)]: the return value and the value
    stored in [respcode], if any.  The literal [HTTP] must match; [%*s]
    skips white space and needs a non-empty run of other bytes, which it
    discards; the blank skips white space; [%d] reads a number as [strtol]
    does and stores it as an [int]; what follows the first stored
    conversion cannot change the return value any more. *)
Definition sscanf_status (s : string) : Z * option Z :=
  match strip_prefix "HTTP" s with
  | None => (match s with EmptyString => EOF | _ => 0 end, None)
  | Some r1 =>
      match skip_space r1 with
      | EmptyString => (EOF, None)
      | r2 =>
          let r3 := skip_space (skip_nonspace r2) in
          let '(v, any, _) := strtol r3 in
          if any then (1, Some (wrap_int v))
          else (match skip_space r3 with EmptyString => EOF | _ => 0 end, None)
      end
  end.

Definition digit_char (d : Z) : ascii := ascii_of_N (Z.to_N (48 + d)).

(** The decimal digits of [n >= 0], most significant first, in front of
    [acc]; [fuel] bounds the number of digits. *)
Fixpoint fmt_digits (fuel : nat) (n : Z) (acc : string) : string :=
  match fuel with
  | O => acc
  | S f =>
      let acc' := String (digit_char (n mod 10)) acc in
      if n / 10 =? 0 then acc' else fmt_digits f (n / 10) acc'
  end.

(** The conversion [%d] of the printf family. *)
Definition fmt_d (z : Z) : string :=
  if z <? 0 then String "-" (fmt_digits (S (Z.to_nat (Z.log2 (- z)))) (- z) "")
  else fmt_digits (S (Z.to_nat (Z.log2 z))) z "".

(** [snprintf (buf, size, ...)] for [size > 0]: the formatted text cut to
    [size - 1] bytes. *)
Definition snprintf (size : Z) (text : string) : string :=
  str_take (Z.to_nat (size - 1)) text.

End C.

(** ** Relay records and the reconciler *)

Module Relay.
Import C.

(** Modelled from the spec: [struct relay_server] is declared in cfgfile.h,
    which is not part of the sources at hand; the fields are the ones
    slave.c reads and writes, typed as the spec's data model gives them
    ([source] and [thread] are the runtime handles, NULL being [None]).
    The [next] pointer is the tail of the list the record sits in. *)
Record relay_server : Type := mk_relay {
  server : string;
  port : Z;
  mount : string;
  localmount : string;
  username : option string;
  password : option string;
  mp3metadata : Z;
  on_demand : Z;
  enable : Z;
  source : option nat;
  thread : option nat;
  running : Z;
  cleanup : Z
}.

Definition set_on_demand (v : Z) (r : relay_server) : relay_server :=
  mk_relay (server r) (port r) (mount r) (localmount r) (username r)
    (password r) (mp3metadata r) v (enable r) (source r) (thread r)
    (running r) (cleanup r).

Definition set_thread (v : option nat) (r : relay_server) : relay_server :=
  mk_relay (server r) (port r) (mount r) (localmount r) (username r)
    (password r) (mp3metadata r) (on_demand r) (enable r) (source r) v
    (running r) (cleanup r).

Definition set_running (v : Z) (r : relay_server) : relay_server :=
  mk_relay (server r) (port r) (mount r) (localmount r) (username r)
    (password r) (mp3metadata r) (on_demand r) (enable r) (source r) (thread r)
    v (cleanup r).

Definition set_cleanup (v : Z) (r : relay_server) : relay_server :=
  mk_relay (server r) (port r) (mount r) (localmount r) (username r)
    (password r) (mp3metadata r) (on_demand r) (enable r) (source r) (thread r)
    (running r) v.

Definition set_source (v : option nat) (r : relay_server) : relay_server :=
  mk_relay (server r) (port r) (mount r) (localmount r) (username r)
    (password r) (mp3metadata r) (on_demand r) (enable r) v (thread r)
    (running r) (cleanup r).

(** [relay_copy]: [calloc_ok] tells whether [calloc] returned a block.  The
    copy starts zeroed, so [thread], [running] and [cleanup] are null; the
    source handle moves to the copy and is cleared in [r].  The result is
    the copy (or NULL) and [r] as the call leaves it. *)
Definition relay_copy (calloc_ok : bool) (r : relay_server)
  : option relay_server * relay_server :=
  if calloc_ok then
    (Some {| server := server r;
             port := port r;
             mount := mount r;
             localmount := localmount r;
             username := match username r with Some u => Some u | None => None end;
             password := match password r with Some p => Some p | None => None end;
             mp3metadata := mp3metadata r;
             on_demand := on_demand r;
             enable := enable r;
             source := source r;
             thread := None;
             running := 0;
             cleanup := 0 |},
     set_source None r)
  else (None, r).

(** [relay_has_changed new old]: the return value and [old] as the call
    leaves it. *)
Definition relay_has_changed (new old : relay_server) : Z * relay_server :=
  if negb (strcmp (mount new) (mount old) =? 0) then (1, old)
  else if negb (strcmp (server new) (server old) =? 0) then (1, old)
  else if negb (port new =? port old) then (1, old)
  else if negb (mp3metadata new =? mp3metadata old) then (1, old)
  else (0, if negb (on_demand new =? on_demand old)
           then set_on_demand (on_demand new) old
           else old).

(** The inner [while (existing_relay)] loop of [update_relay_set]: walks
    the list behind [*current]; on [break] the node is unlinked
    ([*existing_p = existing_relay->next]) and returned, otherwise the walk
    ends with [existing_relay == NULL]. *)
Fixpoint scan_existing (relay : relay_server) (existing : list relay_server)
  : option relay_server * list relay_server :=
  match existing with
  | [] => (None, [])
  | e :: next =>
      if strcmp (localmount relay) (localmount e) =? 0 then
        let '(changed, e') := relay_has_changed relay e in
        if changed =? 0 then (Some e', next)
        else
          let '(found, next') := scan_existing relay next in
          (found, e' :: next')
      else
        let '(found, next') := scan_existing relay next in
        (found, e :: next')
  end.

Section Reconciler.

(** Outcome of the [n]-th [calloc] of the run. *)
Variable calloc_ok : nat -> bool.

(** The outer [while (relay)] loop of [update_relay_set].  The state is the
    list behind [*current], the part of [updated] still to visit,
    [new_list] and the number of allocations made so far; the result adds
    the visited part of [updated] as the loop leaves it.  [None] is the
    dereference of a NULL [existing_relay] after a failed [relay_copy]. *)
Fixpoint update_relay_loop (current relay new_list : list relay_server) (n : nat)
  : option (list relay_server * list relay_server * list relay_server * nat) :=
  match relay with
  | [] => Some (new_list, current, [], n)
  | r :: next =>
      match scan_existing r current with
      | (Some existing_relay, current') =>
          match update_relay_loop current' next (existing_relay :: new_list) n with
          | Some (nl, c, upd, n') => Some (nl, c, r :: upd, n')
          | None => None
          end
      | (None, current') =>
          match relay_copy (calloc_ok n) r with
          | (Some existing_relay, r') =>
              match update_relay_loop current' next (existing_relay :: new_list) (S n) with
              | Some (nl, c, upd, n') => Some (nl, c, r' :: upd, n')
              | None => None
              end
          | (None, _) => None
          end
      end
  end.

(** [update_relay_set current updated]: the returned list, then [*current],
    [updated] and the allocation count as the call leaves them. *)
Definition update_relay_set (current updated : list relay_server) (n : nat)
  : option (list relay_server * list relay_server * list relay_server * nat) :=
  update_relay_loop current updated [] n.

(** [update_relays relay_list new_relay_list]: the cleanup list, then
    [*relay_list], [new_relay_list] and the allocation count. *)
Definition update_relays (relay_list new_relay_list : list relay_server) (n : nat)
  : option (list relay_server * list relay_server * list relay_server * nat) :=
  match update_relay_set relay_list new_relay_list n with
  | Some (active_relays, remaining, upd, n') =>
      let cleanup_relays := remaining in
      Some (cleanup_relays, active_relays, upd, n')
  | None => None
  end.

End Reconciler.

(** *** The reconciler as the design describes it *)

Definition materially_equivalent (d e : relay_server) : bool :=
  String.eqb (server d) (server e) && String.eqb (mount d) (mount e)
  && (port d =? port e) && (mp3metadata d =? mp3metadata e).

(** [e] is the record of [current] that [d] keeps running. *)
Definition keeps (d e : relay_server) : bool :=
  String.eqb (localmount d) (localmount e) && materially_equivalent d e.

Definition promote (d e : relay_server) : relay_server :=
  set_on_demand (on_demand d) e.

Definition introduce (d : relay_server) : relay_server :=
  {| server := server d; port := port d; mount := mount d;
     localmount := localmount d; username := username d;
     password := password d; mp3metadata := mp3metadata d;
     on_demand := on_demand d; enable := enable d; source := source d;
     thread := None; running := 0; cleanup := 0 |}.

Definition reconcile_one (current : list relay_server) (d : relay_server)
  : relay_server :=
  match find (keeps d) current with
  | Some e => promote d e
  | None => introduce d
  end.

Definition keep_or_new (current updated : list relay_server) : list relay_server :=
  rev (map (reconcile_one current) updated).

Definition cleanup_set (current updated : list relay_server) : list relay_server :=
  filter (fun e => negb (existsb (fun d => keeps d e) updated)) current.

Definition updated_after (current updated : list relay_server) : list relay_server :=
  map (fun d => match find (keeps d) current with
                | Some _ => d
                | None => set_source None d
                end) updated.

(** The list behind [*current] once the first record that [d] keeps has
    been unlinked. *)
Fixpoint unlink_first (d : relay_server) (current : list relay_server)
  : list relay_server :=
  match current with
  | [] => []
  | e :: next => if keeps d e then next else e :: unlink_first d next
  end.

(** [x] is what a pass leaves in the active list for [d]: a record that
    [d] keeps and that carries [d]'s [on_demand]. *)
Definition settled (d x : relay_server) : Prop :=
  keeps d x = true /\ on_demand x = on_demand d.

Definition introduced (current updated : list relay_server) : nat :=
  List.length (filter (fun d => match find (keeps d) current with
                                | Some _ => false
                                | None => true
                                end) updated).

End Relay.

(** ** Sources, configuration and the world the supervisor runs in *)

Module Source.

(** Modelled from the spec: [source_t] is declared in source.h, which is
    not part of the sources at hand; these are the fields slave.c reads and
    writes.  [listeners] is an [unsigned long]. *)
Record source_t : Type := mk_source {
  fallback_mount : option string;
  fallback_override : Z;
  on_demand : Z;
  on_demand_req : Z;
  running : Z;
  listeners : Z;
  yp_public : Z
}.

Definition set_on_demand (v : Z) (s : source_t) : source_t :=
  mk_source (fallback_mount s) (fallback_override s) v (on_demand_req s)
    (running s) (listeners s) (yp_public s).

Definition set_on_demand_req (v : Z) (s : source_t) : source_t :=
  mk_source (fallback_mount s) (fallback_override s) (on_demand s) v
    (running s) (listeners s) (yp_public s).

Definition set_running (v : Z) (s : source_t) : source_t :=
  mk_source (fallback_mount s) (fallback_override s) (on_demand s)
    (on_demand_req s) v (listeners s) (yp_public s).

Definition set_yp_public (v : Z) (s : source_t) : source_t :=
  mk_source (fallback_mount s) (fallback_override s) (on_demand s)
    (on_demand_req s) (running s) (listeners s) v.

(** The [source_t] objects in memory, by address. *)
Definition store : Type := nat -> source_t.

Definition update (p : nat) (f : source_t -> source_t) (m : store) : store :=
  fun q => if Nat.eqb q p then f (m q) else m q.

End Source.

Module Config.

(** Modelled from the spec: [ice_config_t] is declared in cfgfile.h, which
    is not part of the sources at hand; these are the settings slave.c
    reads (the spec lists them as the configuration snapshot). *)
Record ice_config_t : Type := mk_config {
  hostname : string;
  master_server : option string;
  master_server_port : Z;
  master_ssl_port : Z;
  master_username : string;
  master_password : option string;
  master_relay_auth : Z;
  master_update_interval : Z;
  master_redirect_port : Z;
  on_demand : Z;
  relay : list Relay.relay_server
}.

End Config.

Module Trace.

Inductive log_level : Type := ERROR | WARN | INFO | DEBUG.

(** The calls slave.c makes into the rest of the server and into libcurl,
    with the arguments that matter here.  A log entry carries the format
    string of the macro, without the quotes it puts around [%s]. *)
Inductive event : Type :=
| LOG (level : log_level) (format : string)
| config_get_config
| config_release_config
| config_find_mount (mount : string)
| source_update_settings (source : option nat) (mountinfo : bool)
| source_reserve (mount : string)
| source_find_mount (mount : string)
| source_move_clients (source dest : nat)
| source_clear_source (source : nat)
| source_free_source (source : nat)
| source_main (source : nat)
| stats_event (mount : option string) (name value : option string)
| stats_event_inc (name : string)
| yp_remove (mount : string)
| avl_tree_rlock
| avl_tree_unlock
| thread_create (name : string) (arg : string)
| thread_join (thread : option nat)
| thread_mutex_lock
| thread_mutex_unlock
| sock_connect_wto (host : string) (port : Z) (timeout : Z)
| connection_create
| connection_close
| sock_write (text : string)
| util_read_header
| httpp_create_parser
| httpp_initialize
| httpp_parse_response (uri : string)
| httpp_getvar (name : string)
| httpp_destroy
| global_lock
| global_unlock
| client_create
| client_set_queue
| connection_complete_source (source : nat)
| curl_easy_perform (url : string) (userpwd : string)
| curl_easy_cleanup
| xmlFree_relay (localmount : string).

End Trace.

Module Master.
Import C.

(** [struct master_conn_details]. *)
Record master_conn_details : Type := mk_master {
  server : string;
  port : Z;
  ssl_port : Z;
  send_auth : Z;
  on_demand : Z;
  previous : Z;
  ok : Z;
  buffer : string;
  username : string;
  password : string;
  new_relays : list Relay.relay_server
}.

Definition set_ok (v : Z) (m : master_conn_details) : master_conn_details :=
  mk_master (server m) (port m) (ssl_port m) (send_auth m) (on_demand m)
    (previous m) v (buffer m) (username m) (password m) (new_relays m).

Definition set_buffer (b : string) (prev : Z) (m : master_conn_details)
  : master_conn_details :=
  mk_master (server m) (port m) (ssl_port m) (send_auth m) (on_demand m)
    prev (ok m) b (username m) (password m) (new_relays m).

Definition push_relay (r : Relay.relay_server) (m : master_conn_details)
  : master_conn_details :=
  mk_master (server m) (port m) (ssl_port m) (send_auth m) (on_demand m)
    (previous m) (ok m) (buffer m) (username m) (password m) (r :: new_relays m).

(** [(size_t) -1]. *)
Definition SIZE_MAX : Z := 2 ^ 64 - 1.

(** The header line as [streamlist_header] reads it once the end-of-line
    byte is overwritten with NUL; [None] when the block holds neither CR
    nor LF. *)
Definition header_text (ptr : string) : option string :=
  match memchr ptr "013" with
  | Some eol => Some (cstring (str_take eol ptr))
  | None =>
      match memchr ptr "010" with
      | Some eol => Some (cstring (str_take eol ptr))
      | None => None
      end
  end.

(** [sscanf (ptr, "HTTP%*s %d OK", &respcode) == 1 && respcode == 200]. *)
Definition scans_200 (line : string) : bool :=
  let '(converted, respcode) := sscanf_status line in
  (converted =? 1)
  && match respcode with
     | Some code => code =? 200
     | None => false
     end.

(** [streamlist_header (ptr, size, nmemb, stream)], [ptr] being the block
    of [size*nmemb] bytes: the return value, the details and whether the
    warning was logged. *)
Definition streamlist_header (ptr : string) (master : master_conn_details)
  : Z * master_conn_details * bool :=
  let passed_len := strlen ptr in
  match header_text ptr with
  | None => (SIZE_MAX, master, false)
  | Some line =>
      if strncmp line "HTTP" 4 =? 0 then
        if scans_200 line then (passed_len, set_ok 1 master, false)
        else (SIZE_MAX, master, true)
      else (passed_len, master, false)
  end.

(** The record [streamlist_data] builds for a line of the list. *)
Definition master_relay (master : master_conn_details) (buf : string)
  : Relay.relay_server :=
  {| Relay.server := server master;
     Relay.port := port master;
     Relay.mount := buf;
     Relay.localmount := buf;
     Relay.mp3metadata := 1;
     Relay.on_demand := on_demand master;
     Relay.enable := 1;
     Relay.username := if send_auth master =? 0 then None else Some (username master);
     Relay.password := if send_auth master =? 0 then None else Some (password master);
     Relay.source := None;
     Relay.thread := None;
     Relay.running := 0;
     Relay.cleanup := 0 |}.

(** The [while (len)] loop of [streamlist_data] over the bytes from [buf]
    on; every round but the last moves [buf] forward, [fuel] bounds the
    rounds. *)
Fixpoint streamlist_lines (fuel : nat) (buf : string) (master : master_conn_details)
  : master_conn_details :=
  match fuel with
  | O => master
  | S fuel' =>
      match strchr (cstring buf) "010" with
      | Some eol =>
          let line := str_take eol buf in
          let line := match strchr line "013" with
                      | Some cr => str_take cr line
                      | None => line
                      end in
          let master := if strlen line =? 0 then master
                        else push_relay (master_relay master line) master in
          streamlist_lines fuel' (str_drop (S eol) buf) master
      | None =>
          (* incomplete line, the rest may be in the next read *)
          let rest := wrap_int (strlen (cstring buf)) in
          set_buffer (cstring buf) rest master
      end
  end.

(** [streamlist_data (ptr, size, nmemb, stream)]: the return value and the
    details.  [buffer] holds the bytes kept from the reads before. *)
Definition streamlist_data (ptr : string) (master : master_conn_details)
  : Z * master_conn_details :=
  let passed_len := strlen ptr in
  let data := (str_take (Z.to_nat (previous master)) (buffer master) ++ ptr)%string in
  (passed_len, streamlist_lines (S (String.length data)) data master).

(** [update_from_master]: the details handed to the [streamlist] thread,
    when the configuration names a master. *)
Definition update_from_master (cfg : Config.ice_config_t) : option master_conn_details :=
  match Config.master_password cfg, Config.master_server cfg with
  | Some pass, Some srv =>
      if Config.master_server_port cfg =? 0 then None
      else Some {| server := srv;
                   port := Config.master_server_port cfg;
                   ssl_port := Config.master_ssl_port cfg;
                   send_auth := Config.master_relay_auth cfg;
                   on_demand := Config.on_demand cfg;
                   previous := 0;
                   ok := 0;
                   buffer := "";
                   username := Config.master_username cfg;
                   password := pass;
                   new_relays := [] |}
  | _, _ => None
  end.

(** What libcurl receives from the master: the header lines and the body
    blocks it hands to the two callbacks, in order, and the code
    [curl_easy_perform] returns when no callback stops the transfer. *)
Record response : Type := mk_response {
  header_lines : list string;
  body_blocks : list string;
  transfer_code : Z
}.

Definition CURLE_WRITE_ERROR : Z := 23.

(** libcurl calls the header callback for each header line and stops the
    transfer with an error as soon as the callback returns anything but
    the number of bytes it was given. *)
Fixpoint deliver_headers (lines : list string) (master : master_conn_details)
  : bool * master_conn_details * list bool :=
  match lines with
  | [] => (true, master, [])
  | ptr :: rest =>
      let '(ret, master, warned) := streamlist_header ptr master in
      if ret =? strlen ptr then
        let '(go, master, warnings) := deliver_headers rest master in
        (go, master, warned :: warnings)
      else (false, master, [warned])
  end.

Fixpoint deliver_body (blocks : list string) (master : master_conn_details)
  : bool * master_conn_details :=
  match blocks with
  | [] => (true, master)
  | ptr :: rest =>
      let '(ret, master) := streamlist_data ptr master in
      if ret =? strlen ptr then deliver_body rest master else (false, master)
  end.

End Master.

Module Slave.
Import C Relay Trace.

(** The state slave.c works on: the configuration behind
    [config_get_config], the source objects, the file's static flags, the
    two relay lists of [global], and the calls made so far, oldest first. *)
Record world : Type := mk_world {
  config : Config.ice_config_t;
  sources : Source.store;
  update_settings : Z;
  rescan_relays : Z;
  max_interval : Z;
  relays : list relay_server;
  master_relays : list relay_server;
  trace : list event
}.

Definition call (e : event) (w : world) : world :=
  mk_world (config w) (sources w) (update_settings w) (rescan_relays w)
    (max_interval w) (relays w) (master_relays w) (trace w ++ [e]).

Definition with_sources (f : Source.store -> Source.store) (w : world) : world :=
  mk_world (config w) (f (sources w)) (update_settings w) (rescan_relays w)
    (max_interval w) (relays w) (master_relays w) (trace w).

Definition set_update_settings (v : Z) (w : world) : world :=
  mk_world (config w) (sources w) v (rescan_relays w)
    (max_interval w) (relays w) (master_relays w) (trace w).

Definition set_rescan_relays (v : Z) (w : world) : world :=
  mk_world (config w) (sources w) (update_settings w) v
    (max_interval w) (relays w) (master_relays w) (trace w).

Definition set_max_interval (v : Z) (w : world) : world :=
  mk_world (config w) (sources w) (update_settings w) (rescan_relays w)
    v (relays w) (master_relays w) (trace w).

Definition set_relays (v : list relay_server) (w : world) : world :=
  mk_world (config w) (sources w) (update_settings w) (rescan_relays w)
    (max_interval w) v (master_relays w) (trace w).

Definition set_master_relays (v : list relay_server) (w : world) : world :=
  mk_world (config w) (sources w) (update_settings w) (rescan_relays w)
    (max_interval w) (relays w) v (trace w).

Definition slave_recheck_mounts (w : world) : world :=
  set_update_settings 1 (set_max_interval 0 w).

Definition slave_rescan (w : world) : world := set_rescan_relays 1 w.

Definition slave_rebuild_mounts (w : world) : world :=
  set_rescan_relays 1 (set_update_settings 1 w).

Definition CRLF : string := String "013" (String "010" "").

(** What the environment answers to one run of the relay worker. *)
Record upstream : Type := mk_upstream {
  connect_ok : bool;          (* sock_connect_wto != SOCK_ERROR *)
  header_read_ok : bool;      (* util_read_header != 0 *)
  parse_ok : bool;            (* httpp_parse_response != 0 *)
  error_message : option string; (* httpp_getvar (.., HTTPP_VAR_ERROR_MESSAGE) *)
  client_create_ok : bool;    (* client_create >= 0 *)
  complete_source_ok : bool   (* connection_complete_source >= 0 *)
}.

(** [unsigned] arithmetic. *)
Definition wrap_unsigned (z : Z) : Z := z mod 2 ^ 32.

(** A string short enough for the [unsigned] lengths the worker computes. *)
Definition short (s : string) : Prop := strlen s < 2 ^ 31 - 24.

Section Environment.

(** The version string the build defines. *)
Variable ICECAST_VERSION_STRING : string.

(** util.c, cfgfile.c, source.c, connection.c and the thread library are
    not part of the sources at hand: what their functions return, and what
    they do to the source objects, is left to the environment.  The
    functions carry the names of the C functions as far as the [event]
    constructors leave them free:
    - [find_mount] is what [config_find_mount] returns, [mount_proxy]
      being the type of a mount entry;
    - [update_source_settings] is what [source_update_settings] makes of
      the source it is given;
    - [reserve_source] is what [source_reserve] returns, the address of
      the new source and its contents, or NULL;
    - [find_source_mount] is what [source_find_mount] returns;
    - [new_thread] is the handle [thread_create] returns;
    - [complete_source], [run_source_main], [move_clients], [clear_source]
      and [free_source] are what [connection_complete_source],
      [source_main], [source_move_clients], [source_clear_source] and
      [source_free_source] do to the source objects. *)
Variable util_base64_encode : string -> string.
Variable mount_proxy : Type.
Variable find_mount : Config.ice_config_t -> string -> option mount_proxy.
Variable update_source_settings :
  Config.ice_config_t -> Source.source_t -> option mount_proxy -> Source.source_t.
Variable reserve_source : Source.store -> string -> option (nat * Source.source_t).
Variable find_source_mount : Source.store -> string -> option nat.
Variable new_thread : string -> string -> option nat.
Variable complete_source : Source.store -> nat -> Source.store.
Variable run_source_main : Source.store -> nat -> Source.store.
Variable move_clients : Source.store -> nat -> nat -> Source.store.
Variable clear_source : Source.store -> nat -> Source.store.
Variable free_source : Source.store -> nat -> Source.store.

(** *** The relay worker, [start_relay_stream] *)

(** [auth_header] and [redirect_header] as [start_relay_stream] builds them
    before it writes the request. *)
Definition relay_headers (relay : relay_server) (cfg : Config.ice_config_t)
  : string * string :=
  match username relay, password relay with
  | Some user, Some pass =>
      let len := wrap_unsigned (strlen user + strlen pass + 2) in
      let auth_header := snprintf len (user ++ ":" ++ pass)%string in
      let esc_authorisation := util_base64_encode auth_header in
      let len := wrap_unsigned (strlen esc_authorisation + 24) in
      let auth_header :=
        snprintf len ("Authorization: Basic " ++ esc_authorisation ++ CRLF)%string in
      let redirect_header :=
        if negb (Config.master_redirect_port cfg =? 0) then
          let len := wrap_unsigned (strlen "ice-redirect:"
                                    + strlen (Config.hostname cfg) + 10) in
          snprintf len ("ice-redirect: " ++ Config.hostname cfg ++ ":"
                        ++ fmt_d (Config.master_redirect_port cfg) ++ CRLF)%string
        else "" in
      (auth_header, redirect_header)
  | _, _ => ("", "")
  end.

(** The text handed to [sock_write]. *)
Definition relay_request (relay : relay_server) (cfg : Config.ice_config_t) : string :=
  let '(auth_header, redirect_header) := relay_headers relay cfg in
  ("GET " ++ mount relay ++ " HTTP/1.0" ++ CRLF
   ++ "User-Agent: " ++ ICECAST_VERSION_STRING ++ CRLF
   ++ (if negb (mp3metadata relay =? 0)%Z then "Icy-MetaData: 1" ++ CRLF else "")
   ++ redirect_header
   ++ auth_header
   ++ CRLF)%string.

(** The body of the [do { } while (0)] of [start_relay_stream]: [inl] is
    the [return NULL] after [source_main], [inr] a [break], with whether
    [con] and [parser] are non-NULL at that point. *)
Definition relay_attempt (up : upstream) (relay : relay_server) (src : nat) (w : world)
  : (relay_server * world) + (bool * bool * world) :=
  let w := call (sock_connect_wto (server relay) (port relay) 10) w in
  if negb (connect_ok up) then
    inr (false, false,
         call (LOG WARN "Failed to relay stream from master server, couldn't connect to http://%s:%d%s") w)
  else
    let w := call connection_create w in
    let w := match username relay, password relay with
             | Some _, Some _ => call config_release_config (call config_get_config w)
             | _, _ => w
             end in
    let w := call (sock_write (relay_request relay (config w))) w in
    let w := call util_read_header w in
    if negb (header_read_ok up) then
      inr (true, false, call (LOG WARN "Header read failed") w)
    else
      let w := call httpp_create_parser w in
      let w := call httpp_initialize w in
      let w := call (httpp_parse_response (localmount relay)) w in
      if negb (parse_ok up) then
        inr (true, true, call (LOG ERROR "Error parsing relay request") w)
      else
        let w := call (httpp_getvar "HTTPP_VAR_ERROR_MESSAGE") w in
        match error_message up with
        | Some _ =>
            let w := call (httpp_getvar "HTTPP_VAR_ERROR_MESSAGE") w in
            inr (true, true, call (LOG ERROR "Error from relay request: %s") w)
        | None =>
            let w := call global_lock w in
            let w := call client_create w in
            if negb (client_create_ok up) then
              (* make sure only the client_destory frees these *)
              inr (false, false, call global_unlock w)
            else
              let w := call global_unlock w in
              let w := call client_set_queue w in
              let w := with_sources (fun m => complete_source m src)
                         (call (connection_complete_source src) w) in
              if negb (complete_source_ok up) then
                inr (false, false,
                     call (LOG DEBUG "Failed to complete source initialisation") w)
              else
                let w := call (stats_event_inc "source_relay_connections") w in
                let w := call (stats_event (Some (localmount relay))
                                 (Some "source_ip") (Some (server relay))) w in
                let w := with_sources (fun m => run_source_main m src)
                           (call (source_main src) w) in
                let w := if on_demand relay =? 0 then
                           (* only keep refreshing YP entries for inactive on-demand relays *)
                           with_sources (Source.update src (Source.set_yp_public (-1)))
                             (call (yp_remove (localmount relay)) w)
                         else w in
                (* initiate an immediate relay cleanup run *)
                inl (set_cleanup 1 relay, set_rescan_relays 1 w)
        end.

(** The code of [start_relay_stream] after the [do { } while (0)]. *)
Definition relay_failed (relay : relay_server) (src : nat) (con parser : bool)
    (w : world) : relay_server * world :=
  let w :=
    match Source.fallback_mount (sources w src) with
    | Some fallback =>
        let w := call (LOG DEBUG "failed relay, fallback to %s") w in
        let w := call avl_tree_rlock w in
        let w := call (source_find_mount fallback) w in
        let w := match find_source_mount (sources w) fallback with
                 | Some fallback_source =>
                     with_sources (fun m => move_clients m src fallback_source)
                       (call (source_move_clients src fallback_source) w)
                 | None => w
                 end in
        call avl_tree_unlock w
    | None => w
    end in
  let w := if con then call connection_close w else w in
  let w := if parser then call httpp_destroy w else w in
  let w := with_sources (fun m => clear_source m src)
             (call (source_clear_source src) w) in
  (* initiate an immediate relay cleanup run *)
  (set_cleanup 1 relay, set_rescan_relays 1 w).

(** [start_relay_stream relay], run to its end.  [None] stands for the
    dereference of a NULL [relay->source]. *)
Definition start_relay_stream (up : upstream) (relay : relay_server) (w : world)
  : option (relay_server * world) :=
  match source relay with
  | None => None
  | Some src =>
      let relay := set_running 1 relay in
      let w := call (LOG INFO "Starting relayed source at mountpoint %s") w in
      match relay_attempt up relay src w with
      | inl done => Some done
      | inr (con, parser, w) => Some (relay_failed relay src con parser w)
      end
  end.

(** *** The worker as the design describes it *)

(** The header lines of the upstream request after the request line. *)
Definition request_header_lines (relay : relay_server) (cfg : Config.ice_config_t)
  : list string :=
  let credentials :=
    match username relay, password relay with
    | Some user, Some pass => Some (user, pass)
    | _, _ => None
    end in
  [("User-Agent: " ++ ICECAST_VERSION_STRING ++ CRLF)%string]
  ++ (if mp3metadata relay =? 0 then [] else [("Icy-MetaData: 1" ++ CRLF)%string])
  ++ (match credentials with
      | Some _ =>
          if Config.master_redirect_port cfg =? 0 then []
          else [("ice-redirect: " ++ Config.hostname cfg ++ ":"
                 ++ fmt_d (Config.master_redirect_port cfg) ++ CRLF)%string]
      | None => []
      end)
  ++ (match credentials with
      | Some (user, pass) =>
          [("Authorization: Basic "
            ++ util_base64_encode (user ++ ":" ++ pass) ++ CRLF)%string]
      | None => []
      end).

Fixpoint concat_lines (lines : list string) : string :=
  match lines with
  | [] => EmptyString
  | l :: rest => (l ++ concat_lines rest)%string
  end.

Definition has_header (name : string) (lines : list string) : bool :=
  existsb (fun l => match strip_prefix name l with
                    | Some _ => true
                    | None => false
                    end) lines.

Definition has_credentials (relay : relay_server) : bool :=
  match username relay, password relay with
  | Some _, Some _ => true
  | _, _ => false
  end.

(** The step of a worker run that fails, if any. *)
Inductive stage : Type :=
| connecting | reading_header | parsing | parser_error
| creating_client | completing_source.

Definition failed_at (up : upstream) : option stage :=
  if negb (connect_ok up) then Some connecting
  else if negb (header_read_ok up) then Some reading_header
  else if negb (parse_ok up) then Some parsing
  else match error_message up with
       | Some _ => Some parser_error
       | None =>
           if negb (client_create_ok up) then Some creating_client
           else if negb (complete_source_ok up) then Some completing_source
           else None
       end.

(** The hand-over of the listeners to the fallback mount. *)
Definition handoff_events (m : Source.store) (src : nat) : list event :=
  match Source.fallback_mount (m src) with
  | Some fallback =>
      [LOG DEBUG "failed relay, fallback to %s"; avl_tree_rlock;
       source_find_mount fallback]
      ++ (match find_source_mount m fallback with
          | Some dest => [source_move_clients src dest]
          | None => []
          end)
      ++ [avl_tree_unlock]
  | None => []
  end.

(** What the worker still owns, and releases, when it fails at a stage. *)
Definition release_events (st : stage) : list event :=
  match st with
  | reading_header => [connection_close]
  | parsing | parser_error => [connection_close; httpp_destroy]
  | connecting | creating_client | completing_source => []
  end.

Definition releases (e : event) : bool :=
  match e with
  | connection_close | httpp_destroy => true
  | _ => false
  end.

Definition recovers (e : event) : bool :=
  match e with
  | connection_close | httpp_destroy | source_move_clients _ _
  | source_clear_source _ | avl_tree_rlock | avl_tree_unlock
  | source_find_mount _ => true
  | _ => false
  end.

(** The store the fallback is looked up in when the run fails at [st]. *)
Definition store_at_failure (st : stage) (src : nat) (w : world) : Source.store :=
  match st with
  | completing_source => complete_source (sources w) src
  | _ => sources w
  end.

(** Whether [con], and [parser], is non-NULL when the run fails at [st]. *)
Definition owns_con (st : stage) : bool :=
  match st with
  | reading_header | parsing | parser_error => true
  | _ => false
  end.

Definition owns_parser (st : stage) : bool :=
  match st with
  | parsing | parser_error => true
  | _ => false
  end.

(** *** The start policy, [check_relay_stream] *)

Definition starts_with_slash (s : string) : bool :=
  match s with
  | String c _ => Ascii.eqb c "/"
  | EmptyString => false
  end.

(** The [if (relay->on_demand)] block inside the [do { } while (0)] of
    [check_relay_stream], for a relay whose source is at [source]: the
    world it leaves and whether it ends in [break]. *)
Definition check_on_demand (relay : relay_server) (source : nat) (w : world)
  : world * bool :=
  let w := call config_get_config w in
  let w := call (config_find_mount (localmount relay)) w in
  let mountinfo := find_mount (config w) (localmount relay) in
  let w := match mountinfo with
           | None =>
               with_sources
                 (Source.update source
                    (fun s => update_source_settings (config w) s mountinfo))
                 (call (source_update_settings (Some source) false) w)
           | Some _ => w
           end in
  let w := call config_release_config w in
  let w := slave_rebuild_mounts w in
  let w := call (stats_event (Some (localmount relay))
                   (Some "listeners") (Some "0")) w in
  let w := with_sources
             (Source.update source (Source.set_on_demand (on_demand relay))) w in
  let w :=
    match Source.fallback_mount (sources w source) with
    | Some fallback_mount =>
        if negb (Source.fallback_override (sources w source) =? 0) then
          let w := call (LOG DEBUG "checking %s for fallback override") w in
          let w := call avl_tree_rlock w in
          let w := call (source_find_mount fallback_mount) w in
          let w :=
            match find_source_mount (sources w) fallback_mount with
            | Some fallback =>
                if negb (Source.running (sources w fallback) =? 0)
                   && negb (Source.listeners (sources w fallback) =? 0)
                then
                  let w := call (LOG DEBUG "fallback running %d with %lu listeners") w in
                  with_sources
                    (Source.update source (Source.set_on_demand_req 1)) w
                else w
            | None => w
            end in
          call avl_tree_unlock w
        else w
    | None => w
    end in
  (w, Source.on_demand_req (sources w source) =? 0).

(** The [do { } while (0)] of [check_relay_stream]: [inl] is the [return]
    after [thread_create], [inr] a [break]. *)
Definition check_relay_start (relay : relay_server) (w : world)
  : (relay_server * world) + (relay_server * world) :=
  match source relay with
  | None => inr (relay, w)
  | Some source =>
      if negb (running relay =? 0) then inr (relay, w)
      else if enable relay =? 0 then
        inr (relay, call (stats_event (Some (localmount relay)) None None) w)
      else
        let '(w, stop) :=
          if negb (on_demand relay =? 0) then check_on_demand relay source w
          else (w, false) in
        if stop then inr (relay, w)
        else
          let w := call (thread_create "Relay Thread" (localmount relay)) w in
          inl (set_thread (new_thread "Relay Thread" (localmount relay)) relay, w)
  end.

(** The code of [check_relay_stream] after the [do { } while (0)]: the
    relay thread may have shut down itself. *)
Definition check_relay_joined (relay : relay_server) (w : world)
  : relay_server * world :=
  if negb (cleanup relay =? 0)
     && match thread relay with Some _ => true | None => false end
  then
    let w := call (LOG DEBUG "waiting for relay thread for %s") w in
    let w := call (thread_join (thread relay)) w in
    let relay := set_running 0 (set_cleanup 0 (set_thread None relay)) in
    if enable relay =? 0 then
      let w := call (stats_event (Some (localmount relay)) None None) w in
      (relay, slave_rebuild_mounts w)
    else if negb (on_demand relay =? 0) then
      let w := call config_get_config w in
      let w := call (config_find_mount (localmount relay)) w in
      let mountinfo := find_mount (config w) (localmount relay) in
      let w := call (source_update_settings (source relay)
                       (match mountinfo with Some _ => true | None => false end)) w in
      let w := match source relay with
               | Some source =>
                   with_sources
                     (Source.update source
                        (fun s => update_source_settings (config w) s mountinfo)) w
               | None => w
               end in
      let w := call config_release_config w in
      (relay, call (stats_event (Some (localmount relay))
                      (Some "listeners") (Some "0")) w)
    else (relay, w)
  else (relay, w).

(** [check_relay_stream relay]. *)
Definition check_relay_stream (relay : relay_server) (w : world)
  : relay_server * world :=
  let reserved :=
    match source relay with
    | None =>
        if negb (starts_with_slash (localmount relay)) then
          inl (relay,
               call (LOG WARN "relay mountpoint %s does not start with /, skipping") w)
        else
          (* new relay, reserve the name *)
          let w := call (source_reserve (localmount relay)) w in
          match reserve_source (sources w) (localmount relay) with
          | Some (p, s) =>
              inr (set_source (Some p) relay,
                   call (LOG DEBUG "Adding relay source at mountpoint %s")
                     (with_sources (Source.update p (fun _ => s)) w))
          | None =>
              inr (set_source None relay,
                   call (LOG WARN "new relay but source %s already exists") w)
          end
    | Some _ => inr (relay, w)
    end in
  match reserved with
  | inl skipped => skipped
  | inr (relay, w) =>
      match check_relay_start relay w with
      | inl started => started
      | inr (relay, w) => check_relay_joined relay w
      end
  end.

(** *** The start policy as the design describes it *)

(** The source objects once the on-demand check has looked at the
    configuration and copied the relay's [on_demand]. *)
Definition refreshed (relay : relay_server) (source : nat) (w : world) : Source.store :=
  let m :=
    match find_mount (config w) (localmount relay) with
    | None =>
        Source.update source
          (fun s => update_source_settings (config w) s None) (sources w)
    | Some _ => sources w
    end in
  Source.update source (Source.set_on_demand (on_demand relay)) m.

(** Demand exists via override: the source has a fallback mount and
    fallback_override, and the fallback found is running with listeners. *)
Definition fallback_demand (m : Source.store) (source : nat) : bool :=
  match Source.fallback_mount (m source) with
  | Some fallback =>
      negb (Source.fallback_override (m source) =? 0)
      && match find_source_mount m fallback with
         | Some f => negb (Source.running (m f) =? 0)
                     && negb (Source.listeners (m f) =? 0)
         | None => false
         end
  | None => false
  end.

Definition override_lookup (m : Source.store) (source : nat) : list event :=
  match Source.fallback_mount (m source) with
  | Some fallback =>
      if Source.fallback_override (m source) =? 0 then []
      else [LOG DEBUG "checking %s for fallback override"; avl_tree_rlock;
            source_find_mount fallback]
           ++ (if fallback_demand m source
               then [LOG DEBUG "fallback running %d with %lu listeners"]
               else [])
           ++ [avl_tree_unlock]
  | None => []
  end.

Definition demanded (m : Source.store) (source : nat) : Source.store :=
  if fallback_demand m source
  then Source.update source (Source.set_on_demand_req 1) m
  else m.

Definition is_thread_create (e : event) : bool :=
  match e with
  | thread_create _ _ => true
  | _ => false
  end.

Definition is_settings_refresh (e : event) : bool :=
  match e with
  | source_update_settings _ _ => true
  | _ => false
  end.

Definition is_commit (e : event) : bool :=
  match e with
  | thread_mutex_lock | thread_mutex_unlock | thread_create _ _
  | thread_join _ | source_reserve _ | source_free_source _
  | xmlFree_relay _ => true
  | _ => false
  end.

(** *** Cleanup and start of whole lists *)

(** [relay_free relay]: the source is released, the record is gone. *)
Definition relay_free (relay : relay_server) (w : world) : world :=
  let w := call (LOG DEBUG "freeing relay %s") w in
  let w := match source relay with
           | Some p => with_sources (fun m => free_source m p)
                         (call (source_free_source p) w)
           | None => w
           end in
  call (xmlFree_relay (localmount relay)) w.

(** The [while (to_free)] loop of [relay_check_streams]. *)
Fixpoint free_relays (to_free : list relay_server) (w : world) : world :=
  match to_free with
  | [] => w
  | r :: next =>
      let w :=
        match source r with
        | Some p =>
            if negb (running r =? 0) then
              (* relay has been removed from xml, shut down active relay *)
              let w := call (LOG DEBUG "source shutdown request on %s") w in
              let w := with_sources (Source.update p (Source.set_running 0)) w in
              let w := call (thread_join (thread r)) w in
              slave_rebuild_mounts w
            else call (stats_event (Some (localmount r)) None None) w
        | None => w
        end in
      free_relays next (relay_free r w)
  end.

(** The [while (relay)] loop of [relay_check_streams]: the records as the
    calls leave them. *)
Fixpoint start_relays (relay : list relay_server) (w : world)
  : list relay_server * world :=
  match relay with
  | [] => ([], w)
  | r :: next =>
      let '(r', w) := check_relay_stream r w in
      let '(next', w) := start_relays next w in
      (r' :: next', w)
  end.

(** [relay_check_streams to_start to_free]: [to_start] as it is left, and
    the world. *)
Definition relay_check_streams (to_start to_free : list relay_server) (w : world)
  : list relay_server * world :=
  start_relays to_start (free_relays to_free w).

(** *** The master stream list, [streamlist_thread] *)

(** Outcome of the [n]-th [calloc] of [relay_copy]. *)
Variable calloc_ok : nat -> bool.

Fixpoint log_warnings (format : string) (warned : list bool) (w : world) : world :=
  match warned with
  | [] => w
  | b :: rest =>
      log_warnings format rest (if b then call (LOG WARN format) w else w)
  end.

(** [curl_easy_perform (handle)] with the two callbacks installed: the
    code it returns, the details and the world. *)
Definition perform (resp : Master.response) (url auth : string)
    (master : Master.master_conn_details) (w : world)
  : Z * Master.master_conn_details * world :=
  let w := call (curl_easy_perform url auth) w in
  let '(go, master, warned) := Master.deliver_headers (Master.header_lines resp) master in
  let w := log_warnings "Failed response from master %s" warned w in
  if go then
    let '(go, master) := Master.deliver_body (Master.body_blocks resp) master in
    (if go then Master.transfer_code resp else Master.CURLE_WRITE_ERROR, master, w)
  else (Master.CURLE_WRITE_ERROR, master, w).

(** [streamlist_thread (master)], [resp] being what the master sends and
    [n] the number of allocations made before.  [None] stands for the
    dereference of the NULL a failed [relay_copy] returns. *)
Definition streamlist_thread (resp : Master.response) (n : nat)
    (master : Master.master_conn_details) (w : world) : option world :=
  let '(protocol, port) :=
    if negb (Master.ssl_port master =? 0) then ("https", Master.ssl_port master)
    else ("http", Master.port master) in
  let auth := snprintf 100 (Master.username master ++ ":" ++ Master.password master)%string in
  let url := snprintf 300 (protocol ++ "://" ++ Master.server master ++ ":"
                           ++ fmt_d port ++ "/admin/streamlist.txt")%string in
  let '(code, master, w) := perform resp url auth master w in
  let w := if negb (code =? 0) then call (LOG WARN "Failed URL access %s (%s)") w else w in
  let committed :=
    if negb (Master.ok master =? 0) then
      (* process retrieved relays *)
      let w := call thread_mutex_lock w in
      match update_relays calloc_ok (master_relays w) (Master.new_relays master) n with
      | Some (cleanup_relays, active, new_relays, _) =>
          let w := set_master_relays active w in
          let '(started, w) := relay_check_streams (master_relays w) cleanup_relays w in
          let w := set_master_relays started w in
          let '(_, w) := relay_check_streams [] new_relays w in
          Some (call thread_mutex_unlock w)
      | None => None
      end
    else Some w in
  match committed with
  | Some w => Some (call curl_easy_cleanup w)
  | None => None
  end.

End Environment.

End Slave.

(** ** The slave host table *)

Module SlaveHost.
Import C.

(** Modelled from the spec: [slave_host] is declared in global.h, which is
    not part of the sources at hand; the fields are the ones slave.c uses
    ([next] is the tail of the list). *)
Record slave_host : Type := mk_slave {
  server : string;
  port : Z;
  count : Z
}.

(** The part of [global] the table lives in. *)
Record slave_table : Type := mk_table {
  slaves : list slave_host;
  slave_count : Z
}.

(** Modelled from the spec: of [client_t] (client.h) only the value the
    parser holds for the [ice-redirect] header is read here. *)
Record client_t : Type := mk_client {
  ice_redirect : option string
}.

Definition is_host (server0 : string) (port0 : Z) (slave : slave_host) : bool :=
  (strcmp (server slave) server0 =? 0) && (port slave =? port0).

(** [find_slave_host]: the entry is returned as its position in the list. *)
Fixpoint find_slave_host (slave : list slave_host) (server0 : string) (port0 : Z)
  : option nat :=
  match slave with
  | [] => None
  | s :: next =>
      if is_host server0 port0 s then Some O
      else match find_slave_host next server0 port0 with
           | Some i => Some (S i)
           | None => None
           end
  end.

Definition _add_slave_host (calloc_ok : bool) (server0 : string) (port0 : Z)
    (g : slave_table) : slave_table :=
  if calloc_ok then
    {| slaves := {| server := server0; port := port0; count := 1 |} :: slaves g;
       slave_count := wrap_int (slave_count g + 1) |}
  else g.

(** [slave->count++] on the entry at position [i]. *)
Fixpoint count_incr (i : nat) (slave : list slave_host) : list slave_host :=
  match slave, i with
  | [], _ => []
  | s :: next, O =>
      {| server := server s; port := port s; count := wrap_int (count s + 1) |} :: next
  | s :: next, S k => s :: count_incr k next
  end.

Definition slave_host_add (client : option client_t) (header : option string)
    (calloc_ok : bool) (g : slave_table) : slave_table :=
  match client, header with
  | None, _ => g
  | _, None => g
  | Some _, Some header =>
      match strchr header ":" with
      | None => g
      | Some separator =>
          let server0 := str_take separator header in
          let port0 := atoi (str_drop (S separator) header) in
          match find_slave_host (slaves g) server0 port0 with
          | Some i => {| slaves := count_incr i (slaves g);
                         slave_count := slave_count g |}
          | None => _add_slave_host calloc_ok server0 port0 g
          end
      end
  end.

(** The [while (slave)] loop of [slave_host_remove]: the list it leaves and
    whether an entry was unlinked. *)
Fixpoint remove_walk (server0 : string) (port0 : Z) (slave : list slave_host)
  : list slave_host * bool :=
  match slave with
  | [] => ([], false)
  | s :: next =>
      if is_host server0 port0 s then
        let s' := {| server := server s; port := port s;
                     count := wrap_int (count s - 1) |} in
        if count s' =? 0 then (next, true) else (s' :: next, false)
      else
        let '(next', unlinked) := remove_walk server0 port0 next in
        (s :: next', unlinked)
  end.

Definition slave_host_remove (client : client_t) (g : slave_table) : slave_table :=
  match ice_redirect client with
  | None => g
  | Some var =>
      match strchr var ":" with
      | None => g
      | Some separator =>
          let server0 := str_take separator var in
          let port0 := atoi (str_drop (S separator) var) in
          let '(slaves', unlinked) := remove_walk server0 port0 (slaves g) in
          {| slaves := slaves';
             slave_count := if unlinked then wrap_int (slave_count g - 1)
                            else slave_count g |}
      end
  end.

(** [update_master_as_slave], given [config->master_server] (NULL being
    [None]), [config->master_server_port] and [config->master_redirect_port]. *)
Definition update_master_as_slave (master_server : option string)
    (master_server_port master_redirect_port : Z) (calloc_ok : bool)
    (g : slave_table) : slave_table :=
  match master_server with
  | None => g
  | Some ms =>
      if master_redirect_port =? 0 then g
      else match find_slave_host (slaves g) ms master_server_port with
           | None => _add_slave_host calloc_ok ms master_server_port g
           | Some _ => g
           end
  end.

(** The [while (slave && which)] walk of [slave_redirect]: the list from
    the entry it stops at. *)
Fixpoint walk (slave : list slave_host) (which : Z) : list slave_host :=
  match slave with
  | [] => []
  | _ :: next => if which =? 0 then slave else walk next (wrap_int (which - 1))
  end.

(** [slave_redirect mountpoint client].  [which] is the index the
    expression [(int)(((float)global.slave_count)*rand()/(RAND_MAX+1.0))]
    evaluates to: floating point is not modelled, the draw is an input.
    [malloc_ok] tells whether [malloc] returned a block.  The result is the
    return value and the location handed to [client_send_302], if that is
    called; [None] stands for the dereference of a NULL [slave] in the
    arguments of [DEBUG2] (a walk that ran off the list). *)
Definition slave_redirect (mountpoint : string) (which : Z) (malloc_ok : bool)
    (g : slave_table) : option (Z * option string) :=
  let selected :=
    if slave_count g =? 0 then Some None
    else match walk (slaves g) which with
         | slave :: _ => Some (Some slave)
         | [] => None
         end in
  match selected with
  | None => None
  | Some None => Some (0, None)
  | Some (Some slave) =>
      let len := wrap_int (strlen mountpoint + strlen (server slave) + 13) in
      if malloc_ok then
        let location :=
          snprintf len ("http://" ++ server slave ++ ":" ++ fmt_d (port slave)
                        ++ mountpoint)%string in
        Some (1, Some location)
      else Some (0, None)
  end.

(** The table invariant of the design. *)
Definition table_ok (g : slave_table) : Prop :=
  slave_count g = Z.of_nat (List.length (slaves g))
  /\ Forall (fun s => 1 <= count s) (slaves g).

(** The counters of the table are values of type [int]. *)
Definition table_typed (g : slave_table) : Prop :=
  INT_MIN <= slave_count g <= INT_MAX
  /\ Forall (fun s => INT_MIN <= count s <= INT_MAX) (slaves g).

(** No counter of the table is at the top of the [int] range, where [++]
    overflows. *)
Definition table_room (g : slave_table) : Prop :=
  slave_count g < INT_MAX
  /\ Forall (fun s => count s < INT_MAX) (slaves g).

Definition set_count (v : Z) (s : slave_host) : slave_host :=
  {| server := server s; port := port s; count := v |}.

Definition empty_table : slave_table := {| slaves := []; slave_count := 0 |}.

End SlaveHost.

(** ** Relay lookup and ownership of source handles *)

Module Lookup.
Import C Relay.

(** [slave_find_relay relays mount]: the record found, or NULL. *)
Fixpoint slave_find_relay (relays : list relay_server) (mount : string)
  : option relay_server :=
  match relays with
  | [] => None
  | r :: next =>
      if strcmp (localmount r) mount =? 0 then Some r
      else slave_find_relay next mount
  end.

(** The number of records of a list that hold the source at address [p]. *)
Definition owners (p : nat) (l : list relay_server) : nat :=
  List.length (filter (fun r => match source r with
                                | Some q => Nat.eqb q p
                                | None => false
                                end) l).

End Lookup.

(** ** Keys of the slave host table *)

Module HostKeys.
Import SlaveHost.

(** What [find_slave_host] compares. *)
Definition host_key (s : slave_host) : string * Z := (server s, port s).

(** No two linked entries stand for the same server and port. *)
Definition distinct_hosts (g : slave_table) : Prop :=
  NoDup (map host_key (slaves g)).

End HostKeys.

(** ** Lines of the master stream list *)

Module Lines.
Import C.

(** A block of text: no NUL byte in it. *)
Definition nul_free (s : string) : Prop := strchr s "000" = None.

(** A mount point as a line of the list gives it: not empty, and free of
    line feed and carriage return. *)
Definition mount_line (s : string) : Prop :=
  s <> EmptyString /\ strchr s "010" = None /\ strchr s "013" = None.

(** [r] is the record [streamlist_data] makes of a line for [master]. *)
Definition from_master (master : Master.master_conn_details)
    (r : Relay.relay_server) : Prop :=
  r = Master.master_relay master (Relay.localmount r)
  /\ mount_line (Relay.localmount r).

(** The kept bytes are what [previous] says, and they are text. *)
Definition buffer_ok (master : Master.master_conn_details) : Prop :=
  Master.previous master = strlen (Master.buffer master)
  /\ nul_free (Master.buffer master).

Fixpoint all_nonspace (s : string) : bool :=
  match s with
  | String c s' => negb (isspace c) && all_nonspace s'
  | EmptyString => true
  end.

(** A reason phrase, as far as [%d] sees it: it does not go on with a
    digit. *)
Definition no_digit_ahead (s : string) : bool :=
  match s with
  | String c _ => negb (isdigit c)
  | EmptyString => true
  end.

End Lines.

(** ** What the start policy may not change *)

Module Settings.
Import Relay.

(** The configured part of a relay record. *)
Definition settings (r : relay_server)
  : string * Z * string * string * option string * option string * Z * Z * Z :=
  (server r, port r, mount r, localmount r, username r, password r,
   mp3metadata r, on_demand r, enable r).

(** Events among which no thread is created. *)
Definition quiet (evs : list Trace.event) : Prop :=
  forallb (fun e => negb (Slave.is_thread_create e)) evs = true.

(** What no check of a relay touches: the configuration, the refresh
    interval and the two lists of [global]. *)
Definition same_lists (w w' : Slave.world) : Prop :=
  Slave.config w' = Slave.config w
  /\ Slave.max_interval w' = Slave.max_interval w
  /\ Slave.relays w' = Slave.relays w
  /\ Slave.master_relays w' = Slave.master_relays w.

(** The calls that free a source or a relay record. *)
Definition frees (e : Trace.event) : bool :=
  match e with
  | Trace.source_free_source _ | Trace.xmlFree_relay _ => true
  | _ => false
  end.

(** The calls of the cleanup loop that give something up. *)
Definition gives_up (e : Trace.event) : bool :=
  match e with
  | Trace.thread_join _ | Trace.source_free_source _ | Trace.xmlFree_relay _ => true
  | _ => false
  end.

(** What the cleanup loop has to give up for one record: the worker of a
    running relay, the source, the record. *)
Definition given_up (r : relay_server) : list Trace.event :=
  match source r with
  | Some p =>
      (if running r =? 0 then [] else [Trace.thread_join (thread r)])
      ++ [Trace.source_free_source p]
  | None => []
  end ++ [Trace.xmlFree_relay (localmount r)].

End Settings.

(** ** The supervisor, [_slave_thread] *)

Module Supervisor.
Import C Relay Trace Slave.

(** What the supervisor works on besides the world: the slave host table,
    the file's [slave_running], [global.schedule_config_reread] and its own
    local [interval]. *)
Record state : Type := mk_state {
  world_of : world;
  hosts : SlaveHost.slave_table;
  slave_running : Z;
  schedule_config_reread : Z;
  interval : Z
}.

Definition set_world (w : world) (s : state) : state :=
  mk_state w (hosts s) (slave_running s) (schedule_config_reread s) (interval s).

Definition set_hosts (g : SlaveHost.slave_table) (s : state) : state :=
  mk_state (world_of s) g (slave_running s) (schedule_config_reread s) (interval s).

Definition set_schedule_config_reread (v : Z) (s : state) : state :=
  mk_state (world_of s) (hosts s) (slave_running s) v (interval s).

Definition set_interval (v : Z) (s : state) : state :=
  mk_state (world_of s) (hosts s) (slave_running s) (schedule_config_reread s) v.

Definition set_config (c : Config.ice_config_t) (w : world) : world :=
  mk_world c (sources w) (update_settings w) (rescan_relays w)
    (max_interval w) (relays w) (master_relays w) (trace w).

Definition set_relay (v : list relay_server) (c : Config.ice_config_t)
  : Config.ice_config_t :=
  Config.mk_config (Config.hostname c) (Config.master_server c)
    (Config.master_server_port c) (Config.master_ssl_port c)
    (Config.master_username c) (Config.master_password c)
    (Config.master_relay_auth c) (Config.master_update_interval c)
    (Config.master_redirect_port c) (Config.on_demand c) v.

Section Environment.

Variable mount_proxy : Type.
Variable find_mount : Config.ice_config_t -> string -> option mount_proxy.
Variable update_source_settings :
  Config.ice_config_t -> Source.source_t -> option mount_proxy -> Source.source_t.
Variable reserve_source : Source.store -> string -> option (nat * Source.source_t).
Variable find_source_mount : Source.store -> string -> option nat.
Variable new_thread : string -> string -> option nat.
Variable free_source : Source.store -> nat -> Source.store.

(** Outcome of the [n]-th [calloc] of [relay_copy]. *)
Variable calloc_ok : nat -> bool.

(** [event_config_read]: the configuration after the file has been read
    again.  The call is not in the trace, and neither are [thread_sleep],
    [time] and [source_recheck_mounts]. *)
Variable event_config_read : Config.ice_config_t -> Config.ice_config_t.

(** [source_recheck_mounts]: the source objects brought in line with the
    mounts of the configuration. *)
Variable source_recheck_mounts : Config.ice_config_t -> Source.store -> Source.store.

Abbreviation relay_check_streams :=
  (Slave.relay_check_streams mount_proxy find_mount update_source_settings
     reserve_source find_source_mount new_thread free_source).

(** [update_master_as_slave (config)] on the host table, with the line it
    logs once past its guard. *)
Definition master_as_slave (slave_calloc_ok : bool) (s : state) : state :=
  let cfg := config (world_of s) in
  let w :=
    match Config.master_server cfg with
    | Some _ =>
        if Config.master_redirect_port cfg =? 0 then world_of s
        else call (LOG DEBUG "redirect port is %d") (world_of s)
    | None => world_of s
    end in
  set_hosts
    (SlaveHost.update_master_as_slave (Config.master_server cfg)
       (Config.master_server_port cfg) (Config.master_redirect_port cfg)
       slave_calloc_ok (hosts s))
    (set_world w s).

(** [update_from_master (config)]: the detached thread it creates when the
    configuration names a master. *)
Definition from_master (w : world) : world :=
  match Master.update_from_master (config w) with
  | Some details => call (thread_create "streamlist" (Master.server details)) w
  | None => w
  end.

(** The code of [_slave_thread] before its loop. *)
Definition slave_thread_start (slave_calloc_ok : bool) (s : state) : state :=
  let s := set_interval 0 s in
  let s := set_world (call config_get_config (world_of s)) s in
  let s := master_as_slave slave_calloc_ok s in
  let w := call config_release_config (world_of s) in
  set_world (with_sources (source_recheck_mounts (config w)) w) s.

(** The branch of the loop that updates the relay lists. *)
Definition refresh (slave_calloc_ok : bool) (s : state) (n : nat)
  : option (state * nat) :=
  let w := call (LOG DEBUG "checking master stream list") (world_of s) in
  let w := call config_get_config w in
  let s := set_interval 0 s in
  let w := set_max_interval
             (wrap_unsigned (Config.master_update_interval (config w))) w in
  let s := master_as_slave slave_calloc_ok (set_world w s) in
  let w := from_master (world_of s) in
  let w := call thread_mutex_lock w in
  match update_relays calloc_ok (relays w) (Config.relay (config w)) n with
  | Some (cleanup_relays, active, new_relay_list, n') =>
      let w := set_relays active (set_config (set_relay new_relay_list (config w)) w) in
      let w := call config_release_config w in
      let '(started, w) := relay_check_streams (relays w) cleanup_relays w in
      let w := set_relays started w in
      Some (set_world (call thread_mutex_unlock w) s, n')
  | None => None
  end.

(** The branch that only looks at the relays there are. *)
Definition rescan (s : state) : state :=
  let w := call (LOG DEBUG "rescanning relay lists") (world_of s) in
  let w := call thread_mutex_lock w in
  let '(started, w) := relay_check_streams (master_relays w) [] w in
  let w := set_master_relays started w in
  let '(started, w) := relay_check_streams (relays w) [] w in
  let w := set_relays started w in
  set_world (call thread_mutex_unlock w) s.

(** The end of a pass of the loop. *)
Definition settle (s : state) : state :=
  let w := set_rescan_relays 0 (world_of s) in
  let w := if negb (update_settings w =? 0) then
             with_sources (source_recheck_mounts (config w))
               (set_update_settings 0 w)
           else w in
  set_world w s.

(** One pass of the [while (1)] of [_slave_thread]: the state, the
    allocation count, and whether the loop goes on ([false] is the
    [break]).  [None] stands for the dereference of the NULL a failed
    [relay_copy] returns. *)
Definition slave_thread_pass (slave_calloc_ok : bool) (s : state) (n : nat)
  : option (state * nat * bool) :=
  (* re-read xml file if requested *)
  let s := if negb (schedule_config_reread s =? 0) then
             set_schedule_config_reread 0
               (set_world (set_config (event_config_read (config (world_of s)))
                             (world_of s)) s)
           else s in
  if slave_running s =? 0 then Some (s, n, false)
  else
    let '(skip, s) :=
      if rescan_relays (world_of s) =? 0 then
        let s := set_interval (wrap_unsigned (interval s + 1)) s in
        (max_interval (world_of s) >? interval s, s)
      else (false, s) in
    if skip then Some (s, n, true)
    else
      (* only update relays lists when required *)
      if max_interval (world_of s) <=? interval s then
        match refresh slave_calloc_ok s n with
        | Some (s, n') => Some (settle s, n', true)
        | None => None
        end
      else Some (settle (rescan s), n, true).

(** Up to [fuel] passes of the loop, no other thread writing to the state
    in between. *)
Fixpoint slave_thread_loop (fuel : nat) (slave_calloc_ok : bool) (s : state) (n : nat)
  : option (state * nat * bool) :=
  match fuel with
  | O => Some (s, n, true)
  | S fuel =>
      match slave_thread_pass slave_calloc_ok s n with
      | Some (s, n, true) => slave_thread_loop fuel slave_calloc_ok s n
      | stopped => stopped
      end
  end.

(** The code of [_slave_thread] after its loop.  The two lists of [global]
    are freed and left as they are. *)
Definition slave_thread_exit (s : state) : state :=
  let w := call (LOG DEBUG "shutting down current relays") (world_of s) in
  let '(_, w) := relay_check_streams [] (relays w) w in
  let '(_, w) := relay_check_streams [] (master_relays w) w in
  set_world (call (LOG INFO "Slave thread shutdown complete") w) s.

End Environment.

End Supervisor.

(** ** Concrete records and environments *)

Module Examples.
Import C Relay.

(** A relay that runs, one that is configured but idle, and the records a
    reloaded configuration asks for: the first with [on_demand] switched
    on, and a new one. *)
Definition relay_running : relay_server :=
  mk_relay "a" 8000 "/m" "/m" None None 1 0 1 (Some 3%nat) (Some 7%nat) 1 0.

Definition relay_other : relay_server :=
  mk_relay "b" 8000 "/x" "/x" None None 0 0 1 None None 0 0.

Definition wanted_m : relay_server :=
  mk_relay "a" 8000 "/m" "/m" None None 1 1 1 None None 0 0.

Definition wanted_c : relay_server :=
  mk_relay "c" 8001 "/c" "/c" None None 1 0 1 (Some 9%nat) None 0 0.

(** A relay without credentials and one with, both with a reserved source. *)
Definition relay_plain : relay_server :=
  mk_relay "up.example.org" 8000 "/live" "/live" None None 1 1 1
    (Some 0%nat) None 0 0.

Definition relay_auth : relay_server :=
  mk_relay "up.example.org" 8000 "/live" "/live" (Some "relay") (Some "hackme")
    1 1 1 (Some 0%nat) None 0 0.

(** A configuration that advertises the redirect port 8001 and names a
    master. *)
Definition cfg_redirect : Config.ice_config_t :=
  Config.mk_config "edge.example.org" (Some "master.example.org") 8000 0
    "relay" (Some "hackme") 0 120 8001 0 [].

(** Sources: every address holds an idle source that falls back to
    [/backup] with fallback_override; address 1 holds [/backup], running
    with three listeners. *)
Definition idle_source : Source.source_t :=
  Source.mk_source (Some "/backup") 1 0 0 0 0 0.

Definition backup_source : Source.source_t :=
  Source.mk_source None 0 0 0 1 3 0.

Definition store0 : Source.store :=
  fun p => if Nat.eqb p 1 then backup_source else idle_source.

Definition world0 : Slave.world :=
  Slave.mk_world cfg_redirect store0 0 0 0 [] [] [].

(** An environment: the configuration knows every mount, a settings
    refresh would clear the fallback, [/backup] is at address 1, threads
    get the handle 5, the external source functions leave the fields
    modelled here alone, and base64 is left as the identity. *)
Definition find_mount (cfg : Config.ice_config_t) (m : string) : option unit := Some tt.

Definition find_no_mount (cfg : Config.ice_config_t) (m : string) : option unit := None.

Definition update_source_settings (cfg : Config.ice_config_t) (s : Source.source_t)
    (mountinfo : option unit) : Source.source_t :=
  Source.mk_source None 0 (Source.on_demand s) (Source.on_demand_req s)
    (Source.running s) (Source.listeners s) (Source.yp_public s).

Definition reserve_source (m : Source.store) (mount : string)
  : option (nat * Source.source_t) := None.

Definition find_source_mount (m : Source.store) (mount : string) : option nat :=
  if String.eqb mount "/backup" then Some 1%nat else None.

Definition new_thread (name arg : string) : option nat := Some 5%nat.

Definition keep_store (m : Source.store) (p : nat) : Source.store := m.

Definition keep_store2 (m : Source.store) (p q : nat) : Source.store := m.

Definition base64_id (s : string) : string := s.

(** The worker's upstream fails while the response header is read. *)
Definition header_read_fails : Slave.upstream :=
  Slave.mk_upstream true false true None true true.

(** The master answers 404. *)
Definition not_found : Master.response :=
  Master.mk_response [("HTTP/1.0 404 Not Found" ++ Slave.CRLF)%string] [] 0.

Definition master0 : Master.master_conn_details :=
  Master.mk_master "master.example.org" 8000 0 0 0 0 0 "" "relay" "hackme" [].

(** A table with the hosts of the design's redirect scenario. *)
Definition two_hosts : SlaveHost.slave_table :=
  SlaveHost.mk_table
    [SlaveHost.mk_slave "y" 2 1; SlaveHost.mk_slave "x" 1 2] 2.

End Examples.

(** ** Concrete states of the supervisor and of the master list *)

Module Scenarios.
Import C Relay Examples.

(** The configuration of [Examples], now asking for the relays [/m] and
    [/c]. *)
Definition cfg_relays : Config.ice_config_t :=
  Config.mk_config "edge.example.org" (Some "master.example.org") 8000 0
    "relay" (Some "hackme") 0 120 8001 0 [wanted_m; wanted_c].

(** The static list holds [/m] and [/x]; the list is refreshed every three
    passes. *)
Definition supervised : Slave.world :=
  Slave.mk_world cfg_relays store0 0 0 3 [relay_running; relay_other] [] [].

Definition supervisor_on : Supervisor.state :=
  Supervisor.mk_state supervised two_hosts 1 0 0.

Definition supervisor_off : Supervisor.state :=
  Supervisor.mk_state supervised two_hosts 0 0 0.

Definition same_config (c : Config.ice_config_t) : Config.ice_config_t := c.

Definition same_sources (c : Config.ice_config_t) (m : Source.store) : Source.store := m.

(** A world whose master list holds the relay [/m]. *)
Definition with_master_relay : Slave.world :=
  Slave.mk_world cfg_redirect store0 0 0 0 [] [relay_running] [].

(** The master answers 200 and sends no list. *)
Definition ok_status : string := ("HTTP/1.0 200 OK" ++ Slave.CRLF)%string.

Definition ok_empty : Master.response := Master.mk_response [ok_status] [] 0.

(** Two blocks of a list, the second line cut in two. *)
Definition block_a : string := ("/a" ++ String "010" "/b")%string.

Definition block_b : string := ("c" ++ String "010" "")%string.

End Scenarios.

(** * Properties *)

(** ** C library primitives *)

Section CFacts.
Import C.

Lemma compare_refl (a : string) : String.compare a a = Eq.
Proof.
  pose proof (String.compare_antisym a a) as H.
  destruct (String.compare a a); simpl in H; congruence.
Qed.

Lemma strcmp_eq (a b : string) : strcmp a b = 0 <-> a = b.
Proof.
  unfold strcmp. split.
  - destruct (String.compare a b) eqn:E; try discriminate.
    intros _. apply String.compare_eq_iff. exact E.
  - intros ->. rewrite compare_refl. reflexivity.
Qed.

Lemma strcmp_refl (a : string) : strcmp a a = 0.
Proof. apply strcmp_eq. reflexivity. Qed.

Lemma strcmp_eqb (a b : string) : (strcmp a b =? 0) = String.eqb a b.
Proof.
  destruct (String.eqb_spec a b) as [->|N].
  - rewrite strcmp_refl. reflexivity.
  - apply Z.eqb_neq. intro H. apply strcmp_eq in H. contradiction.
Qed.

Example sscanf_status_samples :
  sscanf_status "HTTP/1.0 200 OK" = (1, Some 200)
  /\ sscanf_status "HTTP/1.1 404 Not Found" = (1, Some 404)
  /\ sscanf_status "HTTP/1.0 200 Fine" = (1, Some 200)
  /\ sscanf_status "HTTP 200 OK" = (0, None)
  /\ sscanf_status "HTTP/1.0" = (EOF, None)
  /\ sscanf_status "ICY 200 OK" = (0, None).
Proof. repeat split. Qed.

Example atoi_samples :
  atoi "8000" = 8000 /\ atoi " -12x" = -12 /\ atoi "+7" = 7
  /\ atoi "abc" = 0 /\ atoi "" = 0.
Proof. repeat split. Qed.

Example fmt_d_samples :
  fmt_d 0 = "0" /\ fmt_d 8000 = "8000" /\ fmt_d 65535 = "65535" /\ fmt_d (-42) = "-42".
Proof. repeat split. Qed.

Lemma string_length_app (a b : string) :
  String.length (a ++ b)%string = (String.length a + String.length b)%nat.
Proof. induction a as [|c a IH]; simpl; [reflexivity|]. rewrite IH. reflexivity. Qed.

Lemma str_take_all (n : nat) (s : string) :
  (String.length s <= n)%nat -> str_take n s = s.
Proof.
  revert n. induction s as [|c s IH]; intros [|n] H; simpl in *;
    try reflexivity; try lia.
  rewrite IH by lia. reflexivity.
Qed.

Lemma str_take_length (n : nat) (s : string) :
  String.length (str_take n s) = Nat.min n (String.length s).
Proof.
  revert n. induction s as [|c s IH]; intros [|n]; simpl; try reflexivity.
  rewrite IH. reflexivity.
Qed.

Lemma string_app_assoc (a b c : string) :
  ((a ++ b) ++ c)%string = (a ++ (b ++ c))%string.
Proof. induction a as [|x a IH]; simpl; [reflexivity|]. rewrite IH. reflexivity. Qed.

Lemma string_app_nil_r (a : string) : (a ++ "")%string = a.
Proof. induction a as [|x a IH]; simpl; [reflexivity|]. rewrite IH. reflexivity. Qed.

Lemma snprintf_fits (size : Z) (text : string) :
  strlen text + 1 <= size -> snprintf size text = text.
Proof.
  unfold snprintf, strlen. intros H. apply str_take_all. lia.
Qed.

Lemma fmt_digits_length (fuel : nat) :
  forall (k : nat) (n : Z) (acc : string),
    (1 <= k)%nat -> 0 <= n < 10 ^ Z.of_nat k ->
    (String.length (fmt_digits fuel n acc) <= k + String.length acc)%nat.
Proof.
  induction fuel as [|f IH]; intros k n acc Hk Hn; simpl; [lia|].
  destruct (Z.eqb_spec (n / 10) 0) as [E|E]; simpl; [lia|].
  destruct k as [|[|k]]; [lia| |].
  - exfalso. apply E. apply Z.div_small. change (10 ^ Z.of_nat 1) with 10 in Hn. lia.
  - specialize (IH (S k) (n / 10) (String (digit_char (n mod 10)) acc)).
    simpl String.length in IH.
    assert (H10 : 10 ^ Z.of_nat (S (S k)) = 10 * 10 ^ Z.of_nat (S k)).
    { rewrite (Nat2Z.inj_succ (S k)), Z.pow_succ_r by lia. reflexivity. }
    assert (0 <= n / 10 < 10 ^ Z.of_nat (S k)).
    { split; [apply Z.div_pos; lia|].
      apply Z.div_lt_upper_bound; lia. }
    specialize (IH ltac:(lia) ltac:(assumption)). lia.
Qed.

Lemma fmt_digits_exact (k : nat) :
  forall (fuel : nat) (n : Z) (acc : string),
    (S k <= fuel)%nat -> 10 ^ Z.of_nat k <= n < 10 ^ Z.of_nat (S k) ->
    String.length (fmt_digits fuel n acc) = (S k + String.length acc)%nat.
Proof.
  induction k as [|k IH]; intros fuel n acc Hf Hn;
    (destruct fuel as [|f]; [lia|]); cbn [fmt_digits].
  - change (10 ^ Z.of_nat 1) with 10 in Hn. change (10 ^ Z.of_nat 0) with 1 in Hn.
    rewrite Z.div_small by lia. reflexivity.
  - assert (H10 : forall j : nat, 10 ^ Z.of_nat (S j) = 10 * 10 ^ Z.of_nat j).
    { intros j. rewrite Nat2Z.inj_succ, Z.pow_succ_r by lia. reflexivity. }
    assert (Hp : 0 < 10 ^ Z.of_nat k) by (apply Z.pow_pos_nonneg; lia).
    rewrite (H10 (S k)) in Hn. rewrite (H10 k) in Hn.
    assert (Hq : 10 ^ Z.of_nat k <= n / 10 < 10 ^ Z.of_nat (S k)).
    { rewrite (H10 k). split.
      - apply Z.div_le_lower_bound; lia.
      - apply Z.div_lt_upper_bound; lia. }
    destruct (Z.eqb_spec (n / 10) 0) as [E|_]; [lia|].
    rewrite (IH f (n / 10)) by (try lia; exact Hq).
    cbn [String.length]. lia.
Qed.

Lemma fmt_d_five_digits (z : Z) :
  10000 <= z <= 99999 -> String.length (fmt_d z) = 5%nat.
Proof.
  intros Hz. unfold fmt_d. destruct (Z.ltb_spec z 0) as [N|_]; [lia|].
  assert (Hl : 13 <= Z.log2 z).
  { change 13 with (Z.log2 10000). apply Z.log2_le_mono. lia. }
  rewrite (fmt_digits_exact 4) by (simpl; lia). reflexivity.
Qed.

(** The fuel [fmt_d] gives is enough: more fuel prints the same digits. *)
Lemma fmt_digits_enough (fuel : nat) :
  forall (n : Z) (acc : string) (extra : nat),
    0 <= n < 2 ^ Z.of_nat (S fuel) ->
    fmt_digits (S fuel + extra) n acc = fmt_digits (S fuel) n acc.
Proof.
  induction fuel as [|f IH]; intros n acc extra Hn.
  - change (2 ^ Z.of_nat 1) with 2 in Hn. cbn [fmt_digits Nat.add].
    rewrite Z.div_small by lia. reflexivity.
  - cbn [Nat.add]. cbn [fmt_digits].
    destruct (Z.eqb_spec (n / 10) 0) as [E|E]; [reflexivity|].
    apply (IH (n / 10)).
    rewrite (Nat2Z.inj_succ (S f)), Z.pow_succ_r in Hn by lia.
    split; [apply Z.div_pos; lia|].
    apply Z.div_lt_upper_bound; lia.
Qed.

Lemma fmt_d_fuel (z : Z) (extra : nat) :
  0 <= z ->
  fmt_digits (S (Z.to_nat (Z.log2 z)) + extra) z "" = fmt_d z.
Proof.
  intros Hz. unfold fmt_d. destruct (Z.ltb_spec z 0) as [N|_]; [lia|].
  apply fmt_digits_enough.
  rewrite Nat2Z.inj_succ, Z2Nat.id by apply Z.log2_nonneg.
  destruct (Z.eq_dec z 0) as [->|Hnz]; [simpl; lia|].
  pose proof (Z.log2_spec z ltac:(lia)) as [_ H]. lia.
Qed.

Lemma fmt_d_length (k : nat) (z : Z) :
  (1 <= k)%nat -> 0 <= z < 10 ^ Z.of_nat k -> (String.length (fmt_d z) <= k)%nat.
Proof.
  intros Hk Hz. unfold fmt_d. destruct (Z.ltb_spec z 0) as [N|_]; [lia|].
  pose proof (fmt_digits_length (S (Z.to_nat (Z.log2 z))) k z "" Hk Hz) as H.
  change (String.length "") with 0%nat in H. lia.
Qed.

End CFacts.

(** ** The reconciler *)

Section ReconcilerFacts.
Import C Relay.

Lemma set_on_demand_same (r : relay_server) : set_on_demand (on_demand r) r = r.
Proof. destruct r; reflexivity. Qed.

Lemma relay_has_changed_spec (new old : relay_server) :
  relay_has_changed new old =
  if materially_equivalent new old then (0, promote new old) else (1, old).
Proof.
  unfold relay_has_changed, materially_equivalent, promote.
  rewrite !strcmp_eqb.
  destruct (String.eqb (mount new) (mount old)); simpl;
    [|rewrite ?andb_false_r; reflexivity].
  destruct (String.eqb (server new) (server old)); simpl; [|reflexivity].
  destruct (port new =? port old); simpl; [|reflexivity].
  destruct (mp3metadata new =? mp3metadata old); simpl; [|reflexivity].
  destruct (Z.eqb_spec (on_demand new) (on_demand old)) as [E|_]; simpl; [|reflexivity].
  rewrite E, set_on_demand_same. reflexivity.
Qed.

Lemma scan_existing_spec (d : relay_server) (current : list relay_server) :
  scan_existing d current =
  (option_map (promote d) (find (keeps d) current), unlink_first d current).
Proof.
  induction current as [|e next IH]; simpl; [reflexivity|].
  unfold keeps at 1 3. rewrite strcmp_eqb.
  destruct (String.eqb (localmount d) (localmount e)); simpl.
  - rewrite relay_has_changed_spec.
    destruct (materially_equivalent d e); simpl; [reflexivity|].
    rewrite IH. reflexivity.
  - rewrite IH. reflexivity.
Qed.

Lemma keeps_localmount (d e : relay_server) :
  keeps d e = true -> localmount d = localmount e.
Proof.
  unfold keeps. intros H. apply andb_true_iff in H. destruct H as [H _].
  apply String.eqb_eq. exact H.
Qed.

Lemma unlink_first_filter (d : relay_server) (current : list relay_server) :
  NoDup (map localmount current) ->
  unlink_first d current = filter (fun e => negb (keeps d e)) current.
Proof.
  induction current as [|e next IH]; simpl; intros ND; [reflexivity|].
  inversion ND as [|? ? Hnin ND']; subst.
  destruct (keeps d e) eqn:K; simpl.
  - symmetry. apply forallb_filter_id. apply forallb_forall. intros x Hx.
    destruct (keeps d x) eqn:Kx; [|reflexivity].
    exfalso. apply Hnin. apply keeps_localmount in K, Kx.
    rewrite <- K, Kx. apply in_map. exact Hx.
  - rewrite IH by assumption. reflexivity.
Qed.

Lemma unlink_first_none (d : relay_server) (current : list relay_server) :
  find (keeps d) current = None -> unlink_first d current = current.
Proof.
  induction current as [|e next IH]; simpl; [reflexivity|].
  destruct (keeps d e); [discriminate|]. intros H. rewrite IH by assumption.
  reflexivity.
Qed.

Lemma NoDup_map_filter {A B : Type} (key : A -> B) (keep : A -> bool) :
  forall records : list A,
    NoDup (map key records) -> NoDup (map key (filter keep records)).
Proof.
  intros records. induction records as [|x l IH]; simpl; intros ND; [constructor|].
  inversion ND as [|? ? Hnin ND']; subst.
  destruct (keep x); simpl; [|auto].
  constructor; [|auto].
  intros Hin. apply Hnin. apply in_map_iff in Hin.
  destruct Hin as (y & Hy & Hin). apply filter_In in Hin.
  rewrite <- Hy. apply in_map. tauto.
Qed.

Lemma find_filter_agree {A : Type} (p q : A -> bool) (l : list A) :
  (forall x, In x l -> p x = true -> q x = true) ->
  find p (filter q l) = find p l.
Proof.
  induction l as [|x l IH]; simpl; intros H; [reflexivity|].
  destruct (q x) eqn:Q; simpl.
  - destruct (p x); [reflexivity|]. apply IH. intros; apply H; auto.
  - destruct (p x) eqn:P.
    + rewrite (H x) in Q by auto. discriminate.
    + apply IH. intros; apply H; auto.
Qed.

Lemma filter_filter {A : Type} (p q : A -> bool) (l : list A) :
  filter p (filter q l) = filter (fun x => q x && p x) l.
Proof.
  induction l as [|x l IH]; simpl; [reflexivity|].
  destruct (q x); simpl; [|assumption].
  destruct (p x); simpl; congruence.
Qed.

Lemma relay_copy_ok (d : relay_server) :
  relay_copy true d = (Some (introduce d), set_source None d).
Proof.
  unfold relay_copy, introduce.
  destruct (username d), (password d); reflexivity.
Qed.

(** A record of [rest] keeps the same record of [current] whether or not
    the record kept by [d] has been unlinked, when [d] has another mount. *)
Lemma find_after_unlink (d d' : relay_server) (current : list relay_server) :
  localmount d <> localmount d' ->
  find (keeps d') (filter (fun e => negb (keeps d e)) current) =
  find (keeps d') current.
Proof.
  intros Hne. apply find_filter_agree. intros x _ K'.
  destruct (keeps d x) eqn:K; [|reflexivity].
  exfalso. apply Hne. apply keeps_localmount in K, K'. congruence.
Qed.

Lemma NoDup_map_inj {A B : Type} (f : A -> B) (l : list A) (x y : A) :
  NoDup (map f l) -> In x l -> In y l -> f x = f y -> x = y.
Proof.
  induction l as [|a l IH]; simpl; intros ND Hx Hy E; [contradiction|].
  inversion ND as [|? ? Hnin ND']; subst.
  destruct Hx as [->|Hx], Hy as [->|Hy]; auto.
  - exfalso. apply Hnin. rewrite E. apply in_map. exact Hy.
  - exfalso. apply Hnin. rewrite <- E. apply in_map. exact Hx.
Qed.

Lemma Forall2_In_l {A B : Type} (R : A -> B -> Prop) (l1 : list A) (l2 : list B) :
  Forall2 R l1 l2 -> forall a, In a l1 -> exists b, In b l2 /\ R a b.
Proof.
  induction 1 as [|a0 b0 l1 l2 H0 _ IH]; intros a Ha; [contradiction|].
  destruct Ha as [->|Ha].
  - exists b0. simpl. auto.
  - destruct (IH a Ha) as (b & Hb & Hr). exists b. simpl. auto.
Qed.

Lemma Forall2_In_r {A B : Type} (R : A -> B -> Prop) (l1 : list A) (l2 : list B) :
  Forall2 R l1 l2 -> forall b, In b l2 -> exists a, In a l1 /\ R a b.
Proof.
  induction 1 as [|a0 b0 l1 l2 H0 _ IH]; intros b Hb; [contradiction|].
  destruct Hb as [->|Hb].
  - exists a0. simpl. auto.
  - destruct (IH b Hb) as (a & Ha & Hr). exists a. simpl. auto.
Qed.

Lemma Forall2_map_eq {A B : Type} (R : A -> B -> Prop) (f : A -> B)
    (l1 : list A) (l2 : list B) :
  Forall2 R l1 l2 -> (forall a b, In b l2 -> R a b -> f a = b) -> map f l1 = l2.
Proof.
  induction 1 as [|a0 b0 l1 l2 H0 _ IH]; intros Hf; simpl; [reflexivity|].
  rewrite (Hf a0 b0) by (simpl; auto). f_equal. apply IH.
  intros a b Hb. apply Hf. simpl. auto.
Qed.

Lemma filter_nil {A : Type} (p : A -> bool) (l : list A) :
  (forall x, In x l -> p x = false) -> filter p l = [].
Proof.
  induction l as [|x l IH]; simpl; intros H; [reflexivity|].
  rewrite (H x) by auto. apply IH. intros; apply H; auto.
Qed.

Lemma some_quad_eq {A B C D : Type} (a a' : A) (b b' : B) (c c' : C) (d d' : D) :
  a = a' -> b = b' -> c = c' -> d = d' ->
  Some (a, b, c, d) = Some (a', b', c', d').
Proof. congruence. Qed.

Lemma update_relay_loop_spec (calloc_ok : nat -> bool) :
  (forall i, calloc_ok i = true) ->
  forall (updated current new_list : list relay_server) (n : nat),
    NoDup (map localmount current) ->
    NoDup (map localmount updated) ->
    update_relay_loop calloc_ok current updated new_list n =
    Some (keep_or_new current updated ++ new_list,
          cleanup_set current updated,
          updated_after current updated,
          (n + introduced current updated)%nat).
Proof.
  intros Hmem. unfold keep_or_new, cleanup_set, updated_after, introduced.
  induction updated as [|d rest IH]; intros current new_list n NDc NDu.
  - simpl. rewrite Nat.add_0_r. apply some_quad_eq; try reflexivity.
    symmetry. apply forallb_filter_id. apply forallb_forall. reflexivity.
  - inversion NDu as [|? ? Hnin NDr]; subst.
    assert (Hrest : forall d', In d' rest -> localmount d <> localmount d').
    { intros d' Hin E. apply Hnin. rewrite E. apply in_map. exact Hin. }
    cbn [update_relay_loop]. rewrite scan_existing_spec.
    destruct (find (keeps d) current) as [e|] eqn:F; cbn [option_map].
    + rewrite unlink_first_filter by assumption.
      rewrite IH by (auto using NoDup_map_filter).
      apply some_quad_eq.
      * cbn [map rev]. rewrite <- app_assoc. cbn [app].
        unfold reconcile_one at 3. rewrite F. f_equal. f_equal.
        apply map_ext_in. intros d' Hin. unfold reconcile_one.
        rewrite find_after_unlink by auto. reflexivity.
      * rewrite filter_filter. apply filter_ext. intros x.
        cbn [existsb]. rewrite negb_orb. reflexivity.
      * cbn [map]. rewrite F. f_equal.
        apply map_ext_in. intros d' Hin.
        rewrite find_after_unlink by auto. reflexivity.
      * cbn [filter]. rewrite F. f_equal. f_equal.
        apply filter_ext_in. intros d' Hin.
        rewrite find_after_unlink by auto. reflexivity.
    + rewrite unlink_first_none by assumption.
      rewrite Hmem, relay_copy_ok.
      rewrite IH by assumption.
      apply some_quad_eq.
      * cbn [map rev]. rewrite <- app_assoc. cbn [app].
        unfold reconcile_one at 3. rewrite F. reflexivity.
      * apply filter_ext_in. intros x Hx. cbn [existsb].
        rewrite (find_none _ _ F x Hx). reflexivity.
      * cbn [map]. rewrite F. reflexivity.
      * cbn [filter]. rewrite F. cbn [List.length]. lia.
Qed.

(** C1.  On relay lists with unique local mounts (and while [calloc]
    provides memory) [update_relay_set] returns, in the reverse order of
    [updated], for every [d] of [updated] either the record of [current]
    with the same local mount and equal server, mount, port and
    mp3metadata, unlinked and carrying [d]'s [on_demand], or the copy made
    by [relay_copy], which takes over [d]'s source handle while [d]'s own
    is cleared; what it leaves in [current] are exactly the records no [d]
    keeps. *)
Theorem update_relay_set_partition
    (calloc_ok : nat -> bool) (current updated : list relay_server) (n : nat) :
  (forall i, calloc_ok i = true) ->
  NoDup (map localmount current) ->
  NoDup (map localmount updated) ->
  update_relay_set calloc_ok current updated n =
    Some (keep_or_new current updated,
          cleanup_set current updated,
          updated_after current updated,
          (n + introduced current updated)%nat)
  /\ (forall d, In d updated ->
        match find (keeps d) current with
        | Some e =>
            In e current /\ localmount e = localmount d
            /\ relay_has_changed d e = (0, promote d e)
            /\ In (promote d e) (keep_or_new current updated)
            /\ ~ In e (cleanup_set current updated)
            /\ In d (updated_after current updated)
        | None =>
            relay_copy true d = (Some (introduce d), set_source None d)
            /\ source (introduce d) = source d
            /\ In (introduce d) (keep_or_new current updated)
            /\ In (set_source None d) (updated_after current updated)
        end)
  /\ (forall e, In e (cleanup_set current updated) <->
        In e current /\ forall d, In d updated -> keeps d e = false)
  /\ map localmount (keep_or_new current updated) = rev (map localmount updated).
Proof.
  intros Hmem NDc NDu. split; [|split; [|split]].
  - unfold update_relay_set. rewrite update_relay_loop_spec by assumption.
    rewrite app_nil_r. reflexivity.
  - intros d Hd. destruct (find (keeps d) current) as [e|] eqn:F.
    + pose proof (find_some _ _ F) as [He K].
      assert (Hin : In (promote d e) (keep_or_new current updated)).
      { unfold keep_or_new. rewrite <- in_rev. apply in_map_iff.
        exists d. unfold reconcile_one. rewrite F. auto. }
      repeat split; auto.
      * symmetry. apply keeps_localmount. exact K.
      * rewrite relay_has_changed_spec. unfold keeps in K.
        apply andb_true_iff in K. destruct K as [_ ->]. reflexivity.
      * unfold cleanup_set. rewrite filter_In. intros [_ Hn].
        apply negb_true_iff in Hn.
        assert (Ht : existsb (fun d0 => keeps d0 e) updated = true)
          by (apply existsb_exists; exists d; auto).
        congruence.
      * unfold updated_after. apply in_map_iff. exists d. rewrite F. auto.
    + repeat split.
      * apply relay_copy_ok.
      * unfold keep_or_new. rewrite <- in_rev. apply in_map_iff.
        exists d. unfold reconcile_one. rewrite F. auto.
      * unfold updated_after. apply in_map_iff. exists d. rewrite F. auto.
  - intros e. unfold cleanup_set. rewrite filter_In, negb_true_iff.
    split; intros [He H]; split; auto.
    + intros d Hd. destruct (keeps d e) eqn:K; [|reflexivity].
      assert (Ht : existsb (fun d0 => keeps d0 e) updated = true)
        by (apply existsb_exists; exists d; auto).
      congruence.
    + destruct (existsb (fun d => keeps d e) updated) eqn:X; [|reflexivity].
      apply existsb_exists in X. destruct X as (d & Hd & K).
      rewrite (H d Hd) in K. discriminate.
  - unfold keep_or_new. rewrite map_rev, map_map. f_equal.
    apply map_ext. intros d. unfold reconcile_one.
    destruct (find (keeps d) current) as [e|] eqn:F; [|reflexivity].
    apply find_some in F. destruct F as [_ K].
    apply keeps_localmount in K. destruct e; simpl in *. congruence.
Qed.

Lemma keeps_promote (d e : relay_server) :
  keeps d e = true -> settled d (promote d e).
Proof. intros K. split; [exact K | reflexivity]. Qed.

Lemma keeps_introduce (d : relay_server) : settled d (introduce d).
Proof.
  split; [|reflexivity]. unfold keeps, materially_equivalent, introduce; simpl.
  rewrite !String.eqb_refl, !Z.eqb_refl. reflexivity.
Qed.

Lemma settled_clear_source (d x : relay_server) :
  settled d x -> settled (set_source None d) x.
Proof. intros H. exact H. Qed.

(** Shape of one pass, with no assumption on the lists: position by
    position, the active list (read backwards) holds a record settled for
    the record of [updated], before and after the pass. *)
Lemma update_relay_loop_shape (calloc_ok : nat -> bool) :
  (forall i, calloc_ok i = true) ->
  forall (updated current new_list : list relay_server) (n : nat),
  exists nl c upd n',
    update_relay_loop calloc_ok current updated new_list n =
      Some (nl ++ new_list, c, upd, n')
    /\ Forall2 settled updated (rev nl)
    /\ Forall2 settled upd (rev nl).
Proof.
  intros Hmem.
  induction updated as [|d rest IH]; intros current new_list n.
  - exists [], current, [], n. simpl. repeat split; constructor.
  - cbn [update_relay_loop]. rewrite scan_existing_spec.
    destruct (find (keeps d) current) as [e|] eqn:F; cbn [option_map].
    + destruct (IH (unlink_first d current) (promote d e :: new_list) n)
        as (nl & c & upd & n' & -> & H1 & H2).
      apply find_some in F. destruct F as [_ K].
      exists (nl ++ [promote d e]), c, (d :: upd), n'.
      rewrite <- app_assoc, rev_app_distr. simpl.
      repeat split; try constructor; auto using keeps_promote.
    + rewrite Hmem, relay_copy_ok.
      destruct (IH (unlink_first d current) (introduce d :: new_list) (S n))
        as (nl & c & upd & n' & -> & H1 & H2).
      exists (nl ++ [introduce d]), c, (set_source None d :: upd), n'.
      rewrite <- app_assoc, rev_app_distr. simpl.
      repeat split; try constructor; auto using keeps_introduce.
      apply settled_clear_source, keeps_introduce.
Qed.

Lemma settled_localmounts (l1 l2 : list relay_server) :
  Forall2 settled l1 l2 -> map localmount l2 = map localmount l1.
Proof.
  induction 1 as [|d x l1 l2 [K _] _ IH]; simpl; [reflexivity|].
  rewrite IH, (keeps_localmount d x K). reflexivity.
Qed.

Lemma settled_find (current : list relay_server) (d x : relay_server) :
  NoDup (map localmount current) -> In x current -> settled d x ->
  find (keeps d) current = Some x.
Proof.
  intros ND Hx [K _].
  destruct (find (keeps d) current) as [y|] eqn:F.
  - apply find_some in F. destruct F as [Hy Ky]. f_equal.
    apply (NoDup_map_inj localmount current); auto.
    apply keeps_localmount in K, Ky. congruence.
  - rewrite (find_none _ _ F x Hx) in K. discriminate.
Qed.

Lemma settled_reconcile (current : list relay_server) (d x : relay_server) :
  NoDup (map localmount current) -> In x current -> settled d x ->
  reconcile_one current d = x.
Proof.
  intros ND Hx H. unfold reconcile_one. rewrite (settled_find current d x) by assumption.
  unfold promote. destruct H as [_ <-]. apply set_on_demand_same.
Qed.

(** A pass over an active list in which every record is settled for the
    record of [updated] at its position keeps every record and cleans up
    none. *)
Lemma update_relay_loop_settled (calloc_ok : nat -> bool) :
  (forall i, calloc_ok i = true) ->
  forall (current updated : list relay_server) (n : nat),
    NoDup (map localmount updated) ->
    Forall2 settled updated (rev current) ->
    update_relay_loop calloc_ok current updated [] n =
      Some (current, [], updated, n).
Proof.
  intros Hmem current updated n NDu H.
  assert (NDc : NoDup (map localmount current)).
  { apply settled_localmounts in H. rewrite map_rev in H.
    rewrite <- (rev_involutive (map localmount current)), H.
    apply NoDup_rev. exact NDu. }
  rewrite update_relay_loop_spec by assumption. rewrite app_nil_r.
  apply some_quad_eq.
  - unfold keep_or_new. rewrite <- (rev_involutive current) at 2. f_equal.
    apply Forall2_map_eq with (R := settled); [exact H|].
    intros d x Hx Hs. apply settled_reconcile; auto.
    apply in_rev. exact Hx.
  - unfold cleanup_set. apply filter_nil. intros x Hx.
    apply negb_false_iff, existsb_exists.
    destruct (Forall2_In_r _ _ _ H x) as (d & Hd & Hs); [apply -> in_rev; exact Hx|].
    exists d. split; [exact Hd | apply Hs].
  - unfold updated_after. rewrite <- (map_id updated) at 2.
    apply map_ext_in. intros d Hd.
    destruct (Forall2_In_l _ _ _ H d Hd) as (x & Hx & Hs).
    rewrite (settled_find current d x); auto. apply in_rev. exact Hx.
  - unfold introduced. rewrite filter_nil; [simpl; lia|].
    intros d Hd.
    destruct (Forall2_In_l _ _ _ H d Hd) as (x & Hx & Hs).
    rewrite (settled_find current d x); auto. apply in_rev. exact Hx.
Qed.

(** C3.  With unique local mounts in [updated] (and while [calloc]
    provides memory), [update_relays] followed by [update_relays] on the
    list it produced, with the updated list as the first pass left it or as
    it was given, returns an empty cleanup list and keeps the active list
    as it is: every record is promoted, none is copied. *)
Theorem update_relays_idempotent
    (calloc_ok : nat -> bool) (current updated : list relay_server) (n : nat) :
  (forall i, calloc_ok i = true) ->
  NoDup (map localmount updated) ->
  exists cleanup1 current1 updated1 n1,
    update_relays calloc_ok current updated n =
      Some (cleanup1, current1, updated1, n1)
    /\ update_relays calloc_ok current1 updated1 n1 =
      Some ([], current1, updated1, n1)
    /\ update_relays calloc_ok current1 updated n1 =
      Some ([], current1, updated, n1).
Proof.
  intros Hmem NDu. unfold update_relays, update_relay_set.
  destruct (update_relay_loop_shape calloc_ok Hmem updated current [] n)
    as (nl & c & upd & n1 & E & H1 & H2).
  rewrite app_nil_r in E. rewrite E.
  exists c, nl, upd, n1. split; [reflexivity|].
  assert (NDupd : NoDup (map localmount upd)).
  { rewrite <- (settled_localmounts updated (rev nl)) in NDu by assumption.
    rewrite (settled_localmounts upd (rev nl)) in NDu by assumption.
    exact NDu. }
  rewrite !update_relay_loop_settled by assumption.
  split; reflexivity.
Qed.


(** C2.  [relay_has_changed] returns 0 exactly when server, mount, port
    and mp3metadata agree, and 1 otherwise, whatever [on_demand] is; on 0
    the old record leaves with the new [on_demand] and nothing else
    touched, on 1 it is left as it was; and a record of [current] for which
    it returns 0 against the record of [updated] with its local mount is
    kept in the active list and is no cleanup entry. *)
Theorem relay_has_changed_material (new old : relay_server) :
  (fst (relay_has_changed new old) = 0 <->
     server new = server old /\ mount new = mount old
     /\ port new = port old /\ mp3metadata new = mp3metadata old)
  /\ (fst (relay_has_changed new old) = 1 <->
     server new <> server old \/ mount new <> mount old
     \/ port new <> port old \/ mp3metadata new <> mp3metadata old)
  /\ (fst (relay_has_changed new old) = 0 ->
        snd (relay_has_changed new old) = set_on_demand (on_demand new) old)
  /\ (fst (relay_has_changed new old) = 1 -> snd (relay_has_changed new old) = old)
  /\ (fst (relay_has_changed new old) = 0 ->
      localmount new = localmount old ->
      forall (calloc_ok : nat -> bool) (current updated : list relay_server) (n : nat),
        (forall i, calloc_ok i = true) ->
        NoDup (map localmount current) -> NoDup (map localmount updated) ->
        In new updated -> In old current ->
        exists cleanup active upd n',
          update_relays calloc_ok current updated n = Some (cleanup, active, upd, n')
          /\ ~ In old cleanup
          /\ In (set_on_demand (on_demand new) old) active).
Proof.
  rewrite relay_has_changed_spec.
  assert (M : materially_equivalent new old = true <->
              server new = server old /\ mount new = mount old
              /\ port new = port old /\ mp3metadata new = mp3metadata old).
  { unfold materially_equivalent.
    rewrite !andb_true_iff, !String.eqb_eq, !Z.eqb_eq. tauto. }
  destruct (materially_equivalent new old) eqn:E; cbn [fst snd].
  - split; [|split; [|split; [|split]]].
    + split; [intros _; apply M; reflexivity | reflexivity].
    + split; [discriminate|]. pose proof (proj1 M eq_refl). tauto.
    + reflexivity.
    + discriminate.
    + intros _ Hlm calloc_ok current updated n Hmem NDc NDu Hnew Hold.
      assert (K : keeps new old = true).
      { unfold keeps. rewrite E, Hlm, String.eqb_refl. reflexivity. }
      unfold update_relays, update_relay_set.
      rewrite update_relay_loop_spec by assumption. rewrite app_nil_r.
      do 4 eexists. split; [reflexivity|]. split.
      * unfold cleanup_set. rewrite filter_In. intros [_ Hn].
        apply negb_true_iff in Hn.
        assert (Ht : existsb (fun d => keeps d old) updated = true)
          by (apply existsb_exists; exists new; auto).
        congruence.
      * unfold keep_or_new. rewrite <- in_rev. apply in_map_iff.
        exists new. split; [|assumption]. unfold reconcile_one.
        destruct (find (keeps new) current) as [e|] eqn:F.
        -- apply find_some in F. destruct F as [He Ke].
           assert (e = old); [|subst; reflexivity].
           apply (NoDup_map_inj localmount current); auto.
           apply keeps_localmount in K, Ke. congruence.
        -- rewrite (find_none _ _ F old Hold) in K. discriminate.
  - split; [|split; [|split; [|split]]].
    + split; [discriminate|]. intros H. apply M in H. discriminate.
    + split; [intros _|reflexivity].
      destruct (string_dec (server new) (server old)); [|tauto].
      destruct (string_dec (mount new) (mount old)); [|tauto].
      destruct (Z.eq_dec (port new) (port old)); [|tauto].
      destruct (Z.eq_dec (mp3metadata new) (mp3metadata old)); [|tauto].
      assert (false = true) by (apply M; tauto). discriminate.
    + discriminate.
    + reflexivity.
    + discriminate.
Qed.

End ReconcilerFacts.

(** ** The slave host table *)

Section SlaveHostFacts.
Import C SlaveHost.

Lemma wrap_int_id (z : Z) : INT_MIN <= z <= INT_MAX -> wrap_int z = z.
Proof.
  unfold INT_MIN, INT_MAX, wrap_int. intros H.
  change (2 ^ 31) with 2147483648. change (2 ^ 32) with 4294967296.
  rewrite Z.mod_small by lia. lia.
Qed.

Lemma find_slave_host_some (slave : list slave_host) (server0 : string) (port0 : Z) (i : nat) :
  find_slave_host slave server0 port0 = Some i ->
  exists l1 e l2,
    slave = l1 ++ e :: l2 /\ List.length l1 = i
    /\ is_host server0 port0 e = true
    /\ Forall (fun x => is_host server0 port0 x = false) l1.
Proof.
  revert i. induction slave as [|s next IH]; simpl; intros i H; [discriminate|].
  destruct (is_host server0 port0 s) eqn:E.
  - injection H as <-. exists [], s, next. simpl. auto.
  - destruct (find_slave_host next server0 port0) as [j|]; [|discriminate].
    injection H as <-.
    destruct (IH j eq_refl) as (l1 & e & l2 & -> & <- & He & Hl).
    exists (s :: l1), e, l2. simpl. auto.
Qed.

Lemma find_slave_host_none (slave : list slave_host) (server0 : string) (port0 : Z) :
  find_slave_host slave server0 port0 = None <->
  Forall (fun x => is_host server0 port0 x = false) slave.
Proof.
  induction slave as [|s next IH]; simpl.
  - split; auto.
  - destruct (is_host server0 port0 s) eqn:E.
    + split; [discriminate|]. intros H. inversion H; congruence.
    + destruct (find_slave_host next server0 port0) as [j|].
      * split; [discriminate|]. intros H. inversion H; subst.
        apply IH in H3. discriminate.
      * split; auto. intros _. constructor; [assumption|]. apply IH. reflexivity.
Qed.

Lemma find_slave_host_first (l1 l2 : list slave_host) (e : slave_host)
    (server0 : string) (port0 : Z) :
  Forall (fun x => is_host server0 port0 x = false) l1 ->
  is_host server0 port0 e = true ->
  find_slave_host (l1 ++ e :: l2) server0 port0 = Some (List.length l1).
Proof.
  induction 1 as [|x l1 Hx _ IH]; simpl; intros He.
  - rewrite He. reflexivity.
  - rewrite Hx, IH by assumption. reflexivity.
Qed.

Lemma count_incr_at (l1 l2 : list slave_host) (e : slave_host) :
  count_incr (List.length l1) (l1 ++ e :: l2) =
  l1 ++ set_count (wrap_int (count e + 1)) e :: l2.
Proof. induction l1 as [|x l1 IH]; simpl; [reflexivity|]. rewrite IH. reflexivity. Qed.

Lemma remove_walk_at (l1 l2 : list slave_host) (e : slave_host)
    (server0 : string) (port0 : Z) :
  Forall (fun x => is_host server0 port0 x = false) l1 ->
  is_host server0 port0 e = true ->
  remove_walk server0 port0 (l1 ++ e :: l2) =
  if wrap_int (count e - 1) =? 0 then (l1 ++ l2, true)
  else (l1 ++ set_count (wrap_int (count e - 1)) e :: l2, false).
Proof.
  induction 1 as [|x l1 Hx _ IH]; simpl; intros He.
  - rewrite He. reflexivity.
  - rewrite Hx, IH by assumption.
    destruct (wrap_int (count e - 1) =? 0); reflexivity.
Qed.

Lemma remove_walk_none (slave : list slave_host) (server0 : string) (port0 : Z) :
  Forall (fun x => is_host server0 port0 x = false) slave ->
  remove_walk server0 port0 slave = (slave, false).
Proof.
  induction 1 as [|x l Hx _ IH]; simpl; [reflexivity|].
  rewrite Hx, IH. reflexivity.
Qed.

(** What [slave_host_add] does once the header is split. *)
Lemma add_entry_ok (server0 : string) (port0 : Z) (calloc_ok : bool) (g : slave_table) :
  table_typed g -> table_ok g -> table_room g ->
  let g' := match find_slave_host (slaves g) server0 port0 with
            | Some i => {| slaves := count_incr i (slaves g);
                           slave_count := slave_count g |}
            | None => _add_slave_host calloc_ok server0 port0 g
            end in
  table_typed g' /\ table_ok g'.
Proof.
  intros [Tc Ts] [Oc Os] [Rc Rs].
  destruct (find_slave_host (slaves g) server0 port0) as [i|] eqn:F; cbv zeta.
  - apply find_slave_host_some in F.
    destruct F as (l1 & e & l2 & E & <- & He & Hl1).
    rewrite E in *. rewrite count_incr_at.
    apply Forall_app in Ts, Os, Rs.
    destruct Ts as [Ts1 Ts2], Os as [Os1 Os2], Rs as [Rs1 Rs2].
    inversion Ts2; inversion Os2; inversion Rs2; subst.
    rewrite wrap_int_id by (unfold INT_MIN, INT_MAX in *; lia).
    unfold table_typed, table_ok; cbn [slaves slave_count].
    rewrite !length_app in *. cbn [List.length] in *.
    repeat split; try lia; try assumption;
      apply Forall_app; (split; [assumption|]);
      constructor; try assumption; cbn [count set_count];
      unfold INT_MIN, INT_MAX in *; lia.
  - unfold _add_slave_host. destruct calloc_ok.
    + unfold table_typed, table_ok; cbn [slaves slave_count List.length].
      assert (0 <= slave_count g) by lia.
      rewrite wrap_int_id by (unfold INT_MIN, INT_MAX in *; lia).
      repeat split; try (unfold INT_MIN, INT_MAX in *; lia);
        constructor; try assumption; cbn [count];
        unfold INT_MIN, INT_MAX; lia.
    + split; split; assumption.
Qed.

(** What [slave_host_remove] does once the header is split. *)
Lemma remove_entry_ok (server0 : string) (port0 : Z) (g : slave_table) :
  table_typed g -> table_ok g ->
  let g' := let '(slaves', unlinked) := remove_walk server0 port0 (slaves g) in
            {| slaves := slaves';
               slave_count := if unlinked then wrap_int (slave_count g - 1)
                              else slave_count g |} in
  table_typed g' /\ table_ok g'.
Proof.
  intros [Tc Ts] [Oc Os]. cbv zeta.
  destruct (find_slave_host (slaves g) server0 port0) as [i|] eqn:F.
  - apply find_slave_host_some in F.
    destruct F as (l1 & e & l2 & E & <- & He & Hl1).
    rewrite E in *. rewrite remove_walk_at by assumption.
    apply Forall_app in Ts, Os.
    destruct Ts as [Ts1 Ts2], Os as [Os1 Os2].
    inversion Ts2; inversion Os2; subst.
    rewrite !length_app in *. cbn [List.length] in *.
    rewrite (wrap_int_id (count e - 1)) by (unfold INT_MIN, INT_MAX in *; lia).
    destruct (Z.eqb_spec (count e - 1) 0) as [Z0|Z0].
    + rewrite wrap_int_id by (unfold INT_MIN, INT_MAX in *; lia).
      unfold table_typed, table_ok; cbn [slaves slave_count].
      rewrite !length_app.
      repeat split; try (unfold INT_MIN, INT_MAX in *; lia);
        apply Forall_app; split; assumption.
    + unfold table_typed, table_ok; cbn [slaves slave_count].
      rewrite !length_app. cbn [List.length].
      repeat split; try lia;
        apply Forall_app; (split; [assumption|]);
        constructor; try assumption; cbn [count set_count];
        unfold INT_MIN, INT_MAX in *; lia.
  - apply find_slave_host_none in F. rewrite remove_walk_none by assumption.
    destruct g. split; split; assumption.
Qed.

Lemma strchr_app (s t : string) (c : ascii) :
  strchr s c = None -> strchr (s ++ String c t)%string c = Some (String.length s).
Proof.
  induction s as [|a s IH]; simpl; intros H.
  - rewrite Ascii.eqb_refl. reflexivity.
  - destruct (Ascii.eqb a c); [discriminate|].
    destruct (strchr s c); [discriminate|]. rewrite IH by reflexivity. reflexivity.
Qed.

Lemma str_take_app (s t : string) : str_take (String.length s) (s ++ t)%string = s.
Proof. induction s as [|a s IH]; simpl; [destruct t; reflexivity|]. rewrite IH. reflexivity. Qed.

Lemma str_drop_app (s t : string) (c : ascii) :
  str_drop (S (String.length s)) (s ++ String c t)%string = t.
Proof. induction s as [|a s IH]; simpl; [reflexivity|]. exact IH. Qed.

(** C9.  The table invariant (slave_count is the number of linked entries,
    every linked entry has count >= 1) holds of the empty table and is kept
    by [slave_host_add] (no counter being at INT_MAX) and by
    [slave_host_remove]; on a header that splits at [':'], add increments
    the count of the first entry with that server and port, or else links a
    new entry with count 1 in front and increments slave_count; remove
    decrements the count of the first such entry and, exactly when it
    reaches 0, unlinks the entry and decrements slave_count. *)
Theorem slave_table_invariant :
  (table_typed empty_table /\ table_ok empty_table)
  /\ (forall client header calloc_ok g,
        table_typed g -> table_ok g -> table_room g ->
        table_typed (slave_host_add client header calloc_ok g)
        /\ table_ok (slave_host_add client header calloc_ok g))
  /\ (forall client g,
        table_typed g -> table_ok g ->
        table_typed (slave_host_remove client g)
        /\ table_ok (slave_host_remove client g))
  /\ (forall c header separator g,
        table_typed g -> table_ok g -> table_room g ->
        strchr header ":" = Some separator ->
        let server0 := str_take separator header in
        let port0 := atoi (str_drop (S separator) header) in
        (forall l1 e l2,
            slaves g = l1 ++ e :: l2 ->
            Forall (fun x => is_host server0 port0 x = false) l1 ->
            is_host server0 port0 e = true ->
            forall calloc_ok,
            slave_host_add (Some c) (Some header) calloc_ok g =
              {| slaves := l1 ++ set_count (count e + 1) e :: l2;
                 slave_count := slave_count g |})
        /\ (Forall (fun x => is_host server0 port0 x = false) (slaves g) ->
            slave_host_add (Some c) (Some header) true g =
              {| slaves := {| server := server0; port := port0; count := 1 |}
                           :: slaves g;
                 slave_count := slave_count g + 1 |}))
  /\ (forall client var separator g,
        table_typed g -> table_ok g ->
        ice_redirect client = Some var ->
        strchr var ":" = Some separator ->
        let server0 := str_take separator var in
        let port0 := atoi (str_drop (S separator) var) in
        (forall l1 e l2,
            slaves g = l1 ++ e :: l2 ->
            Forall (fun x => is_host server0 port0 x = false) l1 ->
            is_host server0 port0 e = true ->
            slave_host_remove client g =
              if count e =? 1
              then {| slaves := l1 ++ l2; slave_count := slave_count g - 1 |}
              else {| slaves := l1 ++ set_count (count e - 1) e :: l2;
                      slave_count := slave_count g |})
        /\ (Forall (fun x => is_host server0 port0 x = false) (slaves g) ->
            slave_host_remove client g = g)).
Proof.
  split; [|split; [|split; [|split]]].
  - unfold table_typed, table_ok, empty_table, INT_MIN, INT_MAX; simpl.
    repeat split; try lia; constructor.
  - intros client header calloc_ok g T O R. unfold slave_host_add.
    destruct client as [c|]; [|auto]. destruct header as [header|]; [|auto].
    destruct (strchr header ":") as [separator|]; [|auto].
    apply add_entry_ok; assumption.
  - intros client g T O. unfold slave_host_remove.
    destruct (ice_redirect client) as [var|]; [|auto].
    destruct (strchr var ":") as [separator|]; [|auto].
    apply remove_entry_ok; assumption.
  - intros c header separator g [Tc Ts] [Oc Os] [Rc Rs] Hsep server0 port0.
    unfold slave_host_add. rewrite Hsep. fold server0 port0. split.
    + intros l1 e l2 E Hl1 He calloc_ok.
      rewrite E, find_slave_host_first, count_incr_at by assumption.
      rewrite E in Ts, Rs. apply Forall_app in Ts, Rs.
      destruct Ts as [_ Ts], Rs as [_ Rs]. inversion Ts; inversion Rs; subst.
      rewrite wrap_int_id by (unfold INT_MIN, INT_MAX in *; lia). reflexivity.
    + intros Hno. apply find_slave_host_none in Hno. rewrite Hno.
      unfold _add_slave_host.
      rewrite wrap_int_id by (unfold INT_MIN, INT_MAX in *; lia). reflexivity.
  - intros client var separator g [Tc Ts] [Oc Os] Hvar Hsep server0 port0.
    unfold slave_host_remove. rewrite Hvar, Hsep. fold server0 port0. split.
    + intros l1 e l2 E Hl1 He.
      rewrite E, remove_walk_at by assumption.
      rewrite E in Ts, Os, Oc. apply Forall_app in Ts, Os.
      destruct Ts as [_ Ts], Os as [_ Os]. inversion Ts; inversion Os; subst.
      rewrite length_app in Oc. cbn [List.length] in Oc.
      rewrite (wrap_int_id (count e - 1)) by (unfold INT_MIN, INT_MAX in *; lia).
      destruct (Z.eqb_spec (count e) 1) as [E1|E1];
        destruct (Z.eqb_spec (count e - 1) 0) as [E0|E0]; try lia; [|reflexivity].
      rewrite wrap_int_id by (unfold INT_MIN, INT_MAX in *; lia). reflexivity.
    + intros Hno. rewrite remove_walk_none by assumption. destruct g; reflexivity.
Qed.

Lemma atoi_no_number (c : ascii) (t : string) :
  isdigit c = false -> isspace c = false -> c <> "-"%char -> c <> "+"%char ->
  atoi (String c t) = 0.
Proof.
  intros D S M P. unfold atoi, strtol. cbn [skip_space]. rewrite S.
  destruct (Ascii.eqb_spec c "-"%char) as [->|_]; [contradiction|].
  destruct (Ascii.eqb_spec c "+"%char) as [->|_]; [contradiction|].
  destruct c as [[] [] [] [] [] [] [] []]; try contradiction; try discriminate;
    reflexivity.
Qed.

(** C10.  [slave_host_add] leaves the table alone for a null client, a
    null header and a header without [':'], and for no other input (while
    memory and counters allow the update); a header [s:t] is split at its
    first [':'] and the port is [atoi t], which is 0 when [t] is empty or
    does not start a number, so that ["host:abc"] and ["host:"] link an
    entry [host], port 0; [slave_host_remove] splits the client's
    ice-redirect value the same way. *)
Theorem slave_host_add_parsing :
  (forall header calloc_ok g, slave_host_add None header calloc_ok g = g)
  /\ (forall client calloc_ok g, slave_host_add client None calloc_ok g = g)
  /\ (forall client header calloc_ok g,
        strchr header ":" = None ->
        slave_host_add client (Some header) calloc_ok g = g)
  /\ (forall c header g,
        table_typed g -> table_ok g -> table_room g ->
        strchr header ":" <> None ->
        slave_host_add (Some c) (Some header) true g <> g)
  /\ (forall c s t calloc_ok g,
        strchr s ":" = None ->
        slave_host_add (Some c) (Some (s ++ ":" ++ t)%string) calloc_ok g =
          match find_slave_host (slaves g) s (atoi t) with
          | Some i => {| slaves := count_incr i (slaves g);
                         slave_count := slave_count g |}
          | None => _add_slave_host calloc_ok s (atoi t) g
          end)
  /\ (atoi "" = 0 /\ atoi "abc" = 0
      /\ forall ch t, isdigit ch = false -> isspace ch = false ->
                      ch <> "-"%char -> ch <> "+"%char -> atoi (String ch t) = 0)
  /\ (forall c,
        slave_host_add (Some c) (Some "host:abc") true empty_table =
          {| slaves := [{| server := "host"; port := 0; count := 1 |}];
             slave_count := 1 |}
        /\ slave_host_add (Some c) (Some "host:") true empty_table =
          {| slaves := [{| server := "host"; port := 0; count := 1 |}];
             slave_count := 1 |})
  /\ (forall client g,
        (ice_redirect client = None -> slave_host_remove client g = g)
        /\ (forall var, ice_redirect client = Some var ->
                        strchr var ":" = None -> slave_host_remove client g = g)
        /\ (forall s t, ice_redirect client = Some (s ++ ":" ++ t)%string ->
                        strchr s ":" = None ->
                        slave_host_remove client g =
                          let '(slaves', unlinked) := remove_walk s (atoi t) (slaves g) in
                          {| slaves := slaves';
                             slave_count := if unlinked
                                            then wrap_int (slave_count g - 1)
                                            else slave_count g |})).
Proof.
  split; [|split; [|split; [|split; [|split; [|split; [|split]]]]]].
  - reflexivity.
  - intros [c|] calloc_ok g; reflexivity.
  - intros [c|] header calloc_ok g H; simpl; [rewrite H|]; reflexivity.
  - intros c header g [Tc Ts] [Oc Os] [Rc Rs] H. unfold slave_host_add.
    destruct (strchr header ":") as [separator|]; [|congruence].
    set (server0 := str_take separator header).
    set (port0 := atoi (str_drop (S separator) header)).
    destruct (find_slave_host (slaves g) server0 port0) as [i|] eqn:F.
    + apply find_slave_host_some in F.
      destruct F as (l1 & e & l2 & E & <- & He & Hl1).
      rewrite E, count_incr_at. intros Hg.
      apply (f_equal slaves) in Hg. cbn [slaves] in Hg. rewrite E in Hg.
      apply app_inv_head in Hg. injection Hg as Hg.
      apply (f_equal count) in Hg. cbn [count set_count] in Hg.
      rewrite E in Ts, Rs. apply Forall_app in Ts, Rs.
      destruct Ts as [_ Ts], Rs as [_ Rs]. inversion Ts; inversion Rs; subst.
      rewrite wrap_int_id in Hg by (unfold INT_MIN, INT_MAX in *; lia). lia.
    + unfold _add_slave_host. intros Hg.
      apply (f_equal slaves) in Hg. cbn [slaves] in Hg.
      apply (f_equal (@List.length _)) in Hg. cbn [List.length] in Hg. lia.
  - intros c s t calloc_ok g H. unfold slave_host_add.
    change (s ++ ":" ++ t)%string with (s ++ String ":" t)%string.
    rewrite (strchr_app s t ":" H), str_take_app, str_drop_app. reflexivity.
  - split; [reflexivity|]. split; [reflexivity|]. apply atoi_no_number.
  - intros c. split; reflexivity.
  - intros client g. split; [|split].
    + intros H. unfold slave_host_remove. rewrite H. reflexivity.
    + intros var H1 H2. unfold slave_host_remove. rewrite H1, H2. reflexivity.
    + intros s t H1 H2. unfold slave_host_remove. rewrite H1.
      change (s ++ ":" ++ t)%string with (s ++ String ":" t)%string.
      rewrite (strchr_app s t ":" H2), str_take_app, str_drop_app. reflexivity.
Qed.

(** The walk stops at the entry with index [which]. *)
Lemma walk_skipn (k : nat) :
  forall slave : list slave_host,
    Z.of_nat k <= INT_MAX -> walk slave (Z.of_nat k) = skipn k slave.
Proof.
  induction k as [|k IH]; intros slave Hk.
  - destruct slave; reflexivity.
  - destruct slave as [|s next]; [reflexivity|].
    cbn [walk skipn]. rewrite Nat2Z.inj_succ in *.
    destruct (Z.eqb_spec (Z.succ (Z.of_nat k)) 0) as [E|_]; [lia|].
    replace (Z.succ (Z.of_nat k) - 1) with (Z.of_nat k) by lia.
    rewrite wrap_int_id by (unfold INT_MIN, INT_MAX in *; lia).
    apply IH. lia.
Qed.

(** For a port of at most four digits the 13 spare bytes suffice and the
    location is whole. *)
Lemma slave_redirect_short_port (mountpoint : string) (slave : slave_host)
    (next : list slave_host) (n : Z) :
  n <> 0 -> 0 <= port slave <= 9999 ->
  strlen mountpoint + strlen (server slave) + 13 <= INT_MAX ->
  slave_redirect mountpoint 0 true {| slaves := slave :: next; slave_count := n |} =
  Some (1, Some ("http://" ++ server slave ++ ":" ++ fmt_d (port slave)
                 ++ mountpoint)%string).
Proof.
  intros Hn Hp Hlen. unfold slave_redirect. cbn [slave_count slaves walk].
  destruct (Z.eqb_spec n 0) as [|_]; [contradiction|]. cbn [Z.eqb].
  unfold strlen in *.
  rewrite wrap_int_id by (unfold INT_MIN, INT_MAX in *; lia).
  unfold snprintf. rewrite str_take_all; [reflexivity|].
  pose proof (fmt_d_length 4 (port slave) ltac:(lia) ltac:(simpl; lia)) as Hd.
  rewrite !string_length_app. simpl String.length. lia.
Qed.

(** For a port of five digits the location is one byte short of the
    text the format describes. *)
Lemma slave_redirect_long_port (mountpoint : string) (slave : slave_host)
    (next : list slave_host) (n : Z) :
  n <> 0 -> 10000 <= port slave <= 65535 ->
  strlen mountpoint + strlen (server slave) + 13 <= INT_MAX ->
  exists location,
    slave_redirect mountpoint 0 true {| slaves := slave :: next; slave_count := n |}
    = Some (1, Some location)
    /\ S (String.length location)
       = String.length ("http://" ++ server slave ++ ":" ++ fmt_d (port slave)
                        ++ mountpoint)%string.
Proof.
  intros Hn Hp Hlen. unfold slave_redirect. cbn [slave_count slaves walk].
  destruct (Z.eqb_spec n 0) as [|_]; [contradiction|]. cbn [Z.eqb].
  unfold strlen in *.
  rewrite wrap_int_id by (unfold INT_MIN, INT_MAX in *; lia).
  eexists. split; [reflexivity|].
  unfold snprintf. rewrite str_take_length, !string_length_app.
  rewrite (fmt_d_five_digits (port slave)) by lia.
  simpl String.length. lia.
Qed.

(** C8, at a port of five digits.  With the single slave host [x:10000] and
    the mount [/m], [slave_redirect] returns 1 and hands
    [http://x:10000/] to [client_send_302]: the buffer of
    [strlen(mountpoint) + strlen(server) + 13] bytes leaves four bytes for
    the port, and [snprintf] cuts the last byte of the mount point; so it
    is for every port from 10000 to 65535.  With ports up to 9999 the
    location is whole; an empty table gives 0 and no response. *)
Theorem slave_redirect_location_cut :
  slave_redirect "/m" 0 true
    {| slaves := [{| server := "x"; port := 10000; count := 1 |}];
       slave_count := 1 |}
  = Some (1, Some "http://x:10000/")
  /\ slave_redirect "/m" 0 true
    {| slaves := [{| server := "x"; port := 65535; count := 1 |}];
       slave_count := 1 |}
  = Some (1, Some "http://x:65535/")
  /\ slave_redirect "/m" 0 true
    {| slaves := [{| server := "x"; port := 8000; count := 1 |}];
       slave_count := 1 |}
  = Some (1, Some "http://x:8000/m")
  /\ slave_redirect "/m" 1 true
    {| slaves := [{| server := "x"; port := 1; count := 1 |};
                  {| server := "y"; port := 2; count := 1 |}];
       slave_count := 2 |}
  = Some (1, Some "http://y:2/m")
  /\ (forall mountpoint slave next n,
        n <> 0 -> 10000 <= port slave <= 65535 ->
        strlen mountpoint + strlen (server slave) + 13 <= INT_MAX ->
        exists location,
          slave_redirect mountpoint 0 true
            {| slaves := slave :: next; slave_count := n |}
          = Some (1, Some location)
          /\ location <> ("http://" ++ server slave ++ ":" ++ fmt_d (port slave)
                          ++ mountpoint)%string)
  /\ (forall mountpoint slave next n,
        n <> 0 -> 0 <= port slave <= 9999 ->
        strlen mountpoint + strlen (server slave) + 13 <= INT_MAX ->
        slave_redirect mountpoint 0 true
          {| slaves := slave :: next; slave_count := n |}
        = Some (1, Some ("http://" ++ server slave ++ ":" ++ fmt_d (port slave)
                         ++ mountpoint)%string))
  /\ (forall (k : nat) (slave : list slave_host),
        Z.of_nat k <= INT_MAX -> walk slave (Z.of_nat k) = skipn k slave)
  /\ (forall mountpoint which malloc_ok,
        slave_redirect mountpoint which malloc_ok empty_table = Some (0, None))
  /\ (forall mountpoint which g,
        slave_redirect mountpoint which false g = Some (0, None)
        \/ slave_redirect mountpoint which false g = None).
Proof.
  split; [vm_compute; reflexivity|].
  split; [vm_compute; reflexivity|].
  split; [vm_compute; reflexivity|].
  split; [vm_compute; reflexivity|].
  split.
  { intros mountpoint slave next n Hn Hp Hlen.
    destruct (slave_redirect_long_port mountpoint slave next n Hn Hp Hlen)
      as (location & E & L).
    exists location. split; [exact E|]. intros ->. lia. }
  split; [apply slave_redirect_short_port|].
  split; [apply walk_skipn|].
  split; [reflexivity|].
  intros mountpoint which g. unfold slave_redirect.
  destruct (slave_count g =? 0); [auto|].
  destruct (walk (slaves g) which); auto.
Qed.

End SlaveHostFacts.

(** ** The relay worker *)

Section WorkerFacts.
Import C Relay Trace Slave.

Variable ICECAST_VERSION_STRING : string.
Variable util_base64_encode : string -> string.

Variable find_source_mount : Source.store -> string -> option nat.
Variable complete_source : Source.store -> nat -> Source.store.
Variable run_source_main : Source.store -> nat -> Source.store.
Variable move_clients : Source.store -> nat -> nat -> Source.store.
Variable clear_source : Source.store -> nat -> Source.store.

Abbreviation relay_request :=
  (Slave.relay_request ICECAST_VERSION_STRING util_base64_encode).
Abbreviation relay_headers := (Slave.relay_headers util_base64_encode).
Abbreviation request_header_lines :=
  (Slave.request_header_lines ICECAST_VERSION_STRING util_base64_encode).
Abbreviation relay_attempt :=
  (Slave.relay_attempt ICECAST_VERSION_STRING util_base64_encode
     complete_source run_source_main).
Abbreviation relay_failed :=
  (Slave.relay_failed find_source_mount move_clients clear_source).
Abbreviation start_relay_stream :=
  (Slave.start_relay_stream ICECAST_VERSION_STRING util_base64_encode
     find_source_mount complete_source run_source_main move_clients clear_source).
Abbreviation handoff_events := (Slave.handoff_events find_source_mount).
Abbreviation store_at_failure := (Slave.store_at_failure complete_source).

Lemma wrap_unsigned_id (z : Z) : 0 <= z < 2 ^ 32 -> wrap_unsigned z = z.
Proof. intros H. unfold wrap_unsigned. apply Z.mod_small. exact H. Qed.

Lemma relay_headers_spec (relay : relay_server) (cfg : Config.ice_config_t) :
  0 <= Config.master_redirect_port cfg <= 65535 ->
  short (Config.hostname cfg) ->
  (forall user pass,
      username relay = Some user -> password relay = Some pass ->
      short user /\ short pass /\ short (util_base64_encode (user ++ ":" ++ pass))) ->
  relay_headers relay cfg =
  match username relay, password relay with
  | Some user, Some pass =>
      (("Authorization: Basic " ++ util_base64_encode (user ++ ":" ++ pass) ++ CRLF)%string,
       if Config.master_redirect_port cfg =? 0 then ""
       else ("ice-redirect: " ++ Config.hostname cfg ++ ":"
             ++ fmt_d (Config.master_redirect_port cfg) ++ CRLF)%string)
  | _, _ => ("", "")
  end.
Proof.
  intros Hport Hhost Hcred. unfold Slave.relay_headers.
  destruct (username relay) as [user|]; [|reflexivity].
  destruct (password relay) as [pass|]; [|reflexivity].
  destruct (Hcred user pass eq_refl eq_refl) as (Hu & Hp & Hb).
  unfold short, strlen in *.
  change (2 ^ 31 - 24) with 2147483624 in *.
  assert (P32 : 2 ^ 32 = 4294967296) by reflexivity.
  rewrite (wrap_unsigned_id (Z.of_nat (String.length user) + Z.of_nat (String.length pass) + 2))
    by (rewrite P32; lia).
  rewrite (snprintf_fits _ (user ++ ":" ++ pass)%string)
    by (unfold strlen; rewrite !string_length_app; simpl String.length; lia).
  rewrite wrap_unsigned_id by (rewrite P32; lia).
  rewrite snprintf_fits
    by (unfold strlen; rewrite !string_length_app; simpl String.length; lia).
  f_equal.
  destruct (Config.master_redirect_port cfg =? 0); [reflexivity|]. cbn [negb].
  rewrite wrap_unsigned_id by (simpl String.length; rewrite P32; lia).
  apply snprintf_fits.
  pose proof (fmt_d_length 5 (Config.master_redirect_port cfg)
                ltac:(lia) ltac:(simpl; lia)) as Hd.
  unfold strlen. rewrite !string_length_app. simpl String.length. lia.
Qed.

(** C4, as the code has it.  For a redirect port in 0..65535 and strings
    short enough for the [unsigned] lengths, the request the worker writes
    is the request line, the header lines and the blank line, in this
    order; among the header lines [Icy-MetaData] is present iff mp3metadata
    is set, [Authorization] iff username and password are both set, and
    [ice-redirect] iff username and password are both set and the redirect
    port is nonzero. *)
Theorem relay_request_headers (relay : relay_server) (cfg : Config.ice_config_t) :
  0 <= Config.master_redirect_port cfg <= 65535 ->
  short (Config.hostname cfg) ->
  (forall user pass,
      username relay = Some user -> password relay = Some pass ->
      short user /\ short pass /\ short (util_base64_encode (user ++ ":" ++ pass))) ->
  relay_request relay cfg =
    ("GET " ++ mount relay ++ " HTTP/1.0" ++ CRLF
     ++ concat_lines (request_header_lines relay cfg) ++ CRLF)%string
  /\ has_header "Icy-MetaData:" (request_header_lines relay cfg)
     = negb (mp3metadata relay =? 0)
  /\ has_header "Authorization:" (request_header_lines relay cfg)
     = has_credentials relay
  /\ has_header "ice-redirect:" (request_header_lines relay cfg)
     = has_credentials relay && negb (Config.master_redirect_port cfg =? 0).
Proof.
  intros Hport Hhost Hcred. split; [|split; [|split]].
  - unfold Slave.relay_request. rewrite relay_headers_spec by assumption.
    unfold Slave.request_header_lines.
    destruct (username relay) as [user|], (password relay) as [pass|];
      destruct (mp3metadata relay =? 0);
      destruct (Config.master_redirect_port cfg =? 0);
      cbn [negb app concat_lines];
      repeat rewrite string_app_assoc; repeat rewrite string_app_nil_r;
      reflexivity.
  - unfold Slave.request_header_lines, has_header.
    destruct (username relay) as [user|], (password relay) as [pass|];
      destruct (mp3metadata relay =? 0);
      destruct (Config.master_redirect_port cfg =? 0); reflexivity.
  - unfold Slave.request_header_lines, has_header, has_credentials.
    destruct (username relay) as [user|], (password relay) as [pass|];
      destruct (mp3metadata relay =? 0);
      destruct (Config.master_redirect_port cfg =? 0); reflexivity.
  - unfold Slave.request_header_lines, has_header, has_credentials.
    destruct (username relay) as [user|], (password relay) as [pass|];
      destruct (mp3metadata relay =? 0);
      destruct (Config.master_redirect_port cfg =? 0); reflexivity.
Qed.

Ltac trace_suffix :=
  eexists; split;
  [ cbn; rewrite <- ?app_assoc; reflexivity | reflexivity ].

Lemma relay_attempt_failure (up : upstream) (relay : relay_server) (src : nat)
    (w : world) (st : stage) :
  failed_at up = Some st ->
  exists w1,
    relay_attempt up relay src w = inr (owns_con st, owns_parser st, w1)
    /\ sources w1 = store_at_failure st src w
    /\ rescan_relays w1 = rescan_relays w
    /\ exists pre, trace w1 = trace w ++ pre
                   /\ forallb (fun e => negb (recovers e)) pre = true.
Proof.
  destruct up as [c h p e cc cs]. unfold failed_at, Slave.relay_attempt.
  cbn [connect_ok header_read_ok parse_ok error_message client_create_ok
       complete_source_ok].
  destruct c; cbn [negb];
    [|intros [= <-]; eexists; repeat split; trace_suffix].
  destruct h; cbn [negb];
    [|intros [= <-]; destruct (username relay), (password relay);
      eexists; repeat split; trace_suffix].
  destruct p; cbn [negb];
    [|intros [= <-]; destruct (username relay), (password relay);
      eexists; repeat split; trace_suffix].
  destruct e as [msg|];
    [intros [= <-]; destruct (username relay), (password relay);
      eexists; repeat split; trace_suffix|].
  destruct cc; cbn [negb];
    [|intros [= <-]; destruct (username relay), (password relay);
      eexists; repeat split; trace_suffix].
  destruct cs; cbn [negb]; [discriminate|].
  intros [= <-]; destruct (username relay), (password relay);
    eexists; repeat split; trace_suffix.
Qed.

Lemma relay_attempt_success (up : upstream) (relay : relay_server) (src : nat)
    (w : world) :
  failed_at up = None ->
  exists w1,
    relay_attempt up relay src w = inl (set_cleanup 1 relay, w1)
    /\ rescan_relays w1 = 1
    /\ exists evs, trace w1 = trace w ++ evs
                   /\ forallb (fun e => negb (recovers e)) evs = true
                   /\ In (source_main src) evs.
Proof.
  destruct up as [c h p e cc cs]. unfold failed_at, Slave.relay_attempt.
  cbn [connect_ok header_read_ok parse_ok error_message client_create_ok
       complete_source_ok].
  destruct c; cbn [negb]; [|discriminate].
  destruct h; cbn [negb]; [|discriminate].
  destruct p; cbn [negb]; [|discriminate].
  destruct e as [msg|]; [discriminate|].
  destruct cc; cbn [negb]; [|discriminate].
  destruct cs; cbn [negb]; [|discriminate].
  intros _.
  destruct (username relay), (password relay), (on_demand relay =? 0);
    eexists; (split; [reflexivity|]); (split; [reflexivity|]);
    eexists; (split; [cbn; rewrite <- ?app_assoc; reflexivity|]);
    (split; [reflexivity|]); cbn; tauto.
Qed.

Lemma relay_failed_spec (relay : relay_server) (src : nat) (con parser : bool)
    (w : world) :
  fst (relay_failed relay src con parser w) = set_cleanup 1 relay
  /\ rescan_relays (snd (relay_failed relay src con parser w)) = 1
  /\ trace (snd (relay_failed relay src con parser w)) =
     trace w ++ handoff_events (sources w) src
     ++ (if con then [connection_close] else [])
     ++ (if parser then [httpp_destroy] else [])
     ++ [source_clear_source src].
Proof.
  unfold Slave.relay_failed, Slave.handoff_events.
  split; [reflexivity|]. split; [reflexivity|].
  destruct (Source.fallback_mount (sources w src)) as [fb|].
  - cbn [sources call].
    destruct (find_source_mount (sources w) fb) as [dest|];
      destruct con, parser; cbn; rewrite <- ?app_assoc; reflexivity.
  - destruct con, parser; cbn; rewrite <- ?app_assoc; reflexivity.
Qed.

(** C7.  A run of the worker that fails at any step before [source_main]
    ends as follows, after calls none of which touches the fallback or
    frees anything: when the source (as the failed step left it) has a
    fallback mount, that mount is looked up between [avl_tree_rlock] and
    [avl_tree_unlock] and, if found, [source_move_clients] moves the
    listeners to it; then the connection is closed if the worker still
    owns it (failure while reading or parsing the header), the parser
    destroyed if it owns it (failure while parsing), the source cleared,
    [cleanup] set to 1 and the rescan flag raised.  Neither after a failed
    nor after a successful [client_create], nor in a run that reaches
    [source_main], does the worker close the connection or destroy the
    parser. *)
Theorem start_relay_stream_failure
    (up : upstream) (relay : relay_server) (src : nat) (w : world) :
  source relay = Some src ->
  (forall st, failed_at up = Some st ->
     exists pre w',
       start_relay_stream up relay w = Some (set_cleanup 1 (set_running 1 relay), w')
       /\ rescan_relays w' = 1
       /\ trace w' =
          trace w ++ pre
          ++ handoff_events (store_at_failure st src w) src
          ++ release_events st
          ++ [source_clear_source src]
       /\ forallb (fun e => negb (recovers e)) pre = true)
  /\ (release_events creating_client = [] /\ release_events completing_source = []
      /\ release_events connecting = []
      /\ release_events reading_header = [connection_close]
      /\ release_events parsing = [connection_close; httpp_destroy]
      /\ release_events parser_error = [connection_close; httpp_destroy])
  /\ (failed_at up = None ->
      exists evs w',
        start_relay_stream up relay w = Some (set_cleanup 1 (set_running 1 relay), w')
        /\ rescan_relays w' = 1
        /\ trace w' = trace w ++ evs
        /\ In (source_main src) evs
        /\ forallb (fun e => negb (releases e)) evs = true).
Proof.
  intros Hsrc. split; [|split].
  - intros st Hst. unfold Slave.start_relay_stream. rewrite Hsrc.
    set (w0 := call (LOG INFO "Starting relayed source at mountpoint %s") w).
    destruct (relay_attempt_failure up (set_running 1 relay) src w0 st Hst)
      as (w1 & -> & Hm & _ & pre & Ht & Hpre).
    pose proof (relay_failed_spec (set_running 1 relay) src (owns_con st)
                  (owns_parser st) w1) as (H1 & H2 & H3).
    destruct (relay_failed (set_running 1 relay) src (owns_con st) (owns_parser st) w1)
      as [relay' w'] eqn:E.
    cbn [fst snd] in H1, H2, H3. subst relay'.
    exists (LOG INFO "Starting relayed source at mountpoint %s" :: pre), w'.
    split; [reflexivity|]. split; [assumption|]. split.
    + rewrite H3, Ht, Hm. subst w0. cbn [trace call].
      replace (store_at_failure st src
                 (call (LOG INFO "Starting relayed source at mountpoint %s") w))
        with (store_at_failure st src w) by (destruct st; reflexivity).
      rewrite <- !app_assoc. cbn [app].
      destruct st; reflexivity.
    + cbn. exact Hpre.
  - repeat split; reflexivity.
  - intros Hok. unfold Slave.start_relay_stream. rewrite Hsrc.
    set (w0 := call (LOG INFO "Starting relayed source at mountpoint %s") w).
    destruct (relay_attempt_success up (set_running 1 relay) src w0 Hok)
      as (w1 & -> & Hr & evs & Ht & Hevs & Hin).
    exists (LOG INFO "Starting relayed source at mountpoint %s" :: evs), w1.
    split; [reflexivity|]. split; [assumption|]. split; [|split].
    + rewrite Ht. subst w0. cbn [trace call]. rewrite <- app_assoc. reflexivity.
    + right. exact Hin.
    + cbn. rewrite forallb_forall in *. intros e He.
      specialize (Hevs e He). destruct e; try reflexivity; discriminate.
Qed.

End WorkerFacts.

(** ** The start policy *)

Section PolicyFacts.
Import C Relay Trace Slave.

Variable mount_proxy : Type.
Variable find_mount : Config.ice_config_t -> string -> option mount_proxy.
Variable update_source_settings :
  Config.ice_config_t -> Source.source_t -> option mount_proxy -> Source.source_t.
Variable reserve_source : Source.store -> string -> option (nat * Source.source_t).
Variable find_source_mount : Source.store -> string -> option nat.
Variable new_thread : string -> string -> option nat.

Abbreviation check_on_demand :=
  (Slave.check_on_demand mount_proxy find_mount update_source_settings find_source_mount).
Abbreviation check_relay_start :=
  (Slave.check_relay_start mount_proxy find_mount update_source_settings
     find_source_mount new_thread).
Abbreviation check_relay_joined :=
  (Slave.check_relay_joined mount_proxy find_mount update_source_settings).
Abbreviation check_relay_stream :=
  (Slave.check_relay_stream mount_proxy find_mount update_source_settings
     reserve_source find_source_mount new_thread).
Abbreviation refreshed := (Slave.refreshed mount_proxy find_mount update_source_settings).
Abbreviation fallback_demand := (Slave.fallback_demand find_source_mount).
Abbreviation override_lookup := (Slave.override_lookup find_source_mount).
Abbreviation demanded := (Slave.demanded find_source_mount).

Lemma update_same (p : nat) (f : Source.source_t -> Source.source_t) (m : Source.store) :
  Source.update p f m p = f (m p).
Proof. unfold Source.update. rewrite Nat.eqb_refl. reflexivity. Qed.

Lemma check_on_demand_spec (relay : relay_server) (source : nat) (w : world) :
  let w1 := fst (check_on_demand relay source w) in
  snd (check_on_demand relay source w)
    = (Source.on_demand_req (demanded (refreshed relay source w) source source) =? 0)
  /\ sources w1 = demanded (refreshed relay source w) source
  /\ update_settings w1 = 1
  /\ rescan_relays w1 = 1
  /\ config w1 = config w
  /\ trace w1 =
     trace w
     ++ [config_get_config; config_find_mount (localmount relay)]
     ++ (match find_mount (config w) (localmount relay) with
         | None => [source_update_settings (Some source) false]
         | Some _ => []
         end)
     ++ [config_release_config;
         stats_event (Some (localmount relay)) (Some "listeners") (Some "0")]
     ++ override_lookup (refreshed relay source w) source.
Proof.
  unfold Slave.check_on_demand, Slave.refreshed, Slave.demanded,
    Slave.override_lookup, Slave.fallback_demand. cbn [config call].
  destruct (find_mount (config w) (localmount relay)) as [mi|];
    cbn [sources call with_sources slave_rebuild_mounts set_rescan_relays
         set_update_settings];
    match goal with
    | |- context [Source.update source (Source.set_on_demand ?v) ?m0] =>
        set (m := Source.update source (Source.set_on_demand v) m0)
    end;
    (destruct (Source.fallback_mount (m source)) as [fb|];
     [destruct (Source.fallback_override (m source) =? 0); cbn [negb andb];
      [|cbn [sources call];
        destruct (find_source_mount m fb) as [f|];
        [destruct (negb (Source.running (m f) =? 0)
                   && negb (Source.listeners (m f) =? 0))|]]|]);
    cbn; rewrite <- ?app_assoc; repeat split; reflexivity.
Qed.

Lemma check_relay_joined_trace (relay : relay_server) (w : world) :
  exists evs,
    trace (snd (check_relay_joined relay w)) = trace w ++ evs
    /\ forallb (fun e => negb (is_thread_create e)) evs = true.
Proof.
  unfold Slave.check_relay_joined.
  destruct (cleanup relay =? 0); cbn [negb andb]; [exists []; rewrite app_nil_r; auto|].
  destruct (thread relay) as [t|]; [|exists []; rewrite app_nil_r; auto].
  cbn [enable set_running set_cleanup set_thread on_demand source localmount].
  destruct (enable relay =? 0).
  - eexists. split; [cbn; rewrite <- ?app_assoc; reflexivity | reflexivity].
  - destruct (on_demand relay =? 0); cbn [negb].
    + eexists. split; [cbn; rewrite <- ?app_assoc; reflexivity | reflexivity].
    + destruct (source relay);
        eexists; (split; [cbn; rewrite <- ?app_assoc; reflexivity | reflexivity]).
Qed.

(** C5, as the code has it.  For a relay with a reserved source, not
    running, enabled and on demand, the start check looks the mount up in
    the configuration and calls [source_update_settings] only when the
    configuration has no entry for it; in both cases it asks for a rebuild
    of the mounts ([update_settings] and [rescan_relays] set), zeroes the
    listener statistic and copies [on_demand] to the source.  It then sets
    [on_demand_req] to 1 when the source has a fallback mount and
    fallback_override and the fallback, looked up between [avl_tree_rlock]
    and [avl_tree_unlock], runs with at least one listener; and it calls
    [thread_create] if and only if [on_demand_req] is then nonzero, going
    on to the completion sweep, which creates no thread, otherwise. *)
Theorem check_relay_stream_on_demand (relay : relay_server) (source : nat) (w : world) :
  Relay.source relay = Some source ->
  running relay = 0 ->
  enable relay <> 0 ->
  on_demand relay <> 0 ->
  let m := demanded (refreshed relay source w) source in
  exists w1,
    sources w1 = m
    /\ update_settings w1 = 1 /\ rescan_relays w1 = 1
    /\ trace w1 =
       trace w
       ++ [config_get_config; config_find_mount (localmount relay)]
       ++ (match find_mount (config w) (localmount relay) with
           | None => [source_update_settings (Some source) false]
           | Some _ => []
           end)
       ++ [config_release_config;
           stats_event (Some (localmount relay)) (Some "listeners") (Some "0")]
       ++ override_lookup (refreshed relay source w) source
    /\ Source.on_demand (m source) = on_demand relay
    /\ (fallback_demand (refreshed relay source w) source = true ->
        Source.on_demand_req (m source) = 1)
    /\ (fallback_demand (refreshed relay source w) source = false ->
        Source.on_demand_req (m source)
        = Source.on_demand_req (refreshed relay source w source))
    /\ check_relay_stream relay w =
       (if Source.on_demand_req (m source) =? 0
        then check_relay_joined relay w1
        else (set_thread (new_thread "Relay Thread" (localmount relay)) relay,
              call (thread_create "Relay Thread" (localmount relay)) w1))
    /\ (forall r w0, exists evs,
          trace (snd (check_relay_joined r w0)) = trace w0 ++ evs
          /\ forallb (fun e => negb (is_thread_create e)) evs = true).
Proof.
  intros Hsrc Hrun Hen Hod m.
  pose proof (check_on_demand_spec relay source w) as (Hstop & Hs & Hu & Hr & _ & Ht).
  exists (fst (check_on_demand relay source w)).
  split; [exact Hs|]. split; [exact Hu|]. split; [exact Hr|]. split; [exact Ht|].
  split; [|split; [|split; [|split]]].
  - subst m. unfold Slave.demanded, Slave.refreshed.
    destruct (Slave.fallback_demand _ _ _); rewrite ?update_same; reflexivity.
  - intros Hd. subst m. unfold Slave.demanded. rewrite Hd, update_same. reflexivity.
  - intros Hd. subst m. unfold Slave.demanded. rewrite Hd. reflexivity.
  - unfold Slave.check_relay_stream. rewrite Hsrc.
    unfold Slave.check_relay_start. rewrite Hsrc, Hrun. cbn [Z.eqb negb].
    destruct (Z.eqb_spec (enable relay) 0) as [|_]; [contradiction|].
    destruct (Z.eqb_spec (on_demand relay) 0) as [|_]; [contradiction|].
    cbn [negb].
    destruct (check_on_demand relay source w) as [w1 stop] eqn:E.
    cbn [fst snd] in *. subst stop. fold m.
    destruct (Source.on_demand_req (m source) =? 0); reflexivity.
  - intros r w0. apply check_relay_joined_trace.
Qed.

End PolicyFacts.

(** ** The master stream list *)

Section MasterFacts.
Import C Relay Trace Slave.

Variable mount_proxy : Type.
Variable find_mount : Config.ice_config_t -> string -> option mount_proxy.
Variable update_source_settings :
  Config.ice_config_t -> Source.source_t -> option mount_proxy -> Source.source_t.
Variable reserve_source : Source.store -> string -> option (nat * Source.source_t).
Variable find_source_mount : Source.store -> string -> option nat.
Variable new_thread : string -> string -> option nat.
Variable free_source : Source.store -> nat -> Source.store.
Variable calloc_ok : nat -> bool.

Abbreviation streamlist_thread :=
  (Slave.streamlist_thread mount_proxy find_mount update_source_settings
     reserve_source find_source_mount new_thread free_source calloc_ok).

Lemma scans_200_iff (line : string) :
  Master.scans_200 line = true <-> sscanf_status line = (1, Some 200).
Proof.
  unfold Master.scans_200. destruct (sscanf_status line) as [converted [code|]].
  - rewrite andb_true_iff, !Z.eqb_eq. split; [intros [-> ->]; reflexivity|].
    intros [= -> ->]. auto.
  - rewrite andb_false_r. split; discriminate.
Qed.

Lemma scans_200_false (line : string) :
  sscanf_status line <> (1, Some 200) -> Master.scans_200 line = false.
Proof.
  intros H. destruct (Master.scans_200 line) eqn:E; [|reflexivity].
  apply scans_200_iff in E. contradiction.
Qed.

Lemma streamlist_header_ok (ptr : string) (master : Master.master_conn_details) :
  (forall line, Master.header_text ptr = Some line ->
                sscanf_status line <> (1, Some 200)) ->
  snd (fst (Master.streamlist_header ptr master)) = master.
Proof.
  intros H. unfold Master.streamlist_header.
  destruct (Master.header_text ptr) as [line|]; [|reflexivity].
  rewrite (scans_200_false line) by (apply H; reflexivity).
  destruct (strncmp line "HTTP" 4 =? 0); reflexivity.
Qed.

Lemma deliver_headers_ok (lines : list string) (master : Master.master_conn_details) :
  (forall ptr, In ptr lines ->
     forall line, Master.header_text ptr = Some line ->
                  sscanf_status line <> (1, Some 200)) ->
  snd (fst (Master.deliver_headers lines master)) = master.
Proof.
  induction lines as [|ptr rest IH]; intros H; [reflexivity|].
  cbn [Master.deliver_headers].
  pose proof (streamlist_header_ok ptr master (H ptr (or_introl eq_refl))) as E.
  destruct (Master.streamlist_header ptr master) as [[ret m'] warned].
  cbn [fst snd] in E. subst m'.
  destruct (ret =? strlen ptr); [|reflexivity].
  specialize (IH (fun p Hp => H p (or_intror Hp))).
  destruct (Master.deliver_headers rest master) as [[go m''] warnings].
  exact IH.
Qed.

Lemma strchr_lt (s : string) (c : ascii) (i : nat) :
  strchr s c = Some i -> (i < String.length s)%nat.
Proof.
  revert i. induction s as [|a s IH]; simpl; intros i H; [discriminate|].
  destruct (Ascii.eqb a c); [injection H as <-; lia|].
  destruct (strchr s c) as [j|]; [|discriminate].
  injection H as <-. specialize (IH j eq_refl). lia.
Qed.

Lemma cstring_length (block : string) :
  (String.length (cstring block) <= String.length block)%nat.
Proof.
  induction block as [|a s IH]; simpl; [lia|].
  destruct (Ascii.eqb a "000"); simpl; lia.
Qed.

Lemma str_drop_length (n : nat) :
  forall s : string, String.length (str_drop n s) = (String.length s - n)%nat.
Proof.
  induction n as [|n IH]; intros [|a s]; simpl; try reflexivity.
  apply IH.
Qed.

(** The fuel [streamlist_data] gives its loop is enough: every round but
    the last consumes at least one byte, and more fuel changes nothing. *)
Lemma streamlist_lines_enough (fuel : nat) :
  forall (buf : string) (master : Master.master_conn_details) (extra : nat),
    (String.length buf < fuel)%nat ->
    Master.streamlist_lines (fuel + extra) buf master
    = Master.streamlist_lines fuel buf master.
Proof.
  induction fuel as [|fuel IH]; intros buf master extra Hlen; [lia|].
  cbn [Nat.add Master.streamlist_lines].
  destruct (strchr (cstring buf) "010") as [eol|] eqn:E; [|reflexivity].
  apply IH. rewrite str_drop_length.
  pose proof (strchr_lt _ _ _ E). pose proof (cstring_length buf). lia.
Qed.

Lemma streamlist_lines_ok (fuel : nat) :
  forall (buf : string) (master : Master.master_conn_details),
    Master.ok (Master.streamlist_lines fuel buf master) = Master.ok master.
Proof.
  induction fuel as [|fuel IH]; intros buf master; [reflexivity|].
  cbn [Master.streamlist_lines].
  destruct (strchr (cstring buf) "010") as [eol|]; [|reflexivity].
  rewrite IH. destruct (strlen _ =? 0); reflexivity.
Qed.

Lemma deliver_body_ok (blocks : list string) :
  forall master : Master.master_conn_details,
    Master.ok (snd (Master.deliver_body blocks master)) = Master.ok master.
Proof.
  induction blocks as [|ptr rest IH]; intros master; [reflexivity|].
  cbn [Master.deliver_body]. unfold Master.streamlist_data.
  destruct (_ =? _); [|apply streamlist_lines_ok].
  rewrite IH. apply streamlist_lines_ok.
Qed.

Lemma log_warnings_spec (format : string) (warned : list bool) :
  forall w : world,
    let w' := log_warnings format warned w in
    master_relays w' = master_relays w /\ relays w' = relays w
    /\ sources w' = sources w
    /\ exists evs, trace w' = trace w ++ evs
                   /\ forallb (fun e => negb (is_commit e)) evs = true.
Proof.
  induction warned as [|b rest IH]; intros w; cbn [log_warnings].
  - repeat split. exists []. rewrite app_nil_r. auto.
  - destruct b.
    + destruct (IH (call (LOG WARN format) w)) as (H1 & H2 & H3 & evs & H4 & H5).
      cbv zeta. rewrite H1, H2, H3. repeat split.
      exists (LOG WARN format :: evs). rewrite H4. cbn [call trace].
      rewrite <- app_assoc. auto.
    + apply IH.
Qed.

Lemma perform_no_200 (resp : Master.response) (url auth : string)
    (master : Master.master_conn_details) (w : world) :
  Master.ok master = 0 ->
  (forall ptr, In ptr (Master.header_lines resp) ->
     forall line, Master.header_text ptr = Some line ->
                  sscanf_status line <> (1, Some 200)) ->
  let '(code, master', w') := perform resp url auth master w in
  Master.ok master' = 0
  /\ master_relays w' = master_relays w /\ relays w' = relays w
  /\ sources w' = sources w
  /\ exists evs, trace w' = trace w ++ evs
                 /\ forallb (fun e => negb (is_commit e)) evs = true.
Proof.
  intros Hok H. unfold perform.
  pose proof (deliver_headers_ok (Master.header_lines resp) master H) as E.
  destruct (Master.deliver_headers (Master.header_lines resp) master)
    as [[go m'] warned]. cbn [fst snd] in E. subst m'.
  pose proof (log_warnings_spec "Failed response from master %s" warned
                (call (curl_easy_perform url auth) w))
    as (H1 & H2 & H3 & evs & H4 & H5).
  assert (Ht : exists evs0,
             trace (log_warnings "Failed response from master %s" warned
                      (call (curl_easy_perform url auth) w)) = trace w ++ evs0
             /\ forallb (fun e => negb (is_commit e)) evs0 = true).
  { exists (curl_easy_perform url auth :: evs). rewrite H4. cbn [call trace].
    rewrite <- app_assoc. auto. }
  destruct go.
  - pose proof (deliver_body_ok (Master.body_blocks resp) master) as Hb.
    destruct (Master.deliver_body (Master.body_blocks resp) master) as [go' m''].
    cbn [snd] in Hb. rewrite Hb. auto.
  - auto.
Qed.

(** C6.  The details [update_from_master] hands to the fetch start with
    [ok] clear.  When the status line of the response (a header line that
    ends in CR or LF and begins with [HTTP]) does not make
    [sscanf (.., "HTTP%*s %d OK", ..)] return 1 with code 200, the header
    callback logs the warning and returns [(size_t) -1], which stops the
    transfer, and [streamlist_thread] leaves the master relay list, the
    static relay list and the sources as they were: it logs the failed
    access and cleans up.  More generally, as long as no header line scans
    as 200 nothing is committed: no lock is taken, no relay started,
    stopped or freed. *)
Theorem streamlist_status_not_200
    (cfg : Config.ice_config_t) (master : Master.master_conn_details)
    (resp : Master.response) (n : nat) (w : world)
    (status line : string) (rest : list string) :
  Master.update_from_master cfg = Some master ->
  Master.header_lines resp = status :: rest ->
  strlen status < Master.SIZE_MAX ->
  Master.header_text status = Some line ->
  strncmp line "HTTP" 4 = 0 ->
  sscanf_status line <> (1, Some 200) ->
  Master.streamlist_header status master = (Master.SIZE_MAX, master, true)
  /\ (exists url auth w',
        streamlist_thread resp n master w = Some w'
        /\ w' = call curl_easy_cleanup
                  (call (LOG WARN "Failed URL access %s (%s)")
                     (call (LOG WARN "Failed response from master %s")
                        (call (curl_easy_perform url auth) w)))
        /\ master_relays w' = master_relays w /\ relays w' = relays w
        /\ sources w' = sources w)
  /\ (forall resp',
        (forall ptr, In ptr (Master.header_lines resp') ->
           forall l, Master.header_text ptr = Some l ->
                     sscanf_status l <> (1, Some 200)) ->
        exists w' evs,
          streamlist_thread resp' n master w = Some w'
          /\ master_relays w' = master_relays w /\ relays w' = relays w
          /\ sources w' = sources w
          /\ trace w' = trace w ++ evs
          /\ forallb (fun e => negb (is_commit e)) evs = true).
Proof.
  intros Hm Hl Hlen Ht Hp Hs.
  assert (Hok : Master.ok master = 0).
  { unfold Master.update_from_master in Hm.
    destruct (Config.master_password cfg), (Config.master_server cfg);
      try discriminate.
    destruct (Config.master_server_port cfg =? 0); [discriminate|].
    injection Hm as <-. reflexivity. }
  assert (Hh : Master.streamlist_header status master = (Master.SIZE_MAX, master, true)).
  { unfold Master.streamlist_header. rewrite Ht, Hp, (scans_200_false line Hs).
    reflexivity. }
  assert (Hne : (Master.SIZE_MAX =? strlen status) = false)
    by (apply Z.eqb_neq; lia).
  split; [exact Hh|]. split.
  - unfold Slave.streamlist_thread, perform.
    destruct (negb (Master.ssl_port master =? 0));
      eexists _, _, _; rewrite Hl; cbn [Master.deliver_headers];
      rewrite Hh, Hne; cbn [log_warnings]; rewrite Hok; cbn;
      repeat split.
  - intros resp' Hno. unfold Slave.streamlist_thread.
    destruct (negb (Master.ssl_port master =? 0));
      match goal with
      | |- context [perform resp' ?url ?auth master w] =>
          pose proof (perform_no_200 resp' url auth master w Hok Hno) as P;
          destruct (perform resp' url auth master w) as [[code m'] w1]
      end;
      destruct P as (Pok & P1 & P2 & P3 & evs & P4 & P5);
      rewrite Pok; cbn [Z.eqb negb];
      (destruct (negb (code =? 0));
       [ exists (call curl_easy_cleanup (call (LOG WARN "Failed URL access %s (%s)") w1)),
           (evs ++ [LOG WARN "Failed URL access %s (%s)"; curl_easy_cleanup])
       | exists (call curl_easy_cleanup w1), (evs ++ [curl_easy_cleanup]) ]);
      cbn [call master_relays relays sources trace];
      rewrite P4, forallb_app, P5, <- ?app_assoc; repeat split; assumption.
Qed.

End MasterFacts.

(** ** The theorems at concrete inputs *)

Section Instances.
Import C Relay Trace Slave Examples.

Lemma nodup_current : NoDup (map localmount [relay_running; relay_other]).
Proof.
  repeat constructor; simpl; intuition discriminate.
Defined.

Lemma nodup_wanted : NoDup (map localmount [wanted_m; wanted_c]).
Proof.
  repeat constructor; simpl; intuition discriminate.
Defined.

(** The running relay [/m] is kept and takes the new [on_demand], [/c] is
    copied with the source handle of its template, [/x] is left for
    cleanup. *)
Lemma update_relay_set_partition_witness :
  update_relay_set (fun _ => true) [relay_running; relay_other]
    [wanted_m; wanted_c] 0
  = Some ([introduce wanted_c; promote wanted_m relay_running],
          [relay_other],
          [wanted_m; set_source None wanted_c],
          1%nat).
Proof.
  exact (proj1 (update_relay_set_partition (fun _ => true)
                  [relay_running; relay_other] [wanted_m; wanted_c] 0
                  (fun _ => eq_refl) nodup_current nodup_wanted)).
Defined.

Lemma update_relays_idempotent_witness :
  exists cleanup1 current1 updated1 n1,
    update_relays (fun _ => true) [relay_running; relay_other]
      [wanted_m; wanted_c] 0
    = Some (cleanup1, current1, updated1, n1)
    /\ update_relays (fun _ => true) current1 updated1 n1
       = Some ([], current1, updated1, n1)
    /\ update_relays (fun _ => true) current1 [wanted_m; wanted_c] n1
       = Some ([], current1, [wanted_m; wanted_c], n1).
Proof.
  exact (update_relays_idempotent (fun _ => true)
           [relay_running; relay_other] [wanted_m; wanted_c] 0
           (fun _ => eq_refl) nodup_wanted).
Defined.

(** [relay_has_changed] on the running relay [/m] against its template
    with [on_demand] switched on: no restart, hot update. *)
Lemma relay_has_changed_material_witness :
  relay_has_changed wanted_m relay_running = (0, set_on_demand 1 relay_running)
  /\ fst (relay_has_changed wanted_c relay_running) = 1.
Proof.
  pose proof (relay_has_changed_material wanted_m relay_running) as (H & _).
  pose proof (relay_has_changed_material wanted_c relay_running) as (_ & H' & _).
  split; [reflexivity|].
  apply H'. left. discriminate.
Defined.

(** C4 as stated fails: the configuration advertises the redirect port
    8001, the relay has no credentials, and the request the worker writes
    carries no [ice-redirect] header. *)
Lemma ice_redirect_needs_credentials :
  Config.master_redirect_port cfg_redirect <> 0
  /\ relay_request "Icecast 2.3.2" base64_id relay_plain cfg_redirect
     = ("GET /live HTTP/1.0" ++ CRLF ++ "User-Agent: Icecast 2.3.2" ++ CRLF
        ++ "Icy-MetaData: 1" ++ CRLF ++ CRLF)%string
  /\ contains "ice-redirect"
       (relay_request "Icecast 2.3.2" base64_id relay_plain cfg_redirect) = false
  /\ ~ (forall (version : string) (b64 : string -> string)
               (relay : relay_server) (cfg : Config.ice_config_t),
          contains "ice-redirect: " (relay_request version b64 relay cfg) = true
          <-> Config.master_redirect_port cfg <> 0).
Proof.
  split; [discriminate|]. split; [reflexivity|]. split; [reflexivity|].
  intros H.
  destruct (H "Icecast 2.3.2" base64_id relay_plain cfg_redirect) as [_ H'].
  assert (E : contains "ice-redirect: "
                (relay_request "Icecast 2.3.2" base64_id relay_plain cfg_redirect)
              = true) by (apply H'; discriminate).
  vm_compute in E. discriminate.
Qed.

Lemma short_literal (s : string) : (strlen s <? 2 ^ 31 - 24) = true -> short s.
Proof. unfold short. apply Z.ltb_lt. Qed.

(** With credentials the same configuration yields all three headers. *)
Lemma relay_request_headers_witness :
  relay_request "Icecast 2.3.2" base64_id relay_auth cfg_redirect
  = ("GET /live HTTP/1.0" ++ CRLF ++ "User-Agent: Icecast 2.3.2" ++ CRLF
     ++ "Icy-MetaData: 1" ++ CRLF
     ++ "ice-redirect: edge.example.org:8001" ++ CRLF
     ++ "Authorization: Basic relay:hackme" ++ CRLF ++ CRLF)%string.
Proof.
  refine (proj1 (relay_request_headers "Icecast 2.3.2" base64_id
                   relay_auth cfg_redirect _ _ _)).
  - simpl. lia.
  - apply short_literal. reflexivity.
  - intros user pass [= <-] [= <-].
    repeat split; apply short_literal; reflexivity.
Defined.

Abbreviation check_relay_stream_ex find :=
  (check_relay_stream unit find Examples.update_source_settings
     Examples.reserve_source Examples.find_source_mount Examples.new_thread).

(** C5 as stated fails: the configuration has an entry for [/live], and
    the start check of the on-demand relay makes no call of
    [source_update_settings]; the source keeps the fallback a refresh would
    have cleared. *)
Lemma on_demand_start_without_refresh :
  let w' := snd (check_relay_stream_ex Examples.find_mount relay_plain world0) in
  existsb is_settings_refresh (trace w') = false
  /\ Source.fallback_mount (sources w' 0%nat) = Some "/backup"
  /\ Source.fallback_mount
       (Examples.update_source_settings cfg_redirect (sources world0 0%nat) (Some tt))
     = None
  /\ update_settings w' = 1
  /\ trace w' =
     [config_get_config; config_find_mount "/live"; config_release_config;
      stats_event (Some "/live") (Some "listeners") (Some "0");
      LOG DEBUG "checking %s for fallback override"; avl_tree_rlock;
      source_find_mount "/backup";
      LOG DEBUG "fallback running %d with %lu listeners"; avl_tree_unlock;
      thread_create "Relay Thread" "/live"].
Proof. repeat split. Qed.

(** The same start check against a configuration without an entry for the
    mount: the settings are refreshed, the fallback is gone, no demand is
    found and no thread is created. *)
Lemma check_relay_stream_on_demand_witness :
  exists w1,
    sources w1 = Slave.demanded Examples.find_source_mount
                   (Slave.refreshed unit find_no_mount
                      Examples.update_source_settings relay_plain 0%nat world0) 0%nat
    /\ trace w1 =
       [config_get_config; config_find_mount "/live";
        source_update_settings (Some 0%nat) false; config_release_config;
        stats_event (Some "/live") (Some "listeners") (Some "0")]
    /\ check_relay_stream_ex find_no_mount relay_plain world0 = (relay_plain, w1).
Proof.
  destruct (check_relay_stream_on_demand unit find_no_mount
              Examples.update_source_settings Examples.reserve_source
              Examples.find_source_mount Examples.new_thread
              relay_plain 0%nat world0 eq_refl eq_refl
              ltac:(discriminate) ltac:(discriminate))
    as (w1 & Hs & _ & _ & Ht & _ & _ & _ & Hc & _).
  exists w1. split; [exact Hs|]. split; [exact Ht|]. exact Hc.
Defined.

(** A 404 from the master: the fetch warns twice, cleans up and leaves the
    relay lists alone. *)
Lemma streamlist_status_not_200_witness :
  exists url auth w',
    Slave.streamlist_thread unit Examples.find_mount Examples.update_source_settings
      Examples.reserve_source Examples.find_source_mount Examples.new_thread
      keep_store (fun _ => true) not_found 0 master0 world0 = Some w'
    /\ w' = call curl_easy_cleanup
              (call (LOG WARN "Failed URL access %s (%s)")
                 (call (LOG WARN "Failed response from master %s")
                    (call (curl_easy_perform url auth) world0)))
    /\ master_relays w' = master_relays world0 /\ relays w' = relays world0
    /\ sources w' = sources world0.
Proof.
  refine (proj1 (proj2 (streamlist_status_not_200 unit Examples.find_mount
            Examples.update_source_settings Examples.reserve_source
            Examples.find_source_mount Examples.new_thread keep_store
            (fun _ => true) cfg_redirect master0 not_found 0 world0
            ("HTTP/1.0 404 Not Found" ++ CRLF)%string "HTTP/1.0 404 Not Found" []
            eq_refl eq_refl _ eq_refl eq_refl _))).
  - vm_compute. reflexivity.
  - vm_compute. discriminate.
Defined.

(** The upstream stops answering while the header is read: the listeners
    go to [/backup] under the read lock, the connection is closed, the
    source cleared. *)
Lemma start_relay_stream_failure_witness :
  exists pre w',
    Slave.start_relay_stream "Icecast 2.3.2" base64_id Examples.find_source_mount
      keep_store keep_store keep_store2 keep_store
      header_read_fails relay_plain world0
    = Some (set_cleanup 1 (set_running 1 relay_plain), w')
    /\ rescan_relays w' = 1
    /\ trace w' =
       trace world0 ++ pre
       ++ [LOG DEBUG "failed relay, fallback to %s"; avl_tree_rlock;
           source_find_mount "/backup"; source_move_clients 0 1; avl_tree_unlock]
       ++ [connection_close]
       ++ [source_clear_source 0%nat]
    /\ forallb (fun e => negb (recovers e)) pre = true.
Proof.
  exact (proj1 (start_relay_stream_failure "Icecast 2.3.2" base64_id
                  Examples.find_source_mount keep_store keep_store keep_store2
                  keep_store header_read_fails relay_plain 0%nat world0 eq_refl)
           reading_header eq_refl).
Defined.

Lemma two_hosts_ok : SlaveHost.table_typed two_hosts /\ SlaveHost.table_ok two_hosts.
Proof.
  unfold SlaveHost.table_typed, SlaveHost.table_ok, two_hosts, INT_MIN, INT_MAX; simpl.
  repeat split; try lia; repeat constructor; simpl; lia.
Defined.

(** The redirect scenario of the design on the table itself: adding
    [x:1] to the empty table and removing a client of [x:1] from a table
    that counts two of them keep the invariant. *)
Lemma slave_table_invariant_witness :
  SlaveHost.table_ok
    (SlaveHost.slave_host_add (Some (SlaveHost.mk_client None)) (Some "x:1") true
       SlaveHost.empty_table)
  /\ SlaveHost.table_ok
       (SlaveHost.slave_host_remove (SlaveHost.mk_client (Some "x:1")) two_hosts)
  /\ SlaveHost.slave_host_remove (SlaveHost.mk_client (Some "x:1")) two_hosts
     = SlaveHost.mk_table [SlaveHost.mk_slave "y" 2 1; SlaveHost.mk_slave "x" 1 1] 2
  /\ SlaveHost.slave_host_remove (SlaveHost.mk_client (Some "y:2")) two_hosts
     = SlaveHost.mk_table [SlaveHost.mk_slave "x" 1 2] 1.
Proof.
  destruct slave_table_invariant as ((T0 & O0) & Hadd & Hrem & _).
  split; [|split; [|split; reflexivity]].
  - apply Hadd; [exact T0 | exact O0 |].
    unfold SlaveHost.table_room, INT_MAX; simpl. split; [lia | constructor].
  - apply Hrem; apply two_hosts_ok.
Defined.

(** ["host:abc"] is taken as host [host], port 0. *)
Lemma slave_host_add_parsing_witness :
  SlaveHost.slave_host_add (Some (SlaveHost.mk_client None)) (Some "host:abc") true
    two_hosts
  = SlaveHost._add_slave_host true "host" 0 two_hosts.
Proof.
  destruct slave_host_add_parsing as (_ & _ & _ & _ & H & _).
  exact (H (SlaveHost.mk_client None) "host" "abc" true two_hosts eq_refl).
Defined.

End Instances.

(** ** More on the reconciler *)

Section ReconcilerMore.
Import C Relay Lookup.

Variable calloc_ok : nat -> bool.

Lemma unlink_first_some_length (d e : relay_server) (current : list relay_server) :
  find (keeps d) current = Some e ->
  List.length current = S (List.length (unlink_first d current)).
Proof.
  induction current as [|x next IH]; simpl; [discriminate|].
  destruct (keeps d x); [reflexivity|]. intros H. simpl. rewrite IH by assumption.
  reflexivity.
Qed.

Lemma owners_cons (p : nat) (r : relay_server) (l : list relay_server) :
  owners p (r :: l) = (owners p [r] + owners p l)%nat.
Proof.
  unfold owners. simpl.
  destruct (source r) as [q|]; [destruct (Nat.eqb q p)|]; reflexivity.
Qed.

Lemma owners_unlink (p : nat) (d e : relay_server) (current : list relay_server) :
  find (keeps d) current = Some e ->
  owners p current = (owners p [e] + owners p (unlink_first d current))%nat.
Proof.
  induction current as [|x next IH]; simpl; [discriminate|].
  destruct (keeps d x).
  - intros [= ->]. apply owners_cons.
  - intros H. rewrite (owners_cons p x next), (owners_cons p x (unlink_first d next)),
      IH by assumption. lia.
Qed.

Lemma owners_promote (p : nat) (d e : relay_server) :
  owners p [promote d e] = owners p [e].
Proof.
  unfold owners, promote. simpl.
  destruct (source e) as [q|]; [destruct (Nat.eqb q p)|]; reflexivity.
Qed.

Lemma owners_introduce (p : nat) (d : relay_server) :
  (owners p [introduce d] + owners p [set_source None d])%nat = owners p [d].
Proof.
  unfold owners. simpl. destruct (source d) as [q|]; [destruct (Nat.eqb q p)|]; reflexivity.
Qed.

(** What one run of the loop does to the number of records and to the
    holders of every source handle, whatever the lists are. *)
Lemma update_relay_loop_accounts :
  forall (updated current new_list : list relay_server) (n : nat)
         (nl c upd : list relay_server) (n' : nat),
    update_relay_loop calloc_ok current updated new_list n = Some (nl, c, upd, n') ->
    (n <= n')%nat
    /\ List.length nl = (List.length new_list + List.length updated)%nat
    /\ List.length upd = List.length updated
    /\ (List.length c + List.length updated = List.length current + (n' - n))%nat
    /\ forall p,
        (owners p current + owners p updated + owners p new_list
         = owners p nl + owners p c + owners p upd)%nat.
Proof.
  induction updated as [|d rest IH]; intros current new_list n nl c upd n' H.
  - cbn [update_relay_loop] in H. injection H as <- <- <- <-.
    repeat split; simpl; try lia.
  - cbn [update_relay_loop] in H. rewrite scan_existing_spec in H.
    destruct (find (keeps d) current) as [e|] eqn:F; cbn [option_map] in H.
    + destruct (update_relay_loop calloc_ok (unlink_first d current) rest
                  (promote d e :: new_list) n) as [[[[nl0 c0] upd0] n0]|] eqn:E;
        [|discriminate].
      injection H as <- <- <- <-.
      destruct (IH _ _ _ _ _ _ _ E) as (H1 & H2 & H3 & H4 & H5).
      pose proof (unlink_first_some_length d e current F) as L.
      cbn [List.length] in *.
      repeat split; try lia.
      intros p. specialize (H5 p).
      rewrite (owners_unlink p d e current F).
      rewrite (owners_cons p d rest), (owners_cons p d upd0).
      rewrite (owners_cons p (promote d e) new_list), owners_promote in H5. lia.
    + destruct (relay_copy (calloc_ok n) d) as [[copy|] d'] eqn:C; [|discriminate].
      unfold relay_copy in C. destruct (calloc_ok n); [|discriminate].
      injection C as <- <-.
      destruct (update_relay_loop calloc_ok (unlink_first d current) rest
                  (_ :: new_list) (S n)) as [[[[nl0 c0] upd0] n0]|] eqn:E;
        [|discriminate].
      injection H as <- <- <- <-.
      destruct (IH _ _ _ _ _ _ _ E) as (H1 & H2 & H3 & H4 & H5).
      rewrite (unlink_first_none d current F) in *.
      cbn [List.length] in *.
      repeat split; try lia.
      intros p. specialize (H5 p).
      rewrite (owners_cons p d rest), (owners_cons p _ upd0).
      rewrite (owners_cons p _ new_list) in H5.
      pose proof (owners_introduce p d) as Hi.
      unfold introduce in Hi.
      replace (match username d with Some u => Some u | None => None end)
        with (username d) in H5 by (destruct (username d); reflexivity).
      replace (match password d with Some u => Some u | None => None end)
        with (password d) in H5 by (destruct (password d); reflexivity).
      lia.
Qed.

(** X1.  Whatever the two lists are, when [update_relays] returns, the
    active list has one record per record of [updated], and the records
    left for cleanup are those of [current] minus the promoted ones: the
    number of records grows by the number of allocations made. *)
Theorem update_relays_accounts
    (current updated cleanup active upd : list relay_server) (n n' : nat) :
  update_relays calloc_ok current updated n = Some (cleanup, active, upd, n') ->
  (n <= n')%nat
  /\ List.length active = List.length updated
  /\ List.length upd = List.length updated
  /\ (List.length cleanup + List.length active
      = List.length current + (n' - n))%nat.
Proof.
  unfold update_relays, update_relay_set. intros H.
  destruct (update_relay_loop calloc_ok current updated [] n)
    as [[[[nl c] u] m]|] eqn:E; [|discriminate].
  injection H as <- <- <- <-.
  destruct (update_relay_loop_accounts _ _ _ _ _ _ _ _ E) as (H1 & H2 & H3 & H4 & _).
  cbn [List.length] in H2. repeat split; lia.
Qed.

(** X2.  [update_relays] neither duplicates nor drops a source handle:
    for every source, the records that hold it before (in [current] and in
    [updated]) are as many as the records that hold it after (in the
    active list, the cleanup list and [updated] as it is left). *)
Theorem update_relays_keeps_handles
    (current updated cleanup active upd : list relay_server) (n n' : nat) :
  update_relays calloc_ok current updated n = Some (cleanup, active, upd, n') ->
  forall p,
    (owners p current + owners p updated
     = owners p active + owners p cleanup + owners p upd)%nat.
Proof.
  unfold update_relays, update_relay_set. intros H p.
  destruct (update_relay_loop calloc_ok current updated [] n)
    as [[[[nl c] u] m]|] eqn:E; [|discriminate].
  injection H as <- <- <- <-.
  destruct (update_relay_loop_accounts _ _ _ _ _ _ _ _ E) as (_ & _ & _ & _ & H5).
  specialize (H5 p). unfold owners at 3 in H5. simpl in H5. lia.
Qed.

Lemma update_relay_loop_fresh :
  forall (updated new_list : list relay_server) (n : nat),
    (forall i, (n <= i < n + List.length updated)%nat -> calloc_ok i = true) ->
    update_relay_loop calloc_ok [] updated new_list n =
    Some (rev (map introduce updated) ++ new_list, [],
          map (set_source None) updated, (n + List.length updated)%nat).
Proof.
  induction updated as [|d rest IH]; intros new_list n Hmem.
  - simpl. rewrite Nat.add_0_r. reflexivity.
  - cbn [update_relay_loop scan_existing]. cbn [List.length] in Hmem.
    rewrite (Hmem n) by lia. rewrite relay_copy_ok.
    rewrite IH by (intros i Hi; apply Hmem; lia).
    cbn [map rev List.length]. rewrite <- app_assoc, Nat.add_succ_r. reflexivity.
Qed.

(** X3.  The ends of the reconciler.  With nothing asked for, every
    current record is handed back for cleanup, in order, and the active
    list is empty.  With nothing running, every record asked for is copied
    (one allocation each), in reverse order, and its template loses its
    source handle.  And when the record at the head of [updated] is not
    kept and its allocation fails, the run has no result: the code
    dereferences the NULL that [relay_copy] returned. *)
Theorem update_relays_ends :
  (forall current n,
      update_relays calloc_ok current [] n = Some (current, [], [], n))
  /\ (forall updated n,
        (forall i, (n <= i < n + List.length updated)%nat -> calloc_ok i = true) ->
        update_relays calloc_ok [] updated n =
        Some ([], rev (map introduce updated), map (set_source None) updated,
              (n + List.length updated)%nat))
  /\ (forall current d rest n,
        find (keeps d) current = None -> calloc_ok n = false ->
        update_relays calloc_ok current (d :: rest) n = None).
Proof.
  split; [reflexivity|]. split.
  - intros updated n Hmem. unfold update_relays, update_relay_set.
    rewrite update_relay_loop_fresh by assumption. rewrite app_nil_r. reflexivity.
  - intros current d rest n F M. unfold update_relays, update_relay_set.
    cbn [update_relay_loop]. rewrite scan_existing_spec, F. cbn [option_map].
    unfold relay_copy. rewrite M. reflexivity.
Qed.

Lemma slave_find_relay_find (relays : list relay_server) (mount : string) :
  slave_find_relay relays mount
  = find (fun r => String.eqb (localmount r) mount) relays.
Proof.
  induction relays as [|r next IH]; simpl; [reflexivity|].
  rewrite strcmp_eqb, IH. reflexivity.
Qed.

(** X4.  After [update_relays] on an updated list with unique local
    mounts, [slave_find_relay] on the new active list finds, for every
    record asked for, a record with its local mount, server, mount, port,
    mp3metadata and on_demand, and finds nothing under any other mount. *)
Theorem slave_find_relay_after_update
    (current updated cleanup active upd : list relay_server) (n n' : nat) :
  (forall i, calloc_ok i = true) ->
  NoDup (map localmount updated) ->
  update_relays calloc_ok current updated n = Some (cleanup, active, upd, n') ->
  (forall d, In d updated ->
     exists x, slave_find_relay active (localmount d) = Some x
               /\ localmount x = localmount d /\ server x = server d
               /\ mount x = mount d /\ port x = port d
               /\ mp3metadata x = mp3metadata d /\ on_demand x = on_demand d)
  /\ (forall m, (forall d, In d updated -> localmount d <> m) ->
                slave_find_relay active m = None).
Proof.
  intros Hmem ND H. unfold update_relays, update_relay_set in H.
  destruct (update_relay_loop_shape calloc_ok Hmem updated current [] n)
    as (nl & c & u & m0 & E & H1 & _).
  rewrite E in H. rewrite app_nil_r in H. injection H as <- <- <- <-.
  assert (NDa : NoDup (map localmount nl)).
  { pose proof (settled_localmounts _ _ H1) as L. rewrite map_rev in L.
    rewrite <- (rev_involutive (map localmount nl)), L. apply NoDup_rev. exact ND. }
  split.
  - intros d Hd.
    destruct (Forall2_In_l _ _ _ H1 d Hd) as (x & Hx & K & Ho).
    apply in_rev in Hx. exists x.
    pose proof (keeps_localmount d x K) as Hl.
    assert (F : slave_find_relay nl (localmount d) = Some x).
    { rewrite slave_find_relay_find.
      destruct (find (fun r => String.eqb (localmount r) (localmount d)) nl)
        as [y|] eqn:F.
      - apply find_some in F. destruct F as [Hy Ey]. apply String.eqb_eq in Ey.
        f_equal. apply (NoDup_map_inj localmount nl); auto. congruence.
      - pose proof (find_none _ _ F x Hx) as N. cbv beta in N.
        rewrite <- Hl, String.eqb_refl in N. discriminate. }
    unfold keeps, materially_equivalent in K.
    rewrite !andb_true_iff, !String.eqb_eq, !Z.eqb_eq in K.
    destruct K as (_ & ((Ks & Km) & Kp) & Kmp).
    repeat split; auto.
  - intros m Hm. rewrite slave_find_relay_find.
    destruct (find (fun r => String.eqb (localmount r) m) nl) as [y|] eqn:F;
      [|reflexivity].
    apply find_some in F. destruct F as [Hy Ey]. apply String.eqb_eq in Ey.
    apply in_rev in Hy.
    destruct (Forall2_In_r _ _ _ H1 y Hy) as (d & Hd & K & _).
    exfalso. apply (Hm d Hd). rewrite (keeps_localmount d y K). exact Ey.
Qed.

End ReconcilerMore.

(** ** More on the slave host table *)

Section SlaveHostMore.
Import C SlaveHost HostKeys.

Lemma is_host_key (server0 : string) (port0 : Z) (s : slave_host) :
  is_host server0 port0 s = true <-> host_key s = (server0, port0).
Proof.
  unfold is_host, host_key. rewrite andb_true_iff, strcmp_eqb, String.eqb_eq, Z.eqb_eq.
  split; [intros [-> ->]; reflexivity | intros [= -> ->]; auto].
Qed.

Lemma is_host_self (s : slave_host) : is_host (server s) (port s) s = true.
Proof. apply is_host_key. reflexivity. Qed.

Lemma set_count_same (s : slave_host) : set_count (count s) s = s.
Proof. destruct s; reflexivity. Qed.

(** X5.  Adding a client of a host and removing it again leaves the table
    as it was, entry for entry: on a table that keeps the invariant, with
    no counter at INT_MAX, [slave_host_remove] undoes [slave_host_add] for
    every header. *)
Theorem slave_host_add_remove (c : client_t) (header : string) (g : slave_table) :
  table_typed g -> table_ok g -> table_room g ->
  slave_host_remove {| ice_redirect := Some header |}
    (slave_host_add (Some c) (Some header) true g) = g.
Proof.
  intros [Tc Ts] [Oc Os] [Rc Rs]. unfold slave_host_add, slave_host_remove.
  cbn [ice_redirect].
  destruct (strchr header ":") as [separator|] eqn:Hsep; [|reflexivity].
  set (server0 := str_take separator header).
  set (port0 := atoi (str_drop (S separator) header)).
  destruct (find_slave_host (slaves g) server0 port0) as [i|] eqn:F.
  - apply find_slave_host_some in F.
    destruct F as (l1 & e & l2 & E & <- & He & Hl1).
    cbn [slaves slave_count]. rewrite E, count_incr_at.
    rewrite E in Ts, Os, Rs. apply Forall_app in Ts, Os, Rs.
    destruct Ts as [_ Ts], Os as [_ Os], Rs as [_ Rs].
    inversion Ts; inversion Os; inversion Rs; subst.
    rewrite remove_walk_at; [|assumption|exact He].
    cbn [count set_count].
    rewrite (wrap_int_id (count e + 1)) by (unfold INT_MIN, INT_MAX in *; lia).
    replace (count e + 1 - 1) with (count e) by lia.
    rewrite wrap_int_id by (unfold INT_MIN, INT_MAX in *; lia).
    destruct (Z.eqb_spec (count e) 0) as [Z0|_]; [lia|].
    unfold set_count. cbn [server port]. fold (set_count (count e) e).
    rewrite set_count_same. destruct g as [sl sc]. cbn [slaves slave_count] in *.
    rewrite E. reflexivity.
  - unfold _add_slave_host. cbn [slaves slave_count remove_walk].
    assert (Hh : is_host server0 port0
                   {| server := server0; port := port0; count := 1 |} = true)
      by (apply is_host_key; reflexivity).
    rewrite Hh. cbn [count].
    change (wrap_int (1 - 1) =? 0) with true. cbn iota.
    assert (0 <= slave_count g) by lia.
    rewrite (wrap_int_id (slave_count g + 1)) by (unfold INT_MIN, INT_MAX in *; lia).
    replace (slave_count g + 1 - 1) with (slave_count g) by lia.
    rewrite wrap_int_id by (unfold INT_MIN, INT_MAX in *; lia).
    destruct g; reflexivity.
Qed.

Lemma count_incr_keys (i : nat) :
  forall l : list slave_host, map host_key (count_incr i l) = map host_key l.
Proof.
  induction i as [|i IH]; intros [|s next]; simpl; try reflexivity.
  rewrite IH. reflexivity.
Qed.

Lemma remove_walk_keys (server0 : string) (port0 : Z) (l : list slave_host) :
  (forall k, In k (map host_key (fst (remove_walk server0 port0 l))) ->
             In k (map host_key l))
  /\ (NoDup (map host_key l) ->
      NoDup (map host_key (fst (remove_walk server0 port0 l)))).
Proof.
  induction l as [|s next [IHin IHnd]]; simpl; [auto|].
  destruct (is_host server0 port0 s).
  - destruct (wrap_int (count s - 1) =? 0); cbn [fst map]; split.
    + intros k Hk. right. exact Hk.
    + intros ND. inversion ND; assumption.
    + intros k Hk. exact Hk.
    + intros ND. exact ND.
  - destruct (remove_walk server0 port0 next) as [next' u]. cbn [fst map] in *.
    split.
    + intros k [Hk|Hk]; [left; exact Hk | right; apply IHin; exact Hk].
    + intros ND. inversion ND as [|? ? Hnin ND']; subst.
      constructor; [|apply IHnd; exact ND'].
      intros Hin. apply Hnin. apply IHin. exact Hin.
Qed.

Lemma add_host_keys (calloc_ok : bool) (server0 : string) (port0 : Z) (g : slave_table) :
  find_slave_host (slaves g) server0 port0 = None ->
  distinct_hosts g -> distinct_hosts (_add_slave_host calloc_ok server0 port0 g).
Proof.
  intros F ND. unfold _add_slave_host. destruct calloc_ok; [|exact ND].
  unfold distinct_hosts. cbn [slaves map]. constructor; [|exact ND].
  intros Hin. apply in_map_iff in Hin. destruct Hin as (x & Hk & Hx).
  apply find_slave_host_none in F. rewrite Forall_forall in F.
  specialize (F x Hx). apply is_host_key in Hk. cbn [host_key server port] in Hk.
  congruence.
Qed.

(** X6.  The table never holds two entries for the same server and port:
    [slave_host_add], [slave_host_remove] and [update_master_as_slave]
    keep the entries distinct, whatever header, client and allocation
    outcome they get. *)
Theorem slave_hosts_stay_distinct (g : slave_table) :
  distinct_hosts g ->
  (forall client header calloc_ok,
      distinct_hosts (slave_host_add client header calloc_ok g))
  /\ (forall client, distinct_hosts (slave_host_remove client g))
  /\ (forall master_server master_server_port master_redirect_port calloc_ok,
        distinct_hosts (update_master_as_slave master_server master_server_port
                          master_redirect_port calloc_ok g)).
Proof.
  intros ND. split; [|split].
  - intros client header calloc_ok. unfold slave_host_add.
    destruct client as [c|]; [|exact ND]. destruct header as [header|]; [|exact ND].
    destruct (strchr header ":") as [separator|]; [|exact ND].
    destruct (find_slave_host (slaves g) _ _) as [i|] eqn:F.
    + unfold distinct_hosts. cbn [slaves]. rewrite count_incr_keys. exact ND.
    + apply add_host_keys; assumption.
  - intros client. unfold slave_host_remove.
    destruct (ice_redirect client) as [var|]; [|exact ND].
    destruct (strchr var ":") as [separator|]; [|exact ND].
    pose proof (remove_walk_keys (str_take separator var)
                  (atoi (str_drop (S separator) var)) (slaves g)) as [_ H].
    destruct (remove_walk _ _ (slaves g)) as [slaves' unlinked].
    unfold distinct_hosts. cbn [slaves fst] in *. apply H. exact ND.
  - intros ms msp mrp calloc_ok. unfold update_master_as_slave.
    destruct ms as [ms|]; [|exact ND]. destruct (mrp =? 0); [exact ND|].
    destruct (find_slave_host (slaves g) ms msp) as [i|] eqn:F; [exact ND|].
    apply add_host_keys; assumption.
Qed.

Lemma find_none_app (l1 l2 : list slave_host) (server0 : string) (port0 : Z) :
  Forall (fun x => is_host server0 port0 x = false) l1 ->
  Forall (fun x => is_host server0 port0 x = false) l2 ->
  find_slave_host (l1 ++ l2) server0 port0 = None.
Proof.
  intros H1 H2. apply find_slave_host_none. apply Forall_app. auto.
Qed.

(** X7.  Lookup after insertion and after removal.  Once [slave_host_add]
    has taken a header [s:t] (and memory was there), [find_slave_host]
    finds the host [s], port [atoi t].  Once [slave_host_remove] has taken
    the last client of a host away (count 1, entries distinct),
    [find_slave_host] finds that host no more; with more clients left it
    still finds it, with one client less. *)
Theorem find_slave_host_after (s t : string) (g : slave_table) :
  strchr s ":" = None ->
  (forall c,
      find_slave_host
        (slaves (slave_host_add (Some c) (Some (s ++ ":" ++ t)%string) true g))
        s (atoi t) <> None)
  /\ (forall l1 e l2,
        distinct_hosts g -> table_typed g -> table_ok g ->
        slaves g = l1 ++ e :: l2 -> is_host s (atoi t) e = true ->
        let g' := slave_host_remove {| ice_redirect := Some (s ++ ":" ++ t)%string |} g in
        (count e = 1 -> find_slave_host (slaves g') s (atoi t) = None)
        /\ (count e <> 1 ->
            slaves g' = l1 ++ set_count (count e - 1) e :: l2
            /\ find_slave_host (slaves g') s (atoi t) = Some (List.length l1))).
Proof.
  intros Hs. split.
  - intros c. unfold slave_host_add.
    change (s ++ ":" ++ t)%string with (s ++ String ":" t)%string.
    rewrite (strchr_app s t ":" Hs), str_take_app, str_drop_app.
    destruct (find_slave_host (slaves g) s (atoi t)) as [i|] eqn:F.
    + cbn [slaves]. apply find_slave_host_some in F.
      destruct F as (l1 & e & l2 & E & <- & He & Hl1).
      rewrite E, count_incr_at, find_slave_host_first; [discriminate|assumption|].
      exact He.
    + unfold _add_slave_host. cbn [slaves find_slave_host].
      assert (Hh : is_host s (atoi t)
                     {| server := s; port := atoi t; count := 1 |} = true)
        by (apply is_host_key; reflexivity).
      rewrite Hh. discriminate.
  - intros l1 e l2 ND [_ Ts] [_ Os] E He g'.
    assert (Hk : host_key e = (s, atoi t)) by (apply is_host_key; exact He).
    unfold distinct_hosts in ND. rewrite E, map_app in ND. cbn [map] in ND.
    assert (H1 : Forall (fun x => is_host s (atoi t) x = false) l1).
    { apply Forall_forall. intros x Hx.
      destruct (is_host s (atoi t) x) eqn:Hx'; [|reflexivity].
      apply is_host_key in Hx'. exfalso.
      apply NoDup_remove_2 in ND. apply ND. apply in_or_app. left.
      rewrite Hk, <- Hx'. apply in_map. exact Hx. }
    assert (H2 : Forall (fun x => is_host s (atoi t) x = false) l2).
    { apply Forall_forall. intros x Hx.
      destruct (is_host s (atoi t) x) eqn:Hx'; [|reflexivity].
      apply is_host_key in Hx'. exfalso.
      apply NoDup_remove_2 in ND. apply ND. apply in_or_app. right.
      rewrite Hk, <- Hx'. apply in_map. exact Hx. }
    rewrite E in Ts, Os. apply Forall_app in Ts, Os.
    destruct Ts as [_ Ts], Os as [_ Os].
    inversion Ts as [|? ? Te _]; inversion Os as [|? ? Oe _]; subst.
    subst g'. unfold slave_host_remove. cbn [ice_redirect].
    change (s ++ ":" ++ t)%string with (s ++ String ":" t)%string.
    rewrite (strchr_app s t ":" Hs), str_take_app, str_drop_app.
    rewrite E, remove_walk_at by assumption.
    rewrite (wrap_int_id (count e - 1)) by (unfold INT_MIN, INT_MAX in *; lia).
    split.
    + intros C1. rewrite C1. cbn [Z.sub Z.eqb Z.add Z.opp Z.pos_sub].
      cbn [slaves]. apply find_none_app; assumption.
    + intros C1.
      destruct (Z.eqb_spec (count e - 1) 0) as [|_]; [lia|].
      cbn [slaves]. split; [reflexivity|].
      apply find_slave_host_first; [assumption|].
      apply is_host_key. exact Hk.
Qed.

Lemma update_master_as_slave_twice
    (master_server : option string) (master_server_port master_redirect_port : Z)
    (calloc_ok : bool) (g : slave_table) :
  update_master_as_slave master_server master_server_port master_redirect_port
    calloc_ok
    (update_master_as_slave master_server master_server_port master_redirect_port
       calloc_ok g)
  = update_master_as_slave master_server master_server_port master_redirect_port
      calloc_ok g.
Proof.
  unfold update_master_as_slave.
  destruct master_server as [ms|]; [|reflexivity].
  destruct (master_redirect_port =? 0); [reflexivity|].
  destruct (find_slave_host (slaves g) ms master_server_port) as [i|] eqn:F.
  - rewrite F. reflexivity.
  - unfold _add_slave_host. destruct calloc_ok; [|rewrite F; reflexivity].
    cbn [slaves find_slave_host].
    rewrite (proj2 (is_host_key ms master_server_port
                      {| server := ms; port := master_server_port; count := 1 |})
               eq_refl).
    reflexivity.
Qed.

(** X8.  [update_master_as_slave] registers the master once: with no
    master or no redirect port in the configuration it does nothing; when
    the master's host is in the table already it changes nothing, not even
    the count; otherwise it links the host with count 1.  Running it again
    on its own result changes nothing, so the periodic call of the
    supervisor never accumulates references. *)
Theorem update_master_as_slave_once
    (master_server : option string) (master_server_port master_redirect_port : Z)
    (calloc_ok : bool) (g : slave_table) :
  let again := update_master_as_slave master_server master_server_port
                 master_redirect_port calloc_ok in
  again (again g) = again g
  /\ (master_server = None \/ master_redirect_port = 0 -> again g = g)
  /\ (forall ms i, master_server = Some ms ->
        find_slave_host (slaves g) ms master_server_port = Some i -> again g = g)
  /\ (forall ms, master_server = Some ms -> master_redirect_port <> 0 ->
        find_slave_host (slaves g) ms master_server_port = None ->
        calloc_ok = true ->
        again g = {| slaves := {| server := ms; port := master_server_port;
                                  count := 1 |} :: slaves g;
                     slave_count := wrap_int (slave_count g + 1) |}).
Proof.
  cbv zeta. unfold update_master_as_slave.
  destruct master_server as [ms|].
  2:{ split; [reflexivity|]. split; [reflexivity|].
      split; intros; discriminate. }
  destruct (Z.eqb_spec master_redirect_port 0) as [Z0|Z0].
  { split; [reflexivity|]. split; [reflexivity|]. split; [reflexivity|].
    intros ms' _ N. contradiction. }
  destruct (find_slave_host (slaves g) ms master_server_port) as [i|] eqn:F.
  - rewrite F. split; [reflexivity|]. split; [|split].
    + intros [H|H]; [discriminate|contradiction].
    + reflexivity.
    + intros ms' [= <-] _ F'. rewrite F in F'. discriminate.
  - split; [|split; [|split]].
    + unfold _add_slave_host. destruct calloc_ok; [|rewrite F; reflexivity].
      cbn [slaves find_slave_host].
      rewrite (proj2 (is_host_key ms master_server_port
                        {| server := ms; port := master_server_port; count := 1 |})
                 eq_refl).
      reflexivity.
    + intros [H|H]; [discriminate|contradiction].
    + intros ms' i [= <-] F'. rewrite F in F'. discriminate.
    + intros ms' [= <-] _ _ ->. reflexivity.
Qed.

Lemma skipn_nth_error {A : Type} (k : nat) :
  forall (l : list A) (x : A),
    nth_error l k = Some x -> exists tl, skipn k l = x :: tl.
Proof.
  induction k as [|k IH]; intros [|a l] x H; simpl in *; try discriminate.
  - injection H as ->. eauto.
  - apply IH. exact H.
Qed.

(** X9.  On a table that keeps the invariant, [slave_redirect] with an
    index inside [0, slave_count) answers with the entry at that index and
    returns 1 (0 and no answer when [malloc] fails): the walk cannot run off
    the list.  With an index from [slave_count] upwards the walk ends on
    NULL, which the debug line that follows dereferences. *)
Theorem slave_redirect_in_range (mountpoint : string) (which : Z) (g : slave_table) :
  table_ok g -> slave_count g <= INT_MAX ->
  (0 <= which < slave_count g ->
     exists slave,
       nth_error (slaves g) (Z.to_nat which) = Some slave
       /\ slave_redirect mountpoint which true g =
          Some (1, Some (snprintf
                           (wrap_int (strlen mountpoint + strlen (server slave) + 13))
                           ("http://" ++ server slave ++ ":" ++ fmt_d (port slave)
                            ++ mountpoint)%string))
       /\ slave_redirect mountpoint which false g = Some (0, None))
  /\ (0 < slave_count g <= which -> which <= INT_MAX ->
      forall malloc_ok, slave_redirect mountpoint which malloc_ok g = None).
Proof.
  intros [Oc _] Hmax. split.
  - intros Hw.
    assert (Hlt : (Z.to_nat which < List.length (slaves g))%nat) by lia.
    destruct (nth_error (slaves g) (Z.to_nat which)) as [slave|] eqn:N;
      [|apply nth_error_None in N; lia].
    exists slave. split; [reflexivity|].
    destruct (skipn_nth_error _ _ _ N) as (tl & Hs).
    unfold slave_redirect.
    destruct (Z.eqb_spec (slave_count g) 0) as [|_]; [lia|].
    assert (W : walk (slaves g) which = skipn (Z.to_nat which) (slaves g)).
    { rewrite <- walk_skipn by (rewrite Z2Nat.id; lia).
      rewrite Z2Nat.id by lia. reflexivity. }
    rewrite W, Hs. split; reflexivity.
  - intros Hw Hi malloc_ok. unfold slave_redirect.
    destruct (Z.eqb_spec (slave_count g) 0) as [|_]; [lia|].
    assert (W : walk (slaves g) which = skipn (Z.to_nat which) (slaves g)).
    { rewrite <- walk_skipn by (rewrite Z2Nat.id; lia).
      rewrite Z2Nat.id by lia. reflexivity. }
    rewrite W, skipn_all2 by lia. reflexivity.
Qed.

End SlaveHostMore.

(** ** More on the master stream list *)

Section MasterMore.
Import C Relay Trace Slave Lines.

Lemma strchr_take_none (s : string) (c : ascii) (n : nat) :
  strchr s c = None -> strchr (str_take n s) c = None.
Proof.
  revert n. induction s as [|a s IH]; intros [|n] H; simpl in *; try reflexivity.
  destruct (Ascii.eqb a c); [discriminate|].
  destruct (strchr s c) eqn:E; [discriminate|]. rewrite IH by reflexivity. reflexivity.
Qed.

Lemma strchr_take_before (s : string) (c : ascii) (i : nat) :
  strchr s c = Some i -> strchr (str_take i s) c = None.
Proof.
  revert i. induction s as [|a s IH]; intros i H; simpl in *; [discriminate|].
  destruct (Ascii.eqb a c) eqn:E; [injection H as <-; reflexivity|].
  destruct (strchr s c) as [j|] eqn:F; [|discriminate].
  injection H as <-. simpl. rewrite E, (IH j eq_refl). reflexivity.
Qed.

Lemma strchr_cstring_take (block : string) (c : ascii) (i : nat) :
  strchr (cstring block) c = Some i ->
  str_take i block = str_take i (cstring block)
  /\ strchr (str_take i block) c = None.
Proof.
  revert i. induction block as [|a s IH]; intros i H; simpl in *; [discriminate|].
  destruct (Ascii.eqb a "000"); [discriminate|]. simpl in H.
  destruct (Ascii.eqb a c) eqn:E; [injection H as <-; auto|].
  destruct (strchr (cstring s) c) as [j|] eqn:F; [|discriminate].
  injection H as <-. destruct (IH j eq_refl) as [H1 H2].
  simpl. rewrite E, H1, <- H1, H2. auto.
Qed.

Lemma strlen_zero (s : string) : (strlen s =? 0) = false -> s <> EmptyString.
Proof. intros H ->. discriminate. Qed.

Lemma master_relay_push (master : Master.master_conn_details) (r : relay_server)
    (buf : string) :
  Master.master_relay (Master.push_relay r master) buf = Master.master_relay master buf.
Proof. reflexivity. Qed.

(** The loop only pushes records made of lines. *)
Lemma streamlist_lines_records (fuel : nat) :
  forall (buf : string) (master : Master.master_conn_details),
    exists added,
      Master.new_relays (Master.streamlist_lines fuel buf master)
      = added ++ Master.new_relays master
      /\ Forall (from_master master) added
      /\ forall b, Master.master_relay (Master.streamlist_lines fuel buf master) b
                   = Master.master_relay master b.
Proof.
  induction fuel as [|fuel IH]; intros buf master.
  - exists []. simpl. auto.
  - cbn [Master.streamlist_lines].
    destruct (strchr (cstring buf) "010") as [eol|] eqn:E.
    + destruct (strchr_cstring_take buf "010" eol E) as [_ Hlf].
      set (line := match strchr (str_take eol buf) "013" with
                   | Some cr => str_take cr (str_take eol buf)
                   | None => str_take eol buf
                   end).
      assert (Hline : strchr line "010" = None /\ strchr line "013" = None).
      { subst line. destruct (strchr (str_take eol buf) "013") as [cr|] eqn:C.
        - split; [apply strchr_take_none; exact Hlf|].
          apply strchr_take_before. exact C.
        - auto. }
      destruct (strlen line =? 0) eqn:Z.
      * apply IH.
      * destruct (IH (str_drop (S eol) buf)
                    (Master.push_relay (Master.master_relay master line) master))
          as (added & Ha & Hf & Hm).
        exists (added ++ [Master.master_relay master line]).
        rewrite Ha. cbn [Master.new_relays Master.push_relay].
        rewrite <- app_assoc. split; [reflexivity|]. split.
        -- apply Forall_app. split.
           ++ eapply Forall_impl; [|exact Hf]. intros r [H1 H2].
              split; [|exact H2]. rewrite H1 at 1. reflexivity.
           ++ constructor; [|constructor]. split; [reflexivity|].
              cbn [localmount Master.master_relay].
              split; [apply strlen_zero; exact Z | exact Hline].
        -- intros b. rewrite Hm. reflexivity.
    + exists []. simpl. auto.
Qed.


Lemma cstring_nul_free (x : string) : nul_free x -> cstring x = x.
Proof.
  unfold nul_free. induction x as [|a x IH]; simpl; [reflexivity|].
  destruct (Ascii.eqb a "000"); [discriminate|].
  destruct (strchr x "000"); [discriminate|]. intros _. rewrite IH by reflexivity.
  reflexivity.
Qed.

Lemma cstring_app (x y : string) :
  nul_free x -> cstring (x ++ y) = (x ++ cstring y)%string.
Proof.
  unfold nul_free. induction x as [|a x IH]; simpl; [reflexivity|].
  destruct (Ascii.eqb a "000"); [discriminate|].
  destruct (strchr x "000"); [discriminate|]. intros _. rewrite IH by reflexivity.
  reflexivity.
Qed.

Lemma nul_free_app (x y : string) : nul_free x -> nul_free y -> nul_free (x ++ y).
Proof.
  unfold nul_free. induction x as [|a x IH]; simpl; [auto|].
  destruct (Ascii.eqb a "000"); [discriminate|].
  destruct (strchr x "000"); [discriminate|]. intros _ Hy.
  rewrite IH by auto. reflexivity.
Qed.

Lemma nul_free_drop (n : nat) : forall x, nul_free x -> nul_free (str_drop n x).
Proof.
  unfold nul_free. induction n as [|n IH]; intros [|a x] H; simpl in *; auto.
  destruct (Ascii.eqb a "000"); [discriminate|].
  destruct (strchr x "000") eqn:E; [discriminate|]. apply IH. exact E.
Qed.

Lemma strchr_app_l (x z : string) (c : ascii) (i : nat) :
  strchr x c = Some i -> strchr (x ++ z) c = Some i.
Proof.
  revert i. induction x as [|a x IH]; intros i H; simpl in *; [discriminate|].
  destruct (Ascii.eqb a c); [exact H|].
  destruct (strchr x c) as [j|]; [|discriminate].
  rewrite (IH j eq_refl). exact H.
Qed.

Lemma str_take_app_l (i : nat) :
  forall x z : string, (i <= String.length x)%nat -> str_take i (x ++ z) = str_take i x.
Proof.
  induction i as [|i IH]; intros [|a x] z H; simpl in *; try reflexivity; try lia.
  rewrite IH by lia. reflexivity.
Qed.

Lemma str_drop_app_l (i : nat) :
  forall x z : string,
    (i <= String.length x)%nat -> str_drop i (x ++ z) = (str_drop i x ++ z)%string.
Proof.
  induction i as [|i IH]; intros [|a x] z H; simpl in *; try reflexivity; try lia.
  apply IH. lia.
Qed.

(** With fuel enough the loop does not look at the bytes kept before. *)
Lemma streamlist_lines_forget (fuel : nat) :
  forall (z b : string) (prev : Z) (m : Master.master_conn_details),
    (String.length z < fuel)%nat ->
    Master.streamlist_lines fuel z (Master.set_buffer b prev m)
    = Master.streamlist_lines fuel z m.
Proof.
  induction fuel as [|fuel IH]; intros z b prev m Hlen; [lia|].
  cbn [Master.streamlist_lines].
  destruct (strchr (cstring z) "010") as [eol|] eqn:E; [|reflexivity].
  assert (Hd : (String.length (str_drop (S eol) z) < fuel)%nat).
  { rewrite str_drop_length. pose proof (strchr_lt _ _ _ E).
    pose proof (cstring_length z). lia. }
  destruct (strlen _ =? 0).
  - apply IH. exact Hd.
  - change (Master.push_relay ?r (Master.set_buffer b prev m))
      with (Master.set_buffer b prev (Master.push_relay r m)).
    apply IH. exact Hd.
Qed.

Lemma streamlist_lines_fuel (f1 f2 : nat) (z : string) (m : Master.master_conn_details) :
  (String.length z < f1)%nat -> (String.length z < f2)%nat ->
  Master.streamlist_lines f1 z m = Master.streamlist_lines f2 z m.
Proof.
  intros H1 H2.
  transitivity (Master.streamlist_lines (S (String.length z)) z m).
  - replace f1 with (S (String.length z) + (f1 - S (String.length z)))%nat by lia.
    apply streamlist_lines_enough. lia.
  - symmetry.
    replace f2 with (S (String.length z) + (f2 - S (String.length z)))%nat by lia.
    apply streamlist_lines_enough. lia.
Qed.

(** What the loop keeps is the text after the last complete line. *)
Lemma streamlist_lines_buffer (fuel : nat) :
  forall (x : string) (m : Master.master_conn_details),
    (String.length x < fuel)%nat -> nul_free x ->
    nul_free (Master.buffer (Master.streamlist_lines fuel x m))
    /\ (String.length (Master.buffer (Master.streamlist_lines fuel x m))
        <= String.length x)%nat
    /\ Master.previous (Master.streamlist_lines fuel x m)
       = wrap_int (strlen (Master.buffer (Master.streamlist_lines fuel x m))).
Proof.
  induction fuel as [|fuel IH]; intros x m Hlen Hx; [lia|].
  cbn [Master.streamlist_lines].
  destruct (strchr (cstring x) "010") as [eol|] eqn:E.
  - assert (Hd : (String.length (str_drop (S eol) x) < fuel)%nat).
    { rewrite str_drop_length. pose proof (strchr_lt _ _ _ E).
      pose proof (cstring_length x). lia. }
    match goal with
    | |- context [Master.streamlist_lines fuel ?z ?m0] =>
        destruct (IH z m0 Hd (nul_free_drop (S eol) x Hx)) as (H1 & H2 & H3)
    end.
    rewrite str_drop_length in H2. split; [exact H1|]. split; [lia|exact H3].
  - cbn [Master.buffer Master.previous Master.set_buffer].
    rewrite (cstring_nul_free x Hx). auto.
Qed.

(** Cutting the text between two reads changes nothing. *)
Lemma streamlist_lines_split (n : nat) :
  forall (x y : string) (m : Master.master_conn_details) (f1 f2 f3 : nat),
    (String.length x < n)%nat -> nul_free x ->
    (String.length x < f1)%nat ->
    (String.length (x ++ y) < f2)%nat ->
    (String.length (Master.buffer (Master.streamlist_lines f1 x m) ++ y) < f3)%nat ->
    Master.streamlist_lines f3
      (Master.buffer (Master.streamlist_lines f1 x m) ++ y)
      (Master.streamlist_lines f1 x m)
    = Master.streamlist_lines f2 (x ++ y) m.
Proof.
  induction n as [|n IH]; intros x y m f1 f2 f3 Hn Hx H1 H2 H3; [lia|].
  destruct f1 as [|f1]; [lia|]. destruct f2 as [|f2]; [lia|].
  cbn [Master.streamlist_lines] in *.
  destruct (strchr (cstring x) "010") as [eol|] eqn:E.
  - pose proof E as E'. rewrite (cstring_nul_free x Hx) in E'.
    pose proof (strchr_lt _ _ _ E') as Hlt.
    rewrite (cstring_app x y Hx), (strchr_app_l x (cstring y) "010" eol E').
    rewrite (str_take_app_l eol x y) by lia.
    rewrite (str_drop_app_l (S eol) x y) by lia.
    rewrite string_length_app in H2.
    apply IH.
    + rewrite str_drop_length. lia.
    + apply nul_free_drop. exact Hx.
    + rewrite str_drop_length. lia.
    + rewrite string_length_app, str_drop_length. lia.
    + exact H3.
  - cbn [Master.buffer Master.set_buffer] in *.
    rewrite (cstring_nul_free x Hx) in *.
    rewrite streamlist_lines_forget by exact H3.
    exact (streamlist_lines_fuel f3 (S f2) (x ++ y) m H3 H2).
Qed.

(** X11.  The body may arrive cut anywhere: for text without NUL bytes
    (and less than 2 GiB of it), handing [streamlist_data] a block [a] and
    then a block [b] leaves the details exactly as handing it [a ++ b] at
    once does: the same records in the same order, the same bytes kept for
    the next read.  The kept bytes stay consistent, so this holds for any
    number of reads. *)
Theorem streamlist_data_split (a b : string) (master : Master.master_conn_details) :
  buffer_ok master -> nul_free a -> nul_free b ->
  strlen (Master.buffer master) + strlen a <= INT_MAX ->
  snd (Master.streamlist_data b (snd (Master.streamlist_data a master)))
  = snd (Master.streamlist_data (a ++ b) master)
  /\ buffer_ok (snd (Master.streamlist_data a master)).
Proof.
  intros [Hp Hb] Ha Hnb Hlen. unfold Master.streamlist_data. cbn [snd].
  rewrite Hp. unfold strlen in *. rewrite Nat2Z.id.
  rewrite (str_take_all (String.length (Master.buffer master)) (Master.buffer master))
    by lia.
  set (x := (Master.buffer master ++ a)%string).
  assert (Hx : nul_free x) by (apply nul_free_app; assumption).
  assert (Lx : Z.of_nat (String.length x) <= INT_MAX).
  { subst x. rewrite string_length_app. lia. }
  destruct (streamlist_lines_buffer (S (String.length x)) x master
              ltac:(lia) Hx) as (B1 & B2 & B3).
  set (m1 := Master.streamlist_lines (S (String.length x)) x master) in *.
  assert (P1 : Master.previous m1 = Z.of_nat (String.length (Master.buffer m1))).
  { rewrite B3. unfold strlen. apply wrap_int_id.
    unfold INT_MIN, INT_MAX in *. lia. }
  split.
  - rewrite P1, Nat2Z.id, str_take_all by lia.
    replace (Master.buffer master ++ a ++ b)%string with (x ++ b)%string
      by (subst x; apply string_app_assoc).
    subst m1. apply (streamlist_lines_split (S (String.length x))); try lia.
    exact Hx.
  - split; [exact P1 | exact B1].
Qed.

End MasterMore.

(** ** The status line and the commit *)

Section StatusFacts.
Import C Relay Trace Slave Lines.

Variable mount_proxy : Type.
Variable find_mount : Config.ice_config_t -> string -> option mount_proxy.
Variable update_source_settings :
  Config.ice_config_t -> Source.source_t -> option mount_proxy -> Source.source_t.
Variable reserve_source : Source.store -> string -> option (nat * Source.source_t).
Variable find_source_mount : Source.store -> string -> option nat.
Variable new_thread : string -> string -> option nat.
Variable free_source : Source.store -> nat -> Source.store.
Variable calloc_ok : nat -> bool.

Lemma skip_nonspace_token (v rest : string) :
  all_nonspace v = true ->
  skip_nonspace (v ++ String " " rest) = String " " rest.
Proof.
  induction v as [|c v IH]; simpl; [reflexivity|].
  intros H. apply andb_true_iff in H. destruct H as [Hc Hv].
  apply negb_true_iff in Hc. rewrite Hc. apply IH. exact Hv.
Qed.

Lemma skip_space_token (v rest : string) :
  v <> EmptyString -> all_nonspace v = true ->
  skip_space (v ++ rest) = (v ++ rest)%string.
Proof.
  destruct v as [|c v]; [contradiction|]. simpl. intros _ H.
  apply andb_true_iff in H. destruct H as [Hc _].
  apply negb_true_iff in Hc. rewrite Hc. reflexivity.
Qed.

Lemma scan_digits_stop (acc : Z) (any : bool) (s : string) :
  no_digit_ahead s = true -> scan_digits acc any s = (acc, any, s).
Proof.
  destruct s as [|c s]; [reflexivity|]. simpl. intros H.
  apply negb_true_iff in H. rewrite H. reflexivity.
Qed.

Lemma sscanf_status_200 (version reason : string) :
  version <> EmptyString -> all_nonspace version = true ->
  no_digit_ahead reason = true ->
  sscanf_status ("HTTP" ++ version ++ " 200" ++ reason) = (1, Some 200).
Proof.
  intros Hne Hv Hr. destruct version as [|c v]; [contradiction|].
  unfold sscanf_status. simpl strip_prefix.
  pose proof Hv as Hv'. simpl in Hv'. apply andb_true_iff in Hv'.
  destruct Hv' as [Hc Hv']. apply negb_true_iff in Hc.
  cbn [append skip_space]. rewrite Hc.
  cbn [skip_nonspace]. rewrite Hc.
  change (v ++ " 200" ++ reason)%string with (v ++ String " " ("200" ++ reason))%string.
  rewrite (skip_nonspace_token v _ Hv').
  cbn [skip_space]. change (isspace " ") with true. cbn iota.
  change (isspace "2") with false. cbn iota.
  unfold strtol. cbn [skip_space append]. change (isspace "2") with false. cbn iota.
  cbn [scan_digits]. change (isdigit "2") with true. change (isdigit "0") with true.
  cbn iota. rewrite (scan_digits_stop _ true reason Hr). reflexivity.
Qed.

(** X12.  The reason phrase of the status line is not looked at: every
    line [HTTP<version> 200<reason>], with a non-empty version free of
    white space and a reason that does not go on with a digit (it may be
    anything else, or missing), makes the scan return 1 with code 200; and
    [streamlist_header], given such a line (free of CR and NUL) with its
    CRLF, sets [ok] and returns the size it was given, so that the transfer
    goes on.  The [OK] of the format never decides. *)
Theorem status_reason_ignored (version reason : string) :
  version <> EmptyString -> all_nonspace version = true ->
  no_digit_ahead reason = true ->
  strchr (version ++ " 200" ++ reason)%string "013" = None ->
  nul_free (version ++ " 200" ++ reason)%string ->
  sscanf_status ("HTTP" ++ version ++ " 200" ++ reason) = (1, Some 200)
  /\ forall master,
      Master.streamlist_header
        ("HTTP" ++ version ++ " 200" ++ reason ++ CRLF) master
      = (strlen ("HTTP" ++ version ++ " 200" ++ reason ++ CRLF),
         Master.set_ok 1 master, false).
Proof.
  intros Hne Hv Hr Ecr Enul.
  pose proof (sscanf_status_200 version reason Hne Hv Hr) as S200.
  split; [exact S200|]. intros master.
  unfold Master.streamlist_header, Master.header_text, memchr.
  set (body := (version ++ " 200" ++ reason)%string) in *.
  assert (Hsplit : ("HTTP" ++ version ++ " 200" ++ reason ++ CRLF)%string
                   = (("HTTP" ++ body) ++ String "013" (String "010" ""))%string).
  { subst body. unfold CRLF. rewrite !string_app_assoc. reflexivity. }
  rewrite Hsplit.
  assert (Hcr : strchr ("HTTP" ++ body)%string "013" = None)
    by (cbn; rewrite Ecr; reflexivity).
  assert (Hnul : nul_free ("HTTP" ++ body)%string)
    by (unfold nul_free in *; cbn; rewrite Enul; reflexivity).
  rewrite (strchr_app _ _ "013" Hcr), str_take_app.
  rewrite (cstring_nul_free _ Hnul).
  unfold strncmp. change (str_take 4 ("HTTP" ++ body)%string) with "HTTP".
  change (strcmp (str_take 4 "HTTP") "HTTP" =? 0) with true. cbn iota.
  unfold Master.scans_200. rewrite S200. reflexivity.
Qed.

Abbreviation streamlist_thread :=
  (Slave.streamlist_thread mount_proxy find_mount update_source_settings
     reserve_source find_source_mount new_thread free_source calloc_ok).

Lemma streamlist_header_sticky (ptr : string) (master : Master.master_conn_details) :
  let master' := snd (fst (Master.streamlist_header ptr master)) in
  Master.new_relays master' = Master.new_relays master
  /\ (Master.ok master = 1 -> Master.ok master' = 1).
Proof.
  unfold Master.streamlist_header.
  destruct (Master.header_text ptr) as [line|]; [|simpl; auto].
  destruct (strncmp line "HTTP" 4 =? 0); [|simpl; auto].
  destruct (Master.scans_200 line); simpl; auto.
Qed.

Lemma deliver_headers_sticky (lines : list string) :
  forall master : Master.master_conn_details,
    let master' := snd (fst (Master.deliver_headers lines master)) in
    Master.new_relays master' = Master.new_relays master
    /\ (Master.ok master = 1 -> Master.ok master' = 1).
Proof.
  induction lines as [|ptr rest IH]; intros master; [simpl; auto|].
  cbn [Master.deliver_headers].
  pose proof (streamlist_header_sticky ptr master) as [H1 H2].
  destruct (Master.streamlist_header ptr master) as [[ret m1] warned].
  cbn [fst snd] in H1, H2.
  destruct (ret =? strlen ptr); [|cbn [fst snd]; auto].
  pose proof (IH m1) as [H3 H4].
  destruct (Master.deliver_headers rest m1) as [[go m2] warnings].
  cbn [fst snd] in *. split; [congruence | auto].
Qed.

Lemma perform_world (resp : Master.response) (url auth : string)
    (master : Master.master_conn_details) (w : world) :
  let w' := snd (perform resp url auth master w) in
  master_relays w' = master_relays w /\ relays w' = relays w
  /\ sources w' = sources w /\ config w' = config w
  /\ exists evs, trace w' = trace w ++ evs
                 /\ forallb (fun e => negb (is_commit e)) evs = true.
Proof.
  unfold perform.
  destruct (Master.deliver_headers (Master.header_lines resp) master)
    as [[go m'] warned].
  assert (H : forall w0 : world,
             master_relays w0 = master_relays w -> relays w0 = relays w ->
             sources w0 = sources w -> config w0 = config w ->
             (exists evs, trace w0 = trace w ++ evs
                          /\ forallb (fun e => negb (is_commit e)) evs = true) ->
             forall l,
               let w' := log_warnings "Failed response from master %s" l w0 in
               master_relays w' = master_relays w /\ relays w' = relays w
               /\ sources w' = sources w /\ config w' = config w
               /\ exists evs, trace w' = trace w ++ evs
                              /\ forallb (fun e => negb (is_commit e)) evs = true).
  { intros w0 A B C D E l. revert w0 A B C D E.
    induction l as [|b l IH]; intros w0 A B C D E; cbn [log_warnings]; [auto|].
    apply IH; destruct b; auto.
    destruct E as (evs & E1 & E2).
    exists (evs ++ [LOG WARN "Failed response from master %s"]).
    cbn [call trace]. rewrite E1, <- app_assoc, forallb_app, E2. auto. }
  assert (H0 : let w' := log_warnings "Failed response from master %s" warned
                           (call (curl_easy_perform url auth) w) in
               master_relays w' = master_relays w /\ relays w' = relays w
               /\ sources w' = sources w /\ config w' = config w
               /\ exists evs, trace w' = trace w ++ evs
                              /\ forallb (fun e => negb (is_commit e)) evs = true).
  { apply H; try reflexivity. exists [curl_easy_perform url auth]. auto. }
  destruct go.
  - destruct (Master.deliver_body (Master.body_blocks resp) m') as [go' m''].
    exact H0.
  - exact H0.
Qed.

(** X13.  Once the status line has scanned as 200, [ok] stays set whatever
    follows, and [streamlist_thread] commits what was parsed even when the
    transfer then fails.  In particular, when no body block arrives (the
    connection drops after the headers, or a later header line stops the
    transfer), the commit runs with an empty list: every master relay is
    handed to cleanup and freed, and the master relay list is left empty. *)
Theorem streamlist_commits_after_200
    (cfg : Config.ice_config_t) (master : Master.master_conn_details)
    (resp : Master.response) (n : nat) (w : world)
    (status line : string) (rest : list string) :
  Master.update_from_master cfg = Some master ->
  Master.header_lines resp = status :: rest ->
  Master.body_blocks resp = [] ->
  Master.header_text status = Some line ->
  strncmp line "HTTP" 4 = 0 ->
  sscanf_status line = (1, Some 200) ->
  exists w1 w',
    streamlist_thread resp n master w = Some w'
    /\ master_relays w1 = master_relays w /\ sources w1 = sources w
    /\ (exists evs, trace w1 = trace w ++ evs
                    /\ forallb (fun e => negb (is_commit e)) evs = true)
    /\ w' = call curl_easy_cleanup
              (call thread_mutex_unlock
                 (set_master_relays []
                    (free_relays free_source (master_relays w)
                       (set_master_relays [] (call thread_mutex_lock w1)))))
    /\ master_relays w' = [].
Proof.
  intros Hm Hl Hb Ht Hp Hs.
  assert (Hnew : Master.new_relays master = []).
  { unfold Master.update_from_master in Hm.
    destruct (Config.master_password cfg), (Config.master_server cfg);
      try discriminate.
    destruct (Config.master_server_port cfg =? 0); [discriminate|].
    injection Hm as <-. reflexivity. }
  assert (H200 : Master.scans_200 line = true) by (apply scans_200_iff; exact Hs).
  unfold Slave.streamlist_thread.
  assert (Hgen : forall url auth,
    exists w1 code m',
      perform resp url auth master w = (code, m', w1)
      /\ Master.ok m' = 1 /\ Master.new_relays m' = []
      /\ master_relays w1 = master_relays w /\ sources w1 = sources w
      /\ (exists evs, trace w1 = trace w ++ evs
                      /\ forallb (fun e => negb (is_commit e)) evs = true)).
  { intros url auth.
    pose proof (perform_world resp url auth master w) as (P1 & _ & P3 & _ & P5).
    destruct (perform resp url auth master w) as [[code m'] w1] eqn:E.
    cbn [snd] in *. exists w1, code, m'. split; [reflexivity|].
    assert (Hm' : Master.ok m' = 1 /\ Master.new_relays m' = []).
    { unfold perform in E. rewrite Hl, Hb in E.
      cbn [Master.deliver_headers] in E.
      unfold Master.streamlist_header in E. rewrite Ht, Hp, H200 in E.
      cbn [Z.eqb] in E. rewrite Z.eqb_refl in E.
      pose proof (deliver_headers_sticky rest (Master.set_ok 1 master)) as [S1 S2].
      destruct (Master.deliver_headers rest (Master.set_ok 1 master))
        as [[go m2] warnings].
      cbn [fst snd Master.new_relays Master.set_ok Master.ok] in S1, S2.
      destruct go; cbn [Master.deliver_body] in E; injection E as _ <- _;
        (split; [apply S2; reflexivity | congruence]). }
    destruct Hm' as [Ho Hn]. auto. }
  destruct (negb (Master.ssl_port master =? 0));
    match goal with
    | |- context [perform resp ?url ?auth master w] =>
        destruct (Hgen url auth)
          as (w1 & code & m' & -> & Ho & Hn & P1 & P3 & P5)
    end;
    rewrite Ho, Hn; cbn [Z.eqb negb];
    unfold update_relays, update_relay_set; cbn [update_relay_loop];
    (destruct (negb (code =? 0));
     [ exists (call (LOG WARN "Failed URL access %s (%s)") w1)
     | exists w1 ]);
    eexists; (split; [reflexivity|]);
    cbn [call master_relays sources trace];
    (split; [exact P1|]); (split; [exact P3|]);
    (split; [|split; [rewrite ?P1; reflexivity | reflexivity]]);
    destruct P5 as (evs & E1 & E2);
    [ exists (evs ++ [LOG WARN "Failed URL access %s (%s)"]);
      rewrite E1, <- app_assoc, forallb_app, E2; auto
    | exists evs; auto
    | exists (evs ++ [LOG WARN "Failed URL access %s (%s)"]);
      rewrite E1, <- app_assoc, forallb_app, E2; auto
    | exists evs; auto ].
Qed.

End StatusFacts.

(** ** More on the start policy *)

Section PolicyMore.
Import C Relay Trace Slave Settings.

Variable ICECAST_VERSION_STRING : string.
Variable util_base64_encode : string -> string.
Variable mount_proxy : Type.
Variable find_mount : Config.ice_config_t -> string -> option mount_proxy.
Variable update_source_settings :
  Config.ice_config_t -> Source.source_t -> option mount_proxy -> Source.source_t.
Variable reserve_source : Source.store -> string -> option (nat * Source.source_t).
Variable find_source_mount : Source.store -> string -> option nat.
Variable new_thread : string -> string -> option nat.
Variable complete_source : Source.store -> nat -> Source.store.
Variable run_source_main : Source.store -> nat -> Source.store.
Variable move_clients : Source.store -> nat -> nat -> Source.store.
Variable clear_source : Source.store -> nat -> Source.store.
Variable free_source : Source.store -> nat -> Source.store.

Abbreviation check_on_demand :=
  (Slave.check_on_demand mount_proxy find_mount update_source_settings find_source_mount).
Abbreviation check_relay_start :=
  (Slave.check_relay_start mount_proxy find_mount update_source_settings
     find_source_mount new_thread).
Abbreviation check_relay_joined :=
  (Slave.check_relay_joined mount_proxy find_mount update_source_settings).
Abbreviation check_relay_stream :=
  (Slave.check_relay_stream mount_proxy find_mount update_source_settings
     reserve_source find_source_mount new_thread).
Abbreviation start_relay_stream :=
  (Slave.start_relay_stream ICECAST_VERSION_STRING util_base64_encode
     find_source_mount complete_source run_source_main move_clients clear_source).
Abbreviation relay_check_streams :=
  (Slave.relay_check_streams mount_proxy find_mount update_source_settings
     reserve_source find_source_mount new_thread free_source).
Abbreviation start_relays :=
  (Slave.start_relays mount_proxy find_mount update_source_settings
     reserve_source find_source_mount new_thread).

Lemma quiet_app (a b : list event) : quiet a -> quiet b -> quiet (a ++ b).
Proof. unfold quiet. intros Ha Hb. rewrite forallb_app, Ha, Hb. reflexivity. Qed.

Lemma check_on_demand_quiet (relay : relay_server) (source : nat) (w : world) :
  exists evs,
    trace (fst (check_on_demand relay source w)) = trace w ++ evs /\ quiet evs.
Proof.
  pose proof (check_on_demand_spec mount_proxy find_mount update_source_settings
                find_source_mount relay source w) as (_ & _ & _ & _ & _ & Ht).
  eexists. split; [exact Ht|].
  repeat apply quiet_app; try reflexivity.
  - destruct (find_mount (config w) (localmount relay)); reflexivity.
  - unfold Slave.override_lookup.
    destruct (Source.fallback_mount _) as [fb|]; [|reflexivity].
    destruct (Source.fallback_override _ =? 0); [reflexivity|].
    destruct (Slave.fallback_demand _ _ _); reflexivity.
Qed.

(** What [check_relay_start] adds to the trace: at most the events of the
    on-demand check and then one [thread_create], and that only for an
    enabled relay that has a source and is not running. *)
Lemma check_relay_start_spawn (relay : relay_server) (w : world) :
  match check_relay_start relay w with
  | inl (relay', w') =>
      source relay <> None /\ running relay = 0 /\ enable relay <> 0
      /\ relay' = set_thread (new_thread "Relay Thread" (localmount relay)) relay
      /\ exists evs,
          trace w' = trace w ++ evs ++ [thread_create "Relay Thread" (localmount relay)]
          /\ quiet evs
  | inr (relay', w') =>
      relay' = relay /\ exists evs, trace w' = trace w ++ evs /\ quiet evs
  end.
Proof.
  unfold Slave.check_relay_start.
  destruct (source relay) as [src|] eqn:Hsrc;
    [|split; [reflexivity|]; exists []; rewrite app_nil_r; split; reflexivity].
  destruct (Z.eqb_spec (running relay) 0) as [Hr|Hr]; cbn [negb];
    [|split; [reflexivity|]; exists []; rewrite app_nil_r; split; reflexivity].
  destruct (Z.eqb_spec (enable relay) 0) as [He|He].
  { split; [reflexivity|]. eexists. split; [reflexivity|reflexivity]. }
  destruct (Z.eqb_spec (on_demand relay) 0) as [Ho|Ho]; cbn [negb].
  - repeat (split; [solve [auto | discriminate]|]).
    exists []. split; reflexivity.
  - destruct (check_on_demand_quiet relay src w) as (evs & Ht & Hq).
    destruct (check_on_demand relay src w) as [w1 stop]. cbn [fst] in Ht.
    destruct stop.
    + split; [reflexivity|]. exists evs. auto.
    + repeat (split; [solve [auto | discriminate]|]).
      exists evs. cbn [call trace]. rewrite Ht, <- app_assoc. auto.
Qed.

Lemma check_relay_joined_settings (relay : relay_server) (w : world) :
  settings (fst (check_relay_joined relay w)) = settings relay
  /\ source (fst (check_relay_joined relay w)) = source relay.
Proof.
  unfold Slave.check_relay_joined.
  destruct (negb (cleanup relay =? 0) && _); [|auto].
  cbn [enable set_running set_cleanup set_thread on_demand].
  destruct (enable relay =? 0); [auto|].
  destruct (negb (on_demand relay =? 0)); auto.
Qed.

(** The two ways [check_relay_stream] can end: without creating a thread,
    or with [thread_create] as its last call. *)
Lemma check_relay_stream_cases (relay : relay_server) (w : world) :
  exists evs,
    trace (snd (check_relay_stream relay w)) = trace w ++ evs
    /\ settings (fst (check_relay_stream relay w)) = settings relay
    /\ ((quiet evs /\ (thread (fst (check_relay_stream relay w)) = thread relay
                        \/ thread (fst (check_relay_stream relay w)) = None))
        \/ (exists before,
              evs = before ++ [thread_create "Relay Thread" (localmount relay)]
              /\ quiet before
              /\ enable relay <> 0 /\ running relay = 0
              /\ (source relay <> None
                  \/ starts_with_slash (localmount relay) = true)
              /\ source (fst (check_relay_stream relay w)) <> None
              /\ thread (fst (check_relay_stream relay w))
                 = new_thread "Relay Thread" (localmount relay))).
Proof.
  unfold Slave.check_relay_stream.
  assert (Hj : forall r w0 pre,
             trace w0 = trace w ++ pre -> quiet pre -> settings r = settings relay ->
             thread r = thread relay ->
             exists evs,
               trace (snd (check_relay_joined r w0)) = trace w ++ evs
               /\ settings (fst (check_relay_joined r w0)) = settings relay
               /\ quiet evs
               /\ (thread (fst (check_relay_joined r w0)) = thread relay
                   \/ thread (fst (check_relay_joined r w0)) = None)).
  { intros r w0 pre Hp Hq Hs Hth.
    destruct (check_relay_joined_trace mount_proxy find_mount update_source_settings
                r w0) as (evs & Ht & He).
    exists (pre ++ evs). rewrite Ht, Hp, <- app_assoc.
    split; [reflexivity|].
    split; [rewrite (proj1 (check_relay_joined_settings r w0)); exact Hs|].
    split; [apply quiet_app; assumption|].
    unfold Slave.check_relay_joined.
    destruct (negb (cleanup r =? 0) && _); [|left; exact Hth].
    cbn [enable set_running set_cleanup set_thread on_demand].
    destruct (enable r =? 0); [right; reflexivity|].
    destruct (negb (on_demand r =? 0)); right; reflexivity. }
  assert (Hgo : forall r w0 pre,
             trace w0 = trace w ++ pre -> quiet pre -> settings r = settings relay ->
             thread r = thread relay -> running r = running relay ->
             (source r <> None ->
              source relay <> None \/ starts_with_slash (localmount relay) = true) ->
             exists evs,
               trace (snd (match check_relay_start r w0 with
                           | inl started => started
                           | inr (r', w') => check_relay_joined r' w'
                           end)) = trace w ++ evs
               /\ settings (fst (match check_relay_start r w0 with
                                 | inl started => started
                                 | inr (r', w') => check_relay_joined r' w'
                                 end)) = settings relay
               /\ ((quiet evs
                    /\ (thread (fst (match check_relay_start r w0 with
                                     | inl started => started
                                     | inr (r', w') => check_relay_joined r' w'
                                     end)) = thread relay
                        \/ thread (fst (match check_relay_start r w0 with
                                        | inl started => started
                                        | inr (r', w') => check_relay_joined r' w'
                                        end)) = None))
                   \/ (exists before,
                         evs = before ++ [thread_create "Relay Thread" (localmount relay)]
                         /\ quiet before
                         /\ enable relay <> 0 /\ running relay = 0
                         /\ (source relay <> None
                             \/ starts_with_slash (localmount relay) = true)
                         /\ source (fst (match check_relay_start r w0 with
                                         | inl started => started
                                         | inr (r', w') => check_relay_joined r' w'
                                         end)) <> None
                         /\ thread (fst (match check_relay_start r w0 with
                                         | inl started => started
                                         | inr (r', w') => check_relay_joined r' w'
                                         end))
                            = new_thread "Relay Thread" (localmount relay)))).
  { intros r w0 pre Hp Hq Hs Hth Hrun Hsrc.
    pose proof (check_relay_start_spawn r w0) as Hsp.
    assert (Hlm : localmount r = localmount relay)
      by (unfold settings in Hs; congruence).
    assert (Hen : enable r = enable relay)
      by (unfold settings in Hs; congruence).
    destruct (check_relay_start r w0) as [[r' w']|[r' w']].
    - destruct Hsp as (S1 & S2 & S3 & -> & evs & Ht & He).
      exists (pre ++ evs ++ [thread_create "Relay Thread" (localmount relay)]).
      cbn [fst snd]. rewrite Ht, Hp, Hlm, <- !app_assoc.
      split; [reflexivity|]. split; [exact Hs|]. right.
      exists (pre ++ evs). rewrite <- app_assoc.
      split; [reflexivity|]. split; [apply quiet_app; assumption|].
      split; [congruence|]. split; [congruence|]. split; [auto|].
      split; [exact S1 | reflexivity].
    - destruct Hsp as (-> & evs & Ht & He).
      destruct (Hj r w' (pre ++ evs)) as (evs' & H1 & H2 & H3 & H4);
        [rewrite Ht, Hp, <- app_assoc; reflexivity
        |apply quiet_app; assumption | exact Hs | exact Hth |].
      exists evs'. split; [exact H1|]. split; [exact H2|]. left. auto. }
  destruct (source relay) as [src|] eqn:Hsrc.
  - apply (Hgo relay w []); try reflexivity;
      [symmetry; apply app_nil_r|].
    intros _. left. discriminate.
  - destruct (starts_with_slash (localmount relay)) eqn:Hslash; cbn [negb].
    + destruct (reserve_source _ _) as [[p s0]|].
      * apply (Hgo _ _ [source_reserve (localmount relay);
                        LOG DEBUG "Adding relay source at mountpoint %s"]);
          try reflexivity; auto.
        cbn. rewrite <- app_assoc. reflexivity.
      * apply (Hgo _ _ [source_reserve (localmount relay);
                        LOG WARN "new relay but source %s already exists"]);
          try reflexivity; auto.
        cbn. rewrite <- app_assoc. reflexivity.
    + eexists. cbn [fst snd call trace].
      split; [reflexivity|]. split; [reflexivity|]. left.
      split; [reflexivity | left; reflexivity].
Qed.

Lemma quiet_filter (evs : list event) :
  quiet evs -> filter is_thread_create evs = [].
Proof.
  induction evs as [|e l IHl]; [reflexivity|].
  unfold quiet. cbn [forallb filter]. intros H.
  apply andb_prop in H as [H1 H2].
  destruct (is_thread_create e); [discriminate|]. apply IHl, H2.
Qed.

(** X14.  [check_relay_stream] never changes the configured part of the
    record and calls [thread_create] at most once.  It creates no thread
    for a relay that is disabled, or running, or that has no source and a
    local mount not beginning with a slash.  When it does create one, that
    is its last call, the record then has a source, and the handle is
    stored in the record. *)
Theorem check_relay_stream_spawns (relay : relay_server) (w : world) :
  settings (fst (check_relay_stream relay w)) = settings relay
  /\ exists evs,
      trace (snd (check_relay_stream relay w)) = trace w ++ evs
      /\ (List.length (filter is_thread_create evs) <= 1)%nat
      /\ (enable relay = 0 \/ running relay <> 0
          \/ (source relay = None /\ starts_with_slash (localmount relay) = false) ->
          quiet evs)
      /\ (~ quiet evs ->
          (exists before,
              evs = before ++ [thread_create "Relay Thread" (localmount relay)]
              /\ quiet before)
          /\ source (fst (check_relay_stream relay w)) <> None
          /\ thread (fst (check_relay_stream relay w))
             = new_thread "Relay Thread" (localmount relay)).
Proof.
  destruct (check_relay_stream_cases relay w) as (evs & Ht & Hs & Hcase).
  split; [exact Hs|]. exists evs. split; [exact Ht|].
  destruct Hcase as [[Hq _]|(before & -> & Hq & He & Hr & Hsrc & Hsrc' & Hth)].
  - split; [rewrite (quiet_filter _ Hq); cbn; lia|].
    split; [intros _; exact Hq|]. intros Hn. contradiction.
  - split; [rewrite filter_app, (quiet_filter _ Hq); cbn; lia|].
    split.
    + intros [H|[H|[H1 H2]]]; try contradiction.
      destruct Hsrc as [H|H]; [contradiction | congruence].
    + intros _. split; [exists before; auto|]. auto.
Qed.

Lemma start_relay_stream_ends (up : upstream) (relay : relay_server) (w : world)
    (src : nat) :
  source relay = Some src ->
  exists w1,
    start_relay_stream up relay w = Some (set_cleanup 1 (set_running 1 relay), w1)
    /\ rescan_relays w1 = 1.
Proof.
  intros Hs. unfold Slave.start_relay_stream. rewrite Hs.
  destruct (failed_at up) as [st|] eqn:Hf.
  - destruct (relay_attempt_failure ICECAST_VERSION_STRING util_base64_encode
                complete_source run_source_main up (set_running 1 relay) src
                (call (LOG INFO "Starting relayed source at mountpoint %s") w)
                st Hf) as (w1 & Ha & _).
    rewrite Ha.
    pose proof (relay_failed_spec find_source_mount move_clients clear_source
                  (set_running 1 relay) src (owns_con st) (owns_parser st) w1)
      as (H1 & H2 & _).
    eexists. split; [|exact H2].
    rewrite (surjective_pairing (Slave.relay_failed _ _ _ _ _ _ _ _)), H1.
    reflexivity.
  - destruct (relay_attempt_success ICECAST_VERSION_STRING util_base64_encode
                complete_source run_source_main up (set_running 1 relay) src
                (call (LOG INFO "Starting relayed source at mountpoint %s") w)
                Hf) as (w1 & Ha & Hr & _).
    rewrite Ha. eauto.
Qed.

(** X15.  A worker and the check after it.  Whatever the upstream does,
    [start_relay_stream] ends with [running] and [cleanup] set and a rescan
    requested.  The next [check_relay_stream] on that record joins the
    worker thread, clears the handle and both flags, keeps the source and
    the settings, and creates no thread in that call; for an enabled relay
    that is not on-demand, the check after that one starts a new worker. *)
Theorem relay_worker_joined (up : upstream) (relay : relay_server) (w : world)
    (src t : nat) :
  source relay = Some src ->
  thread relay = Some t ->
  exists relay1 w1,
    start_relay_stream up relay w = Some (relay1, w1)
    /\ running relay1 = 1 /\ cleanup relay1 = 1 /\ rescan_relays w1 = 1
    /\ thread (fst (check_relay_stream relay1 w1)) = None
    /\ running (fst (check_relay_stream relay1 w1)) = 0
    /\ cleanup (fst (check_relay_stream relay1 w1)) = 0
    /\ source (fst (check_relay_stream relay1 w1)) = Some src
    /\ settings (fst (check_relay_stream relay1 w1)) = settings relay
    /\ (exists evs,
          trace (snd (check_relay_stream relay1 w1))
          = trace w1 ++ LOG DEBUG "waiting for relay thread for %s"
                     :: thread_join (Some t) :: evs
          /\ quiet evs)
    /\ (enable relay <> 0 -> on_demand relay = 0 ->
        check_relay_stream (fst (check_relay_stream relay1 w1))
          (snd (check_relay_stream relay1 w1))
        = (set_thread (new_thread "Relay Thread" (localmount relay))
             (fst (check_relay_stream relay1 w1)),
           call (thread_create "Relay Thread" (localmount relay))
             (snd (check_relay_stream relay1 w1)))).
Proof.
  intros Hs Ht.
  destruct (start_relay_stream_ends up relay w src Hs) as (w1 & Hrun & Hres).
  exists (set_cleanup 1 (set_running 1 relay)), w1.
  split; [exact Hrun|]. split; [reflexivity|]. split; [reflexivity|].
  split; [exact Hres|].
  unfold Slave.check_relay_stream, Slave.check_relay_start, Slave.check_relay_joined.
  cbn [source running cleanup thread enable on_demand localmount
       set_cleanup set_running set_thread].
  repeat (progress (rewrite ?Hs, ?Ht;
    cbn [source running cleanup thread enable on_demand localmount
         set_cleanup set_running set_thread Z.eqb negb andb])).
  destruct (Z.eqb_spec (enable relay) 0) as [He|He].
  - cbn [fst snd thread running cleanup source].
    repeat (split; [solve [reflexivity | exact Hs]|]).
    split; [eexists; split;
            [cbn; rewrite <- ?app_assoc; reflexivity|reflexivity]|].
    intros Hen. contradiction.
  - destruct (Z.eqb_spec (on_demand relay) 0) as [Ho|Ho]; cbn [negb].
    + cbn [fst snd thread running cleanup source].
      repeat (split; [solve [reflexivity | exact Hs]|]).
      split; [exists []; split;
              [cbn; rewrite <- ?app_assoc; reflexivity|reflexivity]|].
      intros _ _.
      repeat (progress (rewrite ?Hs;
        cbn [source running cleanup thread enable on_demand localmount
             set_cleanup set_running set_thread Z.eqb negb andb])).
      destruct (Z.eqb_spec (enable relay) 0) as [He'|_]; [contradiction|].
      rewrite Ho. reflexivity.
    + cbn [fst snd thread running cleanup source].
      repeat (split; [solve [reflexivity | exact Hs]|]).
      split.
      * eexists. split; [cbn; rewrite <- ?app_assoc; reflexivity|].
        reflexivity.
      * intros _ Hon. contradiction.
Qed.

(** The cleanup loop creates no thread and gives up, record by record, the
    worker of a running relay, then the source, then the record. *)
Lemma free_relays_gives_up (to_free : list relay_server) :
  forall w,
    exists evs,
      trace (free_relays free_source to_free w) = trace w ++ evs
      /\ quiet evs
      /\ filter gives_up evs = flat_map given_up to_free
      /\ relays (free_relays free_source to_free w) = relays w
      /\ master_relays (free_relays free_source to_free w) = master_relays w
      /\ config (free_relays free_source to_free w) = config w
      /\ max_interval (free_relays free_source to_free w) = max_interval w.
Proof.
  induction to_free as [|r next IH]; intros w.
  - exists []. cbn. rewrite app_nil_r. repeat split.
  - cbn [Slave.free_relays].
    match goal with
    | |- context [Slave.free_relays _ next ?w0] =>
        destruct (IH w0) as (evs & Ht & Hq & Hg & Hr & Hm & Hc & Hi);
        assert (Hone : exists one,
                   trace w0 = trace w ++ one /\ quiet one
                   /\ filter gives_up one = given_up r
                   /\ relays w0 = relays w /\ master_relays w0 = master_relays w
                   /\ config w0 = config w /\ max_interval w0 = max_interval w)
    end.
    { unfold Slave.relay_free, given_up.
      destruct (source r) as [p|].
      - destruct (running r =? 0); cbn [negb];
          eexists; (split; [cbn; rewrite <- ?app_assoc; reflexivity|]);
          repeat split.
      - eexists; (split; [cbn; rewrite <- ?app_assoc; reflexivity|]);
          repeat split. }
    destruct Hone as (one & Ht1 & Hq1 & Hg1 & Hr1 & Hm1 & Hc1 & Hi1).
    exists (one ++ evs). rewrite Ht, Ht1, <- app_assoc.
    split; [reflexivity|]. split; [apply quiet_app; assumption|].
    split; [rewrite filter_app, Hg, Hg1; reflexivity|].
    split; [congruence|]. split; [congruence|]. split; congruence.
Qed.

Lemma start_relays_settings (to_start : list relay_server) :
  forall w,
    map settings (fst (start_relays to_start w)) = map settings to_start
    /\ exists evs,
        trace (snd (start_relays to_start w)) = trace w ++ evs
        /\ (List.length (filter is_thread_create evs) <= List.length to_start)%nat.
Proof.
  induction to_start as [|r next IH]; intros w.
  - split; [reflexivity|]. exists []. cbn. rewrite app_nil_r. split; [reflexivity|lia].
  - cbn [Slave.start_relays].
    destruct (check_relay_stream_cases r w) as (one & Ht1 & Hs1 & Hcase).
    destruct (check_relay_stream r w) as [r' w1]. cbn [fst snd] in *.
    destruct (IH w1) as (Hs & evs & Ht & Hn).
    destruct (start_relays next w1) as [next' w2]. cbn [fst snd] in *.
    split; [cbn [map]; rewrite Hs1, Hs; reflexivity|].
    exists (one ++ evs). rewrite Ht, Ht1, <- app_assoc.
    split; [reflexivity|].
    rewrite filter_app, length_app. cbn [List.length].
    assert (List.length (filter is_thread_create one) <= 1)%nat; [|lia].
    destruct Hcase as [[Hq _]|(before & -> & Hq & _)].
    + rewrite (quiet_filter _ Hq). cbn. lia.
    + rewrite filter_app, (quiet_filter _ Hq). cbn. lia.
Qed.

(** X16.  One pass of [relay_check_streams].  The cleanup list is given up
    in order: for each record the worker is joined if the relay is running,
    the source is freed if there is one, and the record is freed; nothing
    else is joined or freed before the start loop, and no thread is created
    there.  The start loop then returns as many records as it was given,
    with the configured part of each unchanged, and creates at most one
    thread per record. *)
Theorem relay_check_streams_pass (to_start to_free : list relay_server) (w : world) :
  exists freed started,
    trace (free_relays free_source to_free w) = trace w ++ freed
    /\ trace (snd (relay_check_streams to_start to_free w))
       = trace w ++ freed ++ started
    /\ quiet freed
    /\ filter gives_up freed = flat_map given_up to_free
    /\ (List.length (filter is_thread_create started) <= List.length to_start)%nat
    /\ map settings (fst (relay_check_streams to_start to_free w))
       = map settings to_start.
Proof.
  unfold Slave.relay_check_streams.
  destruct (free_relays_gives_up to_free w) as (freed & Ht & Hq & Hg & _).
  destruct (start_relays_settings to_start (free_relays free_source to_free w))
    as (Hs & started & Ht' & Hn).
  exists freed, started. rewrite Ht', Ht, <- app_assoc. auto 10.
Qed.

Lemma same_lists_refl (w : world) : same_lists w w.
Proof. repeat split. Qed.

Lemma same_lists_trans (w1 w2 w3 : world) :
  same_lists w1 w2 -> same_lists w2 w3 -> same_lists w1 w3.
Proof.
  intros (A1 & A2 & A3 & A4) (B1 & B2 & B3 & B4).
  repeat split; etransitivity; eassumption.
Qed.

Ltac split_scrutinee :=
  match goal with
  | |- context [match ?x with _ => _ end] =>
      lazymatch x with
      | context [match _ with _ => _ end] => fail
      | _ => destruct x
      end
  end.

Lemma check_on_demand_same_lists (relay : relay_server) (source : nat) (w : world) :
  same_lists w (fst (check_on_demand relay source w)).
Proof.
  unfold Slave.check_on_demand, same_lists.
  repeat (cbn [fst snd config max_interval relays master_relays call with_sources
               slave_rebuild_mounts set_rescan_relays set_update_settings];
          try split_scrutinee);
    repeat split.
Qed.

Lemma check_relay_joined_same_lists (relay : relay_server) (w : world) :
  same_lists w (snd (check_relay_joined relay w)).
Proof.
  unfold Slave.check_relay_joined, same_lists.
  repeat (cbn [fst snd config max_interval relays master_relays call with_sources
               slave_rebuild_mounts set_rescan_relays set_update_settings
               source enable on_demand set_running set_cleanup set_thread];
          try split_scrutinee);
    repeat split.
Qed.

Lemma check_relay_start_same_lists (relay : relay_server) (w : world) :
  same_lists w (snd (match check_relay_start relay w with
                     | inl done => done
                     | inr done => done
                     end)).
Proof.
  unfold Slave.check_relay_start.
  destruct (source relay) as [src|]; [|apply same_lists_refl].
  destruct (negb (running relay =? 0)); [apply same_lists_refl|].
  destruct (enable relay =? 0); [repeat split|].
  destruct (negb (on_demand relay =? 0)).
  - pose proof (check_on_demand_same_lists relay src w) as H.
    destruct (check_on_demand relay src w) as [w1 stop]. cbn [fst] in H.
    destruct stop; [exact H|]. cbn [snd].
    apply (same_lists_trans _ _ _ H). repeat split.
  - repeat split.
Qed.

Lemma check_relay_stream_same_lists (relay : relay_server) (w : world) :
  same_lists w (snd (check_relay_stream relay w)).
Proof.
  unfold Slave.check_relay_stream.
  assert (Hgo : forall r w0,
             same_lists w w0 ->
             same_lists w (snd (match check_relay_start r w0 with
                                | inl started => started
                                | inr (r', w') => check_relay_joined r' w'
                                end))).
  { intros r w0 H0.
    pose proof (check_relay_start_same_lists r w0) as H1.
    destruct (check_relay_start r w0) as [[r' w']|[r' w']]; cbn [snd] in H1.
    - exact (same_lists_trans _ _ _ H0 H1).
    - exact (same_lists_trans _ _ _ (same_lists_trans _ _ _ H0 H1)
               (check_relay_joined_same_lists r' w')). }
  destruct (source relay) as [src|].
  - apply Hgo, same_lists_refl.
  - destruct (negb (starts_with_slash (localmount relay))); [repeat split|].
    destruct (reserve_source _ _) as [[p s0]|]; apply Hgo; repeat split.
Qed.

Lemma start_relays_same_lists (to_start : list relay_server) :
  forall w, same_lists w (snd (start_relays to_start w)).
Proof.
  induction to_start as [|r next IH]; intros w; [apply same_lists_refl|].
  cbn [Slave.start_relays].
  pose proof (check_relay_stream_same_lists r w) as H1.
  destruct (check_relay_stream r w) as [r' w1]. cbn [snd] in H1.
  pose proof (IH w1) as H2.
  destruct (start_relays next w1) as [next' w2]. cbn [snd] in *.
  exact (same_lists_trans _ _ _ H1 H2).
Qed.

Lemma relay_check_streams_same_lists (to_start to_free : list relay_server)
    (w : world) :
  same_lists w (snd (relay_check_streams to_start to_free w)).
Proof.
  unfold Slave.relay_check_streams.
  destruct (free_relays_gives_up to_free w) as (evs & _ & _ & _ & Hr & Hm & Hc & Hi).
  apply (same_lists_trans _ (free_relays free_source to_free w));
    [|apply start_relays_same_lists].
  repeat split; assumption.
Qed.

(** *** The supervisor *)

Import Supervisor.

Variable calloc_ok : nat -> bool.
Variable event_config_read : Config.ice_config_t -> Config.ice_config_t.
Variable source_recheck_mounts : Config.ice_config_t -> Source.store -> Source.store.

Abbreviation refresh :=
  (Supervisor.refresh mount_proxy find_mount update_source_settings reserve_source
     find_source_mount new_thread free_source calloc_ok).
Abbreviation rescan :=
  (Supervisor.rescan mount_proxy find_mount update_source_settings reserve_source
     find_source_mount new_thread free_source).
Abbreviation settle := (Supervisor.settle source_recheck_mounts).
Abbreviation slave_thread_pass :=
  (Supervisor.slave_thread_pass mount_proxy find_mount update_source_settings
     reserve_source find_source_mount new_thread free_source calloc_ok
     event_config_read source_recheck_mounts).
Abbreviation slave_thread_loop :=
  (Supervisor.slave_thread_loop mount_proxy find_mount update_source_settings
     reserve_source find_source_mount new_thread free_source calloc_ok
     event_config_read source_recheck_mounts).
Abbreviation slave_thread_exit :=
  (Supervisor.slave_thread_exit mount_proxy find_mount update_source_settings
     reserve_source find_source_mount new_thread free_source).

Lemma wrap_unsigned_small (z : Z) : 0 <= z < 2 ^ 32 -> wrap_unsigned z = z.
Proof. intros H. unfold wrap_unsigned. apply Z.mod_small. exact H. Qed.

Lemma slave_thread_pass_idle (slave_calloc_ok : bool) (s : state) (n : nat) :
  slave_running s <> 0 ->
  schedule_config_reread s = 0 ->
  rescan_relays (world_of s) = 0 ->
  0 <= interval s ->
  interval s + 1 < max_interval (world_of s) ->
  max_interval (world_of s) < 2 ^ 32 ->
  slave_thread_pass slave_calloc_ok s n
  = Some (set_interval (interval s + 1) s, n, true).
Proof.
  intros Hrun Hsched Hres Hi Hlt Hmax.
  unfold Supervisor.slave_thread_pass.
  rewrite Hsched. cbn [Z.eqb negb].
  destruct (Z.eqb_spec (slave_running s) 0) as [|_]; [contradiction|].
  rewrite Hres. cbn [Z.eqb].
  rewrite wrap_unsigned_small by lia.
  cbn [world_of interval set_interval].
  destruct (Z.gtb_spec (max_interval (world_of s)) (interval s + 1)); [|lia].
  reflexivity.
Qed.



Lemma settings_localmounts (l l' : list relay_server) :
  map settings l = map settings l' -> map localmount l = map localmount l'.
Proof.
  revert l'. induction l as [|a l IH]; intros [|b l'] H; try discriminate;
    [reflexivity|].
  cbn [map] in *.
  assert (Hlm : localmount a = localmount b) by (unfold settings in H; congruence).
  assert (Hl : map settings l = map settings l') by congruence.
  rewrite Hlm, (IH l' Hl). reflexivity.
Qed.

Lemma master_as_slave_spec (slave_calloc_ok : bool) (s : state) :
  hosts (master_as_slave slave_calloc_ok s)
  = SlaveHost.update_master_as_slave
      (Config.master_server (config (world_of s)))
      (Config.master_server_port (config (world_of s)))
      (Config.master_redirect_port (config (world_of s)))
      slave_calloc_ok (hosts s)
  /\ interval (master_as_slave slave_calloc_ok s) = interval s
  /\ same_lists (world_of s) (world_of (master_as_slave slave_calloc_ok s))
  /\ exists pre,
      trace (world_of (master_as_slave slave_calloc_ok s))
      = trace (world_of s) ++ pre
      /\ quiet pre /\ filter gives_up pre = [].
Proof.
  unfold master_as_slave.
  split; [reflexivity|]. split; [reflexivity|].
  cbn [world_of set_hosts set_world].
  destruct (Config.master_server (config (world_of s))) as [ms|].
  - destruct (Config.master_redirect_port (config (world_of s)) =? 0).
    + split; [apply same_lists_refl|]. exists []. rewrite app_nil_r. repeat split.
    + split; [repeat split|]. eexists. split; [reflexivity|]. split; reflexivity.
  - split; [apply same_lists_refl|]. exists []. rewrite app_nil_r. repeat split.
Qed.

Lemma from_master_spec (w : world) :
  same_lists w (from_master w)
  /\ exists pre,
      trace (from_master w) = trace w ++ pre
      /\ filter gives_up pre = []
      /\ filter is_thread_create pre
         = match Master.update_from_master (config w) with
           | Some details => [thread_create "streamlist" (Master.server details)]
           | None => []
           end.
Proof.
  unfold from_master.
  destruct (Master.update_from_master (config w)) as [d|].
  - split; [repeat split|]. eexists. split; [reflexivity|]. split; reflexivity.
  - split; [apply same_lists_refl|]. exists []. rewrite app_nil_r. repeat split.
Qed.

(** X18.  The pass that updates the relay lists, on lists with unique local
    mounts and while [calloc] provides memory.  It always returns; the
    static relay list then has exactly the local mounts of the configured
    list, in reverse order and still unique; the master relay list is not
    touched; [interval] is 0 and [max_interval] is the configured update
    interval; the host table is what [update_master_as_slave] makes of it.
    Its calls are, in order: the ones before the relay lock, among which
    nothing is joined or freed and the only thread created is the
    [streamlist] thread, created exactly when the configuration names a
    master; the lock and the release of the configuration; the cleanup of
    the records no configured relay keeps, each given up once and in
    order, with no thread created; the start checks, which create at most
    one thread per configured relay; the unlock. *)
Theorem refresh_updates_relays (slave_calloc_ok : bool) (s : state) (n : nat) :
  (forall i, calloc_ok i = true) ->
  NoDup (map localmount (relays (world_of s))) ->
  NoDup (map localmount (Config.relay (config (world_of s)))) ->
  exists s' n' pre freed started,
    refresh slave_calloc_ok s n = Some (s', n')
    /\ (n <= n')%nat
    /\ map localmount (relays (world_of s'))
       = rev (map localmount (Config.relay (config (world_of s))))
    /\ NoDup (map localmount (relays (world_of s')))
    /\ map localmount (Config.relay (config (world_of s')))
       = map localmount (Config.relay (config (world_of s)))
    /\ master_relays (world_of s') = master_relays (world_of s)
    /\ interval s' = 0
    /\ max_interval (world_of s')
       = wrap_unsigned (Config.master_update_interval (config (world_of s)))
    /\ hosts s'
       = SlaveHost.update_master_as_slave
           (Config.master_server (config (world_of s)))
           (Config.master_server_port (config (world_of s)))
           (Config.master_redirect_port (config (world_of s)))
           slave_calloc_ok (hosts s)
    /\ trace (world_of s')
       = trace (world_of s) ++ pre ++ [thread_mutex_lock]
         ++ [config_release_config] ++ freed ++ started ++ [thread_mutex_unlock]
    /\ filter gives_up pre = []
    /\ filter is_thread_create pre
       = match Master.update_from_master (config (world_of s)) with
         | Some details => [thread_create "streamlist" (Master.server details)]
         | None => []
         end
    /\ quiet freed
    /\ filter gives_up freed
       = flat_map given_up
           (cleanup_set (relays (world_of s)) (Config.relay (config (world_of s))))
    /\ (List.length (filter is_thread_create started)
        <= List.length (Config.relay (config (world_of s))))%nat.
Proof.
  intros Hmem NDc NDu. unfold Supervisor.refresh. cbv zeta.
  match goal with
  | |- context [master_as_slave slave_calloc_ok ?s0] =>
      pose proof (master_as_slave_spec slave_calloc_ok s0) as (Hh & Hi & Hsl & pre1 & Ht1 & Hq1 & Hg1);
      set (s1 := master_as_slave slave_calloc_ok s0) in *
  end.
  destruct (from_master_spec (world_of s1)) as (Hsl2 & pre2 & Ht2 & Hg2 & Hc2).
  set (w2 := from_master (world_of s1)) in *.
  cbn [world_of set_world set_interval set_max_interval call config hosts interval
       trace max_interval relays master_relays] in Hh, Hi, Hsl, Ht1.
  destruct Hsl as (Hc1 & Hm1 & Hr1 & Hmr1).
  cbn [world_of set_world set_interval set_max_interval call config hosts interval
       trace max_interval relays master_relays] in Hc1, Hm1, Hr1, Hmr1.
  destruct Hsl2 as (Hc2' & Hm2 & Hr2 & Hmr2).
  rewrite Hc1 in Hc2, Hc2'. rewrite Hr1 in Hr2. rewrite Hmr1 in Hmr2.
  rewrite Hm1 in Hm2. rewrite Ht1 in Ht2.
  clearbody w2. clearbody s1.
  cbn [relays config call].
  rewrite Hr2, Hc2'.
  unfold Relay.update_relays, Relay.update_relay_set.
  rewrite (update_relay_loop_spec calloc_ok Hmem _ _ [] n NDc NDu), app_nil_r.
  destruct (update_relay_loop_shape calloc_ok Hmem
              (Config.relay (config (world_of s))) (relays (world_of s)) [] n)
    as (nl & c0 & u0 & m0 & E & F1 & F2).
  rewrite (update_relay_loop_spec calloc_ok Hmem _ _ [] n NDc NDu) in E.
  injection E as E1 E2 E3 E4. rewrite !app_nil_r in E1.
  pose proof (settled_localmounts _ _ F1) as L1.
  pose proof (settled_localmounts _ _ F2) as L2.
  rewrite map_rev in L1, L2. subst nl c0 u0.
  unfold Slave.relay_check_streams. cbn [relays set_relays call].
  set (cur := relays (world_of s)) in *.
  set (upd := Config.relay (config (world_of s))) in *.
  match goal with
  | |- context [free_relays free_source ?l ?w0] =>
      destruct (free_relays_gives_up l w0)
        as (freed & Htf & Hqf & Hgf & Hrf & Hmf & Hcf & Hif);
      set (w4 := free_relays free_source l w0) in *
  end.
  destruct (start_relays_settings (keep_or_new cur upd) w4)
    as (Hs & started & Hts & Hn).
  pose proof (start_relays_same_lists (keep_or_new cur upd) w4)
    as (Hc5 & Hi5 & Hr5 & Hm5).
  destruct (start_relays (keep_or_new cur upd) w4) as [st w5].
  cbn [fst snd] in Hs, Hts, Hc5, Hi5, Hr5, Hm5.
  apply settings_localmounts in Hs.
  cbn [trace config max_interval relays master_relays call set_relays set_config]
    in Htf, Hrf, Hmf, Hcf, Hif.
  exists (set_world (call thread_mutex_unlock (set_relays st w5)) s1),
    (n + introduced cur upd)%nat,
    ([LOG DEBUG "checking master stream list"; config_get_config] ++ pre1 ++ pre2),
    freed, started.
  cbn [world_of set_world relays master_relays set_relays call config max_interval
       interval hosts trace].
  split; [reflexivity|]. split; [lia|].
  split; [rewrite Hs, <- L1, rev_involutive; reflexivity|].
  split; [rewrite Hs, <- (rev_involutive (map localmount (keep_or_new cur upd))), L1;
          apply NoDup_rev; exact NDu|].
  split; [rewrite Hc5, Hcf; cbn [set_relay Config.relay]; rewrite <- L2; exact L1|].
  split; [rewrite Hm5, Hmf; exact Hmr2|].
  split; [exact Hi|].
  split; [rewrite Hi5, Hif; exact Hm2|].
  split; [exact Hh|].
  split; [rewrite Hts, Htf, Ht2; cbn [app]; rewrite <- !app_assoc; reflexivity|].
  split; [rewrite !filter_app, Hg1, Hg2; reflexivity|].
  split; [rewrite !filter_app, (quiet_filter _ Hq1), Hc2; reflexivity|].
  split; [exact Hqf|]. split; [exact Hgf|].
  apply (f_equal (@List.length string)) in L1.
  rewrite length_rev, !length_map in L1. lia.
Qed.

Lemma refresh_hosts (slave_calloc_ok : bool) (s s' : state) (n n' : nat) :
  refresh slave_calloc_ok s n = Some (s', n') ->
  hosts s'
  = SlaveHost.update_master_as_slave
      (Config.master_server (config (world_of s)))
      (Config.master_server_port (config (world_of s)))
      (Config.master_redirect_port (config (world_of s)))
      slave_calloc_ok (hosts s).
Proof.
  unfold Supervisor.refresh. cbv zeta.
  destruct (update_relays _ _ _ _) as [[[[c a] u] n1]|]; [|discriminate].
  destruct (Slave.relay_check_streams _ _ _ _ _ _ _ _ _ _) as [st w1].
  intros [= <- _]. reflexivity.
Qed.

Abbreviation slave_thread_start :=
  (Supervisor.slave_thread_start source_recheck_mounts).


Lemma refresh_interval (slave_calloc_ok : bool) (s : state) (n : nat) (i : Z) :
  refresh slave_calloc_ok (set_interval i s) n = refresh slave_calloc_ok s n.
Proof. reflexivity. Qed.

Lemma settle_spec (s : state) :
  rescan_relays (world_of (settle s)) = 0
  /\ update_settings (world_of (settle s)) = 0
  /\ same_lists (world_of s) (world_of (settle s))
  /\ trace (world_of (settle s)) = trace (world_of s)
  /\ interval (settle s) = interval s
  /\ hosts (settle s) = hosts s.
Proof.
  unfold Supervisor.settle.
  cbn [world_of set_world update_settings set_rescan_relays].
  destruct (Z.eqb_spec (update_settings (world_of s)) 0) as [E|E]; cbn [negb];
    repeat split; assumption.
Qed.

(** X19.  After [slave_recheck_mounts] the next pass of a running supervisor
    is the one that updates the relay lists, whatever [interval] and the
    rescan flag are, and with the configuration read again first if that
    was requested.  The end of a pass clears both request flags and leaves
    the configuration, [max_interval], the two relay lists and the trace
    as the branch left them. *)
Theorem slave_recheck_mounts_refreshes (slave_calloc_ok : bool) (s : state) (n : nat) :
  slave_running s <> 0 ->
  0 <= interval s ->
  let w := slave_recheck_mounts (world_of s) in
  let s0 :=
    if negb (schedule_config_reread s =? 0) then
      set_schedule_config_reread 0
        (set_world (set_config (event_config_read (config w)) w) s)
    else set_world w s in
  slave_thread_pass slave_calloc_ok (set_world w s) n
  = match refresh slave_calloc_ok s0 n with
    | Some (s', n') => Some (settle s', n', true)
    | None => None
    end
  /\ forall s', rescan_relays (world_of (settle s')) = 0
                /\ update_settings (world_of (settle s')) = 0
                /\ same_lists (world_of s') (world_of (settle s'))
                /\ trace (world_of (settle s')) = trace (world_of s').
Proof.
  intros Hrun Hi w s0. split.
  - assert (Hmax : max_interval w = 0) by reflexivity.
    assert (Hres : rescan_relays w = rescan_relays (world_of s)) by reflexivity.
    assert (Hb : 0 <= wrap_unsigned (interval s + 1))
      by (apply Z.mod_pos_bound; reflexivity).
    unfold Supervisor.slave_thread_pass.
    cbn [schedule_config_reread set_world world_of].
    unfold s0.
    destruct (negb (schedule_config_reread s =? 0));
      cbn [slave_running set_schedule_config_reread set_world world_of
           rescan_relays set_config interval max_interval set_interval];
      (destruct (Z.eqb_spec (slave_running s) 0) as [|_]; [contradiction|]);
      rewrite ?Hres;
      (destruct (rescan_relays (world_of s) =? 0);
       cbn [slave_running set_schedule_config_reread set_world world_of
            rescan_relays set_config interval max_interval set_interval];
       rewrite ?Hmax;
       [destruct (Z.gtb_spec 0 (wrap_unsigned (interval s + 1))); [lia|];
        destruct (Z.leb_spec 0 (wrap_unsigned (interval s + 1))); [|lia];
        rewrite refresh_interval
       |destruct (Z.leb_spec 0 (interval s)); [|lia]]);
      reflexivity.
  - intros s'. destruct (settle_spec s') as (H1 & H2 & H3 & H4 & _).
    auto.
Qed.

Ltac trace_leaf :=
  first [ exists []; split; [symmetry; apply app_nil_r | reflexivity]
        | eexists; split; [cbn; rewrite <- ?app_assoc; reflexivity | reflexivity] ].

Lemma frees_nothing_app (a b : list event) :
  filter frees a = [] -> filter frees b = [] -> filter frees (a ++ b) = [].
Proof. intros Ha Hb. rewrite filter_app, Ha, Hb. reflexivity. Qed.

Lemma check_on_demand_frees_nothing (relay : relay_server) (source : nat) (w : world) :
  exists evs,
    trace (fst (check_on_demand relay source w)) = trace w ++ evs
    /\ filter frees evs = [].
Proof.
  pose proof (check_on_demand_spec mount_proxy find_mount update_source_settings
                find_source_mount relay source w) as (_ & _ & _ & _ & _ & Ht).
  eexists. split; [exact Ht|].
  repeat apply frees_nothing_app; try reflexivity.
  - destruct (find_mount (config w) (localmount relay)); reflexivity.
  - unfold Slave.override_lookup.
    destruct (Source.fallback_mount _) as [fb|]; [|reflexivity].
    destruct (Source.fallback_override _ =? 0); [reflexivity|].
    destruct (Slave.fallback_demand _ _ _); reflexivity.
Qed.

Lemma check_relay_joined_frees_nothing (relay : relay_server) (w : world) :
  exists evs,
    trace (snd (check_relay_joined relay w)) = trace w ++ evs
    /\ filter frees evs = [].
Proof.
  unfold Slave.check_relay_joined.
  destruct (cleanup relay =? 0); cbn [negb andb]; [trace_leaf|].
  destruct (thread relay) as [t|]; [|trace_leaf].
  cbn [enable set_running set_cleanup set_thread on_demand source localmount].
  destruct (enable relay =? 0); [trace_leaf|].
  destruct (on_demand relay =? 0); cbn [negb]; [trace_leaf|].
  destruct (source relay); trace_leaf.
Qed.

Lemma check_relay_stream_frees_nothing (relay : relay_server) (w : world) :
  exists evs,
    trace (snd (check_relay_stream relay w)) = trace w ++ evs
    /\ filter frees evs = [].
Proof.
  unfold Slave.check_relay_stream.
  assert (Hgo : forall r w0 pre,
             trace w0 = trace w ++ pre -> filter frees pre = [] ->
             exists evs,
               trace (snd (match check_relay_start r w0 with
                           | inl started => started
                           | inr (r', w') => check_relay_joined r' w'
                           end)) = trace w ++ evs
               /\ filter frees evs = []).
  { intros r w0 pre Hp Hf.
    assert (Hj : forall r' w' mid,
               trace w' = trace w0 ++ mid -> filter frees mid = [] ->
               exists evs,
                 trace (snd (check_relay_joined r' w')) = trace w ++ evs
                 /\ filter frees evs = []).
    { intros r' w' mid Hm Hfm.
      destruct (check_relay_joined_frees_nothing r' w') as (evs & Ht & He).
      exists (pre ++ mid ++ evs). rewrite Ht, Hm, Hp, <- !app_assoc.
      split; [reflexivity|]. repeat apply frees_nothing_app; assumption. }
    unfold Slave.check_relay_start.
    destruct (source r) as [src|]; [|apply (Hj _ _ []); [symmetry; apply app_nil_r|reflexivity]].
    destruct (negb (running r =? 0));
      [apply (Hj _ _ []); [symmetry; apply app_nil_r|reflexivity]|].
    destruct (enable r =? 0); [eapply Hj; [reflexivity|reflexivity]|].
    destruct (negb (on_demand r =? 0)).
    - destruct (check_on_demand_frees_nothing r src w0) as (evs & Ht & He).
      destruct (check_on_demand r src w0) as [w1 stop]. cbn [fst] in Ht.
      destruct stop; [apply (Hj _ _ evs); assumption|].
      cbn [snd call trace].
      exists (pre ++ evs ++ [thread_create "Relay Thread" (localmount r)]).
      rewrite Ht, Hp, <- !app_assoc. split; [reflexivity|].
      repeat apply frees_nothing_app; try assumption; reflexivity.
    - cbn [snd call trace].
      exists (pre ++ [thread_create "Relay Thread" (localmount r)]).
      rewrite Hp, <- !app_assoc. split; [reflexivity|].
      apply frees_nothing_app; [assumption | reflexivity]. }
  destruct (source relay) as [src|].
  - apply (Hgo _ _ []); [symmetry; apply app_nil_r | reflexivity].
  - destruct (negb (starts_with_slash (localmount relay))); [trace_leaf|].
    destruct (reserve_source _ _) as [[p s0]|];
      eapply Hgo; try (cbn; rewrite <- ?app_assoc; reflexivity); reflexivity.
Qed.

Lemma start_relays_frees_nothing (to_start : list relay_server) :
  forall w, exists evs,
    trace (snd (start_relays to_start w)) = trace w ++ evs
    /\ filter frees evs = []
    /\ (List.length (filter is_thread_create evs) <= List.length to_start)%nat.
Proof.
  induction to_start as [|r next IH]; intros w.
  - exists []. cbn. rewrite app_nil_r. repeat split. lia.
  - cbn [Slave.start_relays].
    destruct (check_relay_stream_frees_nothing r w) as (one & Ht1 & Hf1).
    destruct (check_relay_stream_cases r w) as (one' & Ht1' & _ & Hcase).
    rewrite Ht1 in Ht1'. apply app_inv_head in Ht1'. subst one'.
    destruct (check_relay_stream r w) as [r' w1]. cbn [fst snd] in *.
    destruct (IH w1) as (evs & Ht & Hf & Hn).
    destruct (start_relays next w1) as [next' w2]. cbn [fst snd] in *.
    exists (one ++ evs). rewrite Ht, Ht1, <- app_assoc.
    split; [reflexivity|]. split; [apply frees_nothing_app; assumption|].
    rewrite filter_app, length_app. cbn [List.length].
    assert (List.length (filter is_thread_create one) <= 1)%nat; [|lia].
    destruct Hcase as [[Hq _]|(before & -> & Hq & _)].
    + rewrite (quiet_filter _ Hq). cbn. lia.
    + rewrite filter_app, (quiet_filter _ Hq). cbn. lia.
Qed.

Lemma start_relays_checked (to_start : list relay_server) (w : world) :
  exists evs,
    trace (snd (start_relays to_start w)) = trace w ++ evs
    /\ filter frees evs = []
    /\ (List.length (filter is_thread_create evs) <= List.length to_start)%nat
    /\ map settings (fst (start_relays to_start w)) = map settings to_start
    /\ same_lists w (snd (start_relays to_start w))
    /\ start_relays to_start w = relay_check_streams to_start [] w.
Proof.
  destruct (start_relays_frees_nothing to_start w) as (evs & Ht & Hf & Hn).
  exists evs. split; [exact Ht|]. split; [exact Hf|]. split; [exact Hn|].
  split; [apply start_relays_settings|].
  split; [apply start_relays_same_lists | reflexivity].
Qed.


End PolicyMore.

(** ** Instances of the further properties *)

Section MoreInstances.
Import C Relay Trace Slave Examples Scenarios.

(** The reload of [Examples]: one allocation, two active records, one
    record left for cleanup. *)
Lemma update_relays_accounts_witness :
  (0 <= 1)%nat
  /\ List.length [introduce wanted_c; promote wanted_m relay_running]
     = List.length [wanted_m; wanted_c]
  /\ List.length [wanted_m; set_source None wanted_c]
     = List.length [wanted_m; wanted_c]
  /\ (List.length [relay_other]
      + List.length [introduce wanted_c; promote wanted_m relay_running]
      = List.length [relay_running; relay_other] + (1 - 0))%nat.
Proof.
  exact (update_relays_accounts (fun _ => true) [relay_running; relay_other]
           [wanted_m; wanted_c] [relay_other]
           [introduce wanted_c; promote wanted_m relay_running]
           [wanted_m; set_source None wanted_c] 0 1 eq_refl).
Defined.

(** The source 9 of the template [/c] goes to the copy. *)
Lemma update_relays_keeps_handles_witness :
  (Lookup.owners 9 [relay_running; relay_other]
   + Lookup.owners 9 [wanted_m; wanted_c]
   = Lookup.owners 9 [introduce wanted_c; promote wanted_m relay_running]
     + Lookup.owners 9 [relay_other]
     + Lookup.owners 9 [wanted_m; set_source None wanted_c])%nat.
Proof.
  exact (update_relays_keeps_handles (fun _ => true) [relay_running; relay_other]
           [wanted_m; wanted_c] [relay_other]
           [introduce wanted_c; promote wanted_m relay_running]
           [wanted_m; set_source None wanted_c] 0 1 eq_refl 9%nat).
Defined.

Lemma slave_find_relay_after_update_witness :
  (exists x,
      Lookup.slave_find_relay
        [introduce wanted_c; promote wanted_m relay_running] "/m" = Some x
      /\ on_demand x = 1)
  /\ Lookup.slave_find_relay
       [introduce wanted_c; promote wanted_m relay_running] "/x" = None.
Proof.
  destruct (slave_find_relay_after_update (fun _ => true)
              [relay_running; relay_other] [wanted_m; wanted_c] [relay_other]
              [introduce wanted_c; promote wanted_m relay_running]
              [wanted_m; set_source None wanted_c] 0 1
              (fun _ => eq_refl) nodup_wanted eq_refl) as [Hfound Hnone].
  split.
  - destruct (Hfound wanted_m (or_introl eq_refl))
      as (x & Hx & _ & _ & _ & _ & _ & Ho).
    exists x. split; [exact Hx | exact Ho].
  - apply Hnone. intros d [<-|[<-|[]]]; discriminate.
Defined.

Lemma two_hosts_room : SlaveHost.table_room two_hosts.
Proof.
  unfold SlaveHost.table_room, two_hosts, INT_MAX; simpl.
  split; [lia|]. repeat constructor; simpl; lia.
Defined.

Lemma two_hosts_distinct : HostKeys.distinct_hosts two_hosts.
Proof.
  unfold HostKeys.distinct_hosts, two_hosts. simpl.
  repeat constructor; simpl; intuition discriminate.
Defined.

(** A new host [z:9] is linked and unlinked again. *)
Lemma slave_host_add_remove_witness :
  SlaveHost.slave_host_remove {| SlaveHost.ice_redirect := Some "z:9" |}
    (SlaveHost.slave_host_add (Some (SlaveHost.mk_client None)) (Some "z:9")
       true two_hosts)
  = two_hosts.
Proof.
  exact (slave_host_add_remove (SlaveHost.mk_client None) "z:9" two_hosts
           (proj1 two_hosts_ok) (proj2 two_hosts_ok) two_hosts_room).
Defined.

Lemma slave_hosts_stay_distinct_witness :
  HostKeys.distinct_hosts
    (SlaveHost.slave_host_add (Some (SlaveHost.mk_client None)) (Some "x:1")
       true two_hosts)
  /\ HostKeys.distinct_hosts
       (SlaveHost.slave_host_remove
          {| SlaveHost.ice_redirect := Some "y:2" |} two_hosts)
  /\ HostKeys.distinct_hosts
       (SlaveHost.update_master_as_slave (Some "master.example.org") 8000 8001
          true two_hosts).
Proof.
  destruct (slave_hosts_stay_distinct two_hosts two_hosts_distinct)
    as (Hadd & Hremove & Hmaster).
  split; [apply Hadd|]. split; [apply Hremove | apply Hmaster].
Defined.

(** One of the two clients of [x:1] leaves: the host stays findable, at its
    place. *)
Lemma find_slave_host_after_witness :
  SlaveHost.find_slave_host
    (SlaveHost.slaves
       (SlaveHost.slave_host_remove
          {| SlaveHost.ice_redirect := Some "x:1" |} two_hosts))
    "x" 1
  = Some 1%nat.
Proof.
  destruct (find_slave_host_after "x" "1" two_hosts eq_refl) as [_ H].
  destruct (H [SlaveHost.mk_slave "y" 2 1] (SlaveHost.mk_slave "x" 1 2) []
              two_hosts_distinct (proj1 two_hosts_ok) (proj2 two_hosts_ok)
              eq_refl eq_refl) as [_ H2].
  refine (proj2 (H2 _)). discriminate.
Defined.

Lemma slave_redirect_in_range_witness :
  exists slave,
    nth_error (SlaveHost.slaves two_hosts) (Z.to_nat 1) = Some slave
    /\ SlaveHost.slave_redirect "/m" 1 true two_hosts
       = Some (1, Some (snprintf
                          (wrap_int (strlen "/m" + strlen (SlaveHost.server slave) + 13))
                          ("http://" ++ SlaveHost.server slave ++ ":"
                           ++ fmt_d (SlaveHost.port slave) ++ "/m")%string))
    /\ SlaveHost.slave_redirect "/m" 1 false two_hosts = Some (0, None).
Proof.
  refine (proj1 (slave_redirect_in_range "/m" 1 two_hosts (proj2 two_hosts_ok) _) _).
  - unfold two_hosts, INT_MAX. simpl. lia.
  - unfold two_hosts. simpl. lia.
Defined.


Lemma streamlist_data_split_witness :
  snd (Master.streamlist_data block_b (snd (Master.streamlist_data block_a master0)))
  = snd (Master.streamlist_data (block_a ++ block_b) master0).
Proof.
  refine (proj1 (streamlist_data_split block_a block_b master0 _ _ _ _)).
  - split; reflexivity.
  - reflexivity.
  - reflexivity.
  - apply Z.leb_le. reflexivity.
Defined.

Lemma status_reason_ignored_witness :
  sscanf_status "HTTP/1.0 200 OK" = (1, Some 200).
Proof.
  refine (proj1 (status_reason_ignored "/1.0" " OK" _ eq_refl eq_refl eq_refl eq_refl)).
  discriminate.
Defined.

(** The master answers 200 with an empty list: the relay [/m] of the master
    list is given up. *)
Lemma streamlist_commits_after_200_witness :
  exists w',
    streamlist_thread unit Examples.find_mount Examples.update_source_settings
      Examples.reserve_source Examples.find_source_mount Examples.new_thread
      keep_store (fun _ => true) ok_empty 0 master0 with_master_relay
    = Some w'
    /\ master_relays w' = [].
Proof.
  destruct (streamlist_commits_after_200 unit Examples.find_mount
              Examples.update_source_settings Examples.reserve_source
              Examples.find_source_mount Examples.new_thread keep_store
              (fun _ => true) cfg_redirect master0 ok_empty 0 with_master_relay
              ok_status "HTTP/1.0 200 OK" []
              eq_refl eq_refl eq_refl eq_refl eq_refl eq_refl)
    as (w1 & w' & H & _ & _ & _ & _ & Hm).
  exists w'. exact (conj H Hm).
Defined.

(** The worker of [/m] fails while reading the header; the next check
    joins it. *)
Lemma relay_worker_joined_witness :
  exists relay1 w1,
    start_relay_stream "Icecast 2.3.2" base64_id Examples.find_source_mount
      keep_store keep_store keep_store2 keep_store header_read_fails
      relay_running world0
    = Some (relay1, w1)
    /\ running relay1 = 1
    /\ thread (fst (check_relay_stream unit Examples.find_mount
                      Examples.update_source_settings Examples.reserve_source
                      Examples.find_source_mount Examples.new_thread relay1 w1))
       = None.
Proof.
  destruct (relay_worker_joined "Icecast 2.3.2" base64_id unit Examples.find_mount
              Examples.update_source_settings Examples.reserve_source
              Examples.find_source_mount Examples.new_thread
              keep_store keep_store keep_store2 keep_store
              header_read_fails relay_running world0 3%nat 7%nat eq_refl eq_refl)
    as (relay1 & w1 & H1 & H2 & _ & _ & H3 & _).
  exists relay1, w1. exact (conj H1 (conj H2 H3)).
Defined.


Lemma refresh_updates_relays_witness :
  exists s' n',
    Supervisor.refresh unit Examples.find_mount Examples.update_source_settings
      Examples.reserve_source Examples.find_source_mount Examples.new_thread
      keep_store (fun _ => true) true supervisor_on 0
    = Some (s', n')
    /\ map localmount (relays (Supervisor.world_of s')) = ["/c"; "/m"].
Proof.
  destruct (refresh_updates_relays unit Examples.find_mount
              Examples.update_source_settings Examples.reserve_source
              Examples.find_source_mount Examples.new_thread keep_store
              (fun _ => true) true supervisor_on 0
              (fun _ => eq_refl) nodup_current nodup_wanted)
    as (s' & n' & pre & freed & started & H1 & _ & H2 & _).
  exists s', n'. exact (conj H1 H2).
Defined.

Lemma slave_recheck_mounts_refreshes_witness :
  Supervisor.slave_thread_pass unit Examples.find_mount
    Examples.update_source_settings Examples.reserve_source
    Examples.find_source_mount Examples.new_thread keep_store (fun _ => true)
    same_config same_sources true
    (Supervisor.set_world (slave_recheck_mounts supervised) supervisor_on) 0
  = match Supervisor.refresh unit Examples.find_mount
            Examples.update_source_settings Examples.reserve_source
            Examples.find_source_mount Examples.new_thread keep_store
            (fun _ => true) true
            (Supervisor.set_world (slave_recheck_mounts supervised) supervisor_on) 0 with
    | Some (s', n') => Some (Supervisor.settle same_sources s', n', true)
    | None => None
    end.
Proof.
  refine (proj1 (slave_recheck_mounts_refreshes unit Examples.find_mount
                   Examples.update_source_settings Examples.reserve_source
                   Examples.find_source_mount Examples.new_thread keep_store
                   (fun _ => true) same_config same_sources true supervisor_on 0 _ _)).
  - discriminate.
  - simpl. lia.
Defined.



End MoreInstances.
